(** * Document OCR Manager: classifier, storage, store, aggregator, pipeline

    A shallow embedding of [core/classifier.py], [core/storage.py],
    [core/db.py], [core/ocr_engine.py] and the upload page of [main.py],
    followed by the properties proved about them. *)

From Stdlib Require Import String Ascii.
From Stdlib Require Import NArith ZArith List Bool Lia.
From Stdlib Require Import Permutation Sorted Floats.
Import ListNotations.

Local Open Scope N_scope.
Local Open Scope list_scope.

(* ================================================================== *)
(** * Part I. The embedding *)
(* ================================================================== *)

(** ** Python [str]

    A Python string is a sequence of Unicode code points.  String literals
    of the source are written as UTF-8 byte strings and decoded. *)

Module PyStr.

Definition str := list N.

Fixpoint utf8_decode (bs : list N) : str :=
  match bs with
  | [] => []
  | b :: r =>
      if b <? 0x80 then b :: utf8_decode r
      else if b <? 0xE0 then
        match r with
        | b1 :: r1 => ((b - 0xC0) * 64 + (b1 - 0x80)) :: utf8_decode r1
        | _ => []
        end
      else if b <? 0xF0 then
        match r with
        | b1 :: b2 :: r2 =>
            ((b - 0xE0) * 4096 + (b1 - 0x80) * 64 + (b2 - 0x80)) :: utf8_decode r2
        | _ => []
        end
      else
        match r with
        | b1 :: b2 :: b3 :: r3 =>
            ((b - 0xF0) * 262144 + (b1 - 0x80) * 4096 + (b2 - 0x80) * 64 + (b3 - 0x80))
              :: utf8_decode r3
        | _ => []
        end
  end.

(** [u "..."] is the Python literal ["..."]. *)
Definition u (s : string) : str :=
  utf8_decode (map N_of_ascii (list_ascii_of_string s)).

(** [str.isspace] on one character; the regular-expression class [\s] of a
    [str] pattern is the same set. *)
Definition isspace (c : N) : bool :=
  ((0x09 <=? c) && (c <=? 0x0D)) || ((0x1C <=? c) && (c <=? 0x20))
  || (c =? 0x85) || (c =? 0xA0) || (c =? 0x1680)
  || ((0x2000 <=? c) && (c <=? 0x200A))
  || (c =? 0x2028) || (c =? 0x2029) || (c =? 0x202F) || (c =? 0x205F)
  || (c =? 0x3000).

(** The regular-expression class [\d], on the ASCII digits (the class of a
    [str] pattern also holds the decimal digits of other scripts). *)
Definition isdigit (c : N) : bool := (0x30 <=? c) && (c <=? 0x39).

(** [s or ""] for an optional string. *)
Definition or_empty (s : option str) : str :=
  match s with Some x => x | None => [] end.

(** [s.lower()], from the interpreter's per-character lower-case mapping
    (one character may map to several: U+0130).  The one rule of
    [str.lower] that looks at the neighbours of a character, for the Greek
    capital sigma at the end of a word, is left out. *)
Definition lower (lower_cp : N -> list N) (s : str) : str :=
  flat_map lower_cp s.

Fixpoint lstrip (s : str) : str :=
  match s with
  | [] => []
  | c :: s' => if isspace c then lstrip s' else s
  end.

Fixpoint rstrip (s : str) : str :=
  match s with
  | [] => []
  | c :: s' =>
      match rstrip s' with
      | [] => if isspace c then [] else [c]
      | r => c :: r
      end
  end.

(** [s.strip()] *)
Definition strip (s : str) : str := rstrip (lstrip s).

(** [re.sub(r"C+", rep, s)] for a character class [C]: every maximal run of
    characters of the class is replaced by [rep].  [in_run] tells that the
    previous character was in the class (its run is already replaced). *)
Fixpoint sub_runs_from (cls : N -> bool) (rep : str) (in_run : bool) (s : str) : str :=
  match s with
  | [] => []
  | c :: s' =>
      if cls c then
        if in_run then sub_runs_from cls rep true s'
        else rep ++ sub_runs_from cls rep true s'
      else c :: sub_runs_from cls rep false s'
  end.

Definition re_sub_runs (cls : N -> bool) (rep : str) (s : str) : str :=
  sub_runs_from cls rep false s.

(** [s.replace(a, b)] for one-character [a] and [b]. *)
Definition replace_char (a b : N) (s : str) : str :=
  map (fun c => if c =? a then b else c) s.

Fixpoint startswith (s k : str) {struct k} : bool :=
  match k, s with
  | [], _ => true
  | _ :: _, [] => false
  | a :: k', b :: s' => (a =? b) && startswith s' k'
  end.

(** [k in s] *)
Fixpoint str_in (k s : str) : bool :=
  startswith s k
  || match s with
     | [] => false
     | _ :: s' => str_in k s'
     end.

(** [sep.join(parts)] *)
Fixpoint join (sep : str) (parts : list str) : str :=
  match parts with
  | [] => []
  | [p] => p
  | p :: ps => p ++ sep ++ join sep ps
  end.

(** [s.split()]: the maximal runs of characters that are not whitespace. *)
Fixpoint words (s : str) : list str :=
  match s with
  | [] => []
  | c :: s' =>
      if isspace c then words s'
      else
        match s' with
        | [] => [[c]]
        | c' :: _ =>
            if isspace c' then [c] :: words s'
            else
              match words s' with
              | w :: ws => (c :: w) :: ws
              | [] => [[c]]
              end
        end
  end.

Definition str_eqb (a b : str) : bool :=
  if list_eq_dec N.eq_dec a b then true else false.

End PyStr.
Import PyStr.

(** ** Regular expressions

    The fragment of Python's [re] used by the classifier, with [re.search]
    decided by Brzozowski derivatives. *)

Module Re.

Inductive regex : Type :=
| Void : regex
| Eps : regex
| Cls : (N -> bool) -> regex
| Seq : regex -> regex -> regex
| Alt : regex -> regex -> regex
| Star : regex -> regex.

Definition Plus (r : regex) : regex := Seq r (Star r).
Definition Opt (r : regex) : regex := Alt r Eps.
Definition Chr (c : N) : regex := Cls (N.eqb c).

Fixpoint Lit (s : str) : regex :=
  match s with
  | [] => Eps
  | c :: s' => Seq (Chr c) (Lit s')
  end.

Fixpoint nullable (r : regex) : bool :=
  match r with
  | Void => false
  | Eps => true
  | Cls _ => false
  | Seq a b => nullable a && nullable b
  | Alt a b => nullable a || nullable b
  | Star _ => true
  end.

Fixpoint deriv (c : N) (r : regex) : regex :=
  match r with
  | Void => Void
  | Eps => Void
  | Cls p => if p c then Eps else Void
  | Seq a b =>
      if nullable a then Alt (Seq (deriv c a) b) (deriv c b)
      else Seq (deriv c a) b
  | Alt a b => Alt (deriv c a) (deriv c b)
  | Star a => Seq (deriv c a) (Star a)
  end.

(** Some prefix of [s] matches [r]: [re.match(r, s)] is not [None]. *)
Fixpoint re_match (r : regex) (s : str) : bool :=
  nullable r
  || match s with
     | [] => false
     | c :: s' => re_match (deriv c r) s'
     end.

(** Some substring of [s] matches [r]: [re.search(r, s)] is not [None]. *)
Fixpoint re_search (r : regex) (s : str) : bool :=
  re_match r s
  || match s with
     | [] => false
     | _ :: s' => re_search r s'
     end.

End Re.
Import Re.

(** ** [core/classifier.py] *)

Section Classifier.

(** The interpreter's lower-case mapping of one code point. *)
Variable lower_cp : N -> list N.

Definition normalize_text (s : option str) : str :=
  let s := lower lower_cp (or_empty s) in
  let s := strip (re_sub_runs isspace (u " ") s) in
  s.

Definition gov_keywords : list str :=
  map u
    [ "cộng hòa xã hội chủ nghĩa việt nam";
      "độc lập - tự do - hạnh phúc";
      "công điện";
      "kính gửi";
      "số:";
      "khẩn";
      "hỏa tốc";
      "bộ ";
      "ủy ban nhân dân";
      "thủ tướng";
      "chính phủ" ]%string.

Definition invoice_keywords : list str :=
  map u
    [ "invoice"; "receipt"; "vat"; "tax"; "subtotal"; "total"; "amount";
      "cashier"; "change"; "paid"; "payment";
      "hóa đơn"; "hoá đơn"; "mã số thuế"; "tổng cộng"; "thành tiền"; "tiền mặt";
      "số hóa đơn"; "số hoá đơn"; "ngày bán"; "đơn giá"; "số lượng" ]%string.

(** [sum(1 for k in keywords if k in t)] *)
Definition hits (keywords : list str) (t : str) : nat :=
  length (filter (fun k => str_in k t) keywords).

Definition currency_markers : list str :=
  map u [ "vnd"; "đ"; "usd"; "$" ]%string.

(** [(\d{1,3}([.,]\d{3})+|\d+)\s*(vnd|đ|usd|\$)] *)
Definition money_re : regex :=
  let d := Cls isdigit in
  let sep := Cls (fun c => (c =? 0x2E) || (c =? 0x2C)) in
  Seq (Alt (Seq (Seq d (Opt (Seq d (Opt d)))) (Plus (Seq sep (Seq d (Seq d d)))))
           (Plus d))
      (Seq (Star (Cls isspace))
           (Alt (Lit (u "vnd")) (Alt (Lit (u "đ")) (Alt (Lit (u "usd")) (Lit (u "$")))))).

Definition money_like (t : str) : bool := re_search money_re t.

Definition classify_document (ocr_text : option str) : str :=
  let t := normalize_text ocr_text in
  let gov_hits := hits gov_keywords t in
  if (2 <=? gov_hits)%nat then u "Government Telegram"
  else
    let inv_hits := hits invoice_keywords t in
    if (2 <=? inv_hits)%nat || ((1 <=? inv_hits)%nat && money_like t)
    then u "Invoice"
    else u "Normal".

End Classifier.

(** The lower-case mapping on the alphabets the recognizer is configured
    for (English and Vietnamese): ASCII, Latin-1, the Vietnamese letters of
    Latin Extended-A/B and Latin Extended Additional. *)
Definition vi_lower1 (c : N) : N :=
  if (0x41 <=? c) && (c <=? 0x5A) then c + 32
  else if (0xC0 <=? c) && (c <=? 0xDE) && negb (c =? 0xD7) then c + 32
  else if (c =? 0x102) || (c =? 0x110) || (c =? 0x128) || (c =? 0x168)
          || (c =? 0x1A0) || (c =? 0x1AF) then c + 1
  else if (0x1EA0 <=? c) && (c <=? 0x1EF9) && N.even c then c + 1
  else c.

Definition vi_lower_cp (c : N) : list N := [vi_lower1 c].

(** ** [core/storage.py] *)

Module Storage.

(** The class [[a-zA-Z0-9._-]]. *)
Definition is_filename_char (c : N) : bool :=
  ((0x61 <=? c) && (c <=? 0x7A)) || ((0x41 <=? c) && (c <=? 0x5A))
  || ((0x30 <=? c) && (c <=? 0x39))
  || (c =? 0x2E) || (c =? 0x5F) || (c =? 0x2D).

Definition safe_filename (name : str) : str :=
  let name := replace_char 0x2F 0x5F (replace_char 0x5C 0x5F (strip name)) in
  let name := re_sub_runs (fun c => negb (is_filename_char c)) (u "_") name in
  if (180 <? length name)%nat then firstn 180 name else name.

(** *** Paths ([pathlib], POSIX flavour)

    A path is the list of its components below the root. *)

Definition path := list str.

(** [s.split("/")] *)
Fixpoint split_slash (cur : str) (s : str) : list str :=
  match s with
  | [] => [rev cur]
  | c :: s' => if c =? 0x2F then rev cur :: split_slash [] s' else split_slash (c :: cur) s'
  end.

(** The components [pathlib] reads off a string: empty components and ["."]
    are dropped, [".."] is kept. *)
Definition parse_parts (s : str) : list str :=
  filter (fun p => negb (str_eqb p [] || str_eqb p (u "."))) (split_slash [] s).

(** [p / s] *)
Definition joinpath (p : path) (s : str) : path :=
  if startswith s (u "/") then parse_parts s else p ++ parse_parts s.

(** [str(p)] *)
Definition path_str (p : path) : str :=
  u "/" ++ join (u "/") p.

(** The location a path names once the file system has followed its [".."]
    components (no symbolic links). *)
Fixpoint resolve_from (seen : list str) (p : path) : path :=
  match p with
  | [] => rev seen
  | c :: p' =>
      if str_eqb c (u "..") then resolve_from (tl seen) p'
      else resolve_from (c :: seen) p'
  end.

Definition resolve (p : path) : path := resolve_from [] p.

Fixpoint is_prefix (a b : path) : bool :=
  match a, b with
  | [], _ => true
  | _ :: _, [] => false
  | x :: a', y :: b' => str_eqb x y && is_prefix a' b'
  end.

(** [p] names a location strictly below the directory [dir]. *)
Definition strictly_inside (dir p : path) : bool :=
  is_prefix (resolve dir) (resolve p)
  && (length (resolve dir) <? length (resolve p))%nat.

(** [doc_upload_dir], [doc_export_dir] (the directories are created on the
    way; the file system is not modelled). *)
Definition doc_upload_dir (uploads_dir : path) (doc_id : str) : path :=
  joinpath uploads_dir doc_id.

Definition doc_export_dir (exports_dir : path) (doc_id : str) : path :=
  joinpath exports_dir doc_id.

End Storage.
Import Storage.

(** ** [core/db.py]

    The SQLite database behind the connection: the [documents] table, the
    [images] table with its AUTOINCREMENT counter, and the FTS5 table
    [documents_fts], absent when the SQLite build has no FTS5. *)

Module Db.

(** A column value: SQL NULL or TEXT. *)
Definition value := option str.

Record document_row := {
  d_id : str;
  d_title : value;
  d_created_at : value;
  d_doc_type : value;
  d_ocr_text : value;
  d_word_path : value;
  d_excel_path : value
}.

Record image_row := {
  i_id : N;
  i_document_id : str;
  i_filename : str;
  i_stored_path : str;
  i_ocr_text : value
}.

Record fts_row := {
  f_document_id : str;
  f_title : value;
  f_doc_type : value;
  f_ocr_text : value
}.

Record conn := {
  documents : list document_row;
  images : list image_row;
  images_seq : N;
  documents_fts : option (list fts_row)
}.

(** A value of the [doc] dictionary under one key: the key is missing, or
    holds [None], or holds a string. *)
Inductive pyval := Missing | PyNone | PyStr (s : str).

(** The [doc] argument of [upsert_document]; ["id"] is read with
    [doc["id"]] and is the TEXT key of the Document. *)
Record doc_dict := {
  k_id : str;
  k_title : pyval;
  k_created_at : pyval;
  k_doc_type : pyval;
  k_ocr_text : pyval;
  k_word_path : pyval;
  k_excel_path : pyval
}.

(** [doc.get(key)] *)
Definition dict_get (v : pyval) : value :=
  match v with
  | PyStr s => Some s
  | _ => None
  end.

(** [doc.get(key, default)] *)
Definition dict_get_default (v : pyval) (default : str) : value :=
  match v with
  | Missing => Some default
  | PyNone => None
  | PyStr s => Some s
  end.

(** [INSERT ... ON CONFLICT(id) DO UPDATE SET] every other column. *)
Fixpoint insert_or_update (r : document_row) (rows : list document_row)
  : list document_row :=
  match rows with
  | [] => [r]
  | x :: rest =>
      if str_eqb (d_id x) (d_id r) then r :: rest
      else x :: insert_or_update r rest
  end.

Definition upsert_document (c : conn) (doc : doc_dict) : conn :=
  let row := {| d_id := k_id doc;
                d_title := dict_get (k_title doc);
                d_created_at := dict_get (k_created_at doc);
                d_doc_type := dict_get (k_doc_type doc);
                d_ocr_text := dict_get (k_ocr_text doc);
                d_word_path := dict_get (k_word_path doc);
                d_excel_path := dict_get (k_excel_path doc) |} in
  let docs := insert_or_update row (documents c) in
  (* Update FTS; sqlite3.OperationalError: pass *)
  let fts :=
    match documents_fts c with
    | None => None
    | Some rows =>
        let rows := filter (fun f => negb (str_eqb (f_document_id f) (k_id doc))) rows in
        Some (rows ++ [ {| f_document_id := k_id doc;
                           f_title := dict_get_default (k_title doc) [];
                           f_doc_type := dict_get_default (k_doc_type doc) [];
                           f_ocr_text := dict_get_default (k_ocr_text doc) [] |} ])
    end in
  {| documents := docs; images := images c; images_seq := images_seq c;
     documents_fts := fts |}.

Definition insert_image (c : conn) (document_id filename stored_path : str)
  (ocr_text : value) : conn :=
  let id := images_seq c + 1 in
  {| documents := documents c;
     images := images c ++ [ {| i_id := id; i_document_id := document_id;
                                i_filename := filename;
                                i_stored_path := stored_path;
                                i_ocr_text := ocr_text |} ];
     images_seq := id;
     documents_fts := documents_fts c |}.

Definition update_image_ocr (c : conn) (document_id stored_path ocr_text : str)
  : conn :=
  {| documents := documents c;
     images :=
       map (fun r =>
              if str_eqb (i_document_id r) document_id
                 && str_eqb (i_stored_path r) stored_path
              then {| i_id := i_id r; i_document_id := i_document_id r;
                      i_filename := i_filename r;
                      i_stored_path := i_stored_path r;
                      i_ocr_text := Some ocr_text |}
              else r)
           (images c);
     images_seq := images_seq c;
     documents_fts := documents_fts c |}.

(** *** Queries *)

(** TEXT comparison (BINARY collation). *)
Fixpoint str_leb (a b : str) : bool :=
  match a, b with
  | [], _ => true
  | _ :: _, [] => false
  | x :: a', y :: b' => (x <? y) || ((x =? y) && str_leb a' b')
  end.

(** NULL sorts before every TEXT. *)
Definition value_leb (a b : value) : bool :=
  match a, b with
  | None, _ => true
  | Some _, None => false
  | Some x, Some y => str_leb x y
  end.

Fixpoint insert_desc (r : document_row) (sorted : list document_row)
  : list document_row :=
  match sorted with
  | [] => [r]
  | x :: xs =>
      if value_leb (d_created_at x) (d_created_at r) then r :: x :: xs
      else x :: insert_desc r xs
  end.

(** [ORDER BY created_at DESC]; rows with equal keys keep their order. *)
Definition order_by_created_at_desc (rows : list document_row) : list document_row :=
  fold_right insert_desc [] rows.

(** [LIMIT ?]: a negative limit is no limit. *)
Definition sql_limit {A} (limit : Z) (rows : list A) : list A :=
  if (limit <? 0)%Z then rows else firstn (Z.to_nat limit) rows.

(** [OFFSET ?] *)
Definition sql_offset {A} (offset : Z) (rows : list A) : list A :=
  if (offset <? 0)%Z then rows else skipn (Z.to_nat offset) rows.

(** [column = ?] on a TEXT parameter. *)
Definition sql_eq (v : value) (s : str) : bool :=
  match v with
  | Some x => str_eqb x s
  | None => false
  end.

(** [if doc_type and doc_type != "All"] then [WHERE doc_type = ?]. *)
Definition type_filter (doc_type : option str) (d : document_row) : bool :=
  match doc_type with
  | None => true
  | Some t =>
      if negb (str_eqb t []) && negb (str_eqb t (u "All"))
      then sql_eq (d_doc_type d) t
      else true
  end.

Definition get_documents (c : conn) (doc_type : option str) (limit offset : Z)
  : list document_row :=
  sql_limit limit
    (sql_offset offset
       (order_by_created_at_desc (filter (type_filter doc_type) (documents c)))).

Definition get_document (c : conn) (doc_id : str) : option document_row :=
  find (fun d => str_eqb (d_id d) doc_id) (documents c).

(** [ORDER BY id ASC]: the table is kept in increasing [id]. *)
Definition get_images_by_doc (c : conn) (doc_id : str) : list image_row :=
  filter (fun r => str_eqb (i_document_id r) doc_id) (images c).

(** SQLite's [LIKE]: [%] matches any run of characters, [_] any one
    character, every other character itself up to ASCII case. *)
Definition ascii_fold (c : N) : N :=
  if (0x41 <=? c) && (c <=? 0x5A) then c + 32 else c.

Fixpoint sql_like (pat text : str) : bool :=
  match pat with
  | [] => match text with [] => true | _ :: _ => false end
  | p :: pat' =>
      if p =? 0x25 then
        (fix any (t : str) : bool :=
           sql_like pat' t
           || match t with
              | [] => false
              | _ :: t' => any t'
              end) text
      else
        match text with
        | [] => false
        | c :: text' =>
            ((p =? 0x5F) || (ascii_fold p =? ascii_fold c)) && sql_like pat' text'
        end
  end.

(** [column LIKE ?]; NULL is not a match. *)
Definition col_like (v : value) (pat : str) : bool :=
  match v with
  | Some t => sql_like pat t
  | None => false
  end.

Section Search.

(** FTS5's [documents_fts MATCH ?]: a query the FTS5 parser rejects raises
    [sqlite3.OperationalError] ([None]); otherwise it selects rows of the
    index. *)
Variable fts5_match : str -> option (fts_row -> bool).

(** The index-backed path: [None] when it raised OperationalError. *)
Definition search_documents_fts (c : conn) (query : str) (doc_type : option str)
  (limit : Z) : option (list document_row) :=
  let q := strip query in
  match documents_fts c with
  | None => None
  | Some index =>
      match fts5_match q with
      | None => None
      | Some matches =>
          let joined :=
            flat_map
              (fun f =>
                 filter (fun d => str_eqb (d_id d) (f_document_id f)
                                  && type_filter doc_type d)
                        (documents c))
              (filter matches index) in
          Some (sql_limit limit (order_by_created_at_desc joined))
      end
  end.

(** The rows the fallback's WHERE clause selects. *)
Definition like_candidates (c : conn) (query : str) (doc_type : option str)
  : list document_row :=
  let q := strip query in
  let like := u "%" ++ q ++ u "%" in
  filter (fun d => type_filter doc_type d
                   && (sql_like like (d_id d) || col_like (d_title d) like
                       || col_like (d_ocr_text d) like))
         (documents c).

(** The substring-scan fallback path. *)
Definition search_documents_like (c : conn) (query : str) (doc_type : option str)
  (limit : Z) : list document_row :=
  sql_limit limit (order_by_created_at_desc (like_candidates c query doc_type)).

Definition search_documents (c : conn) (query : str) (doc_type : option str)
  (limit : Z) : list document_row :=
  match search_documents_fts c query doc_type limit with
  | Some rows => rows
  | None => search_documents_like c query doc_type limit
  end.

End Search.

End Db.
Import Db.

(** ** [core/ocr_engine.py]

    Confidences are Python floats: IEEE 754 binary64. *)

Module OcrEngine.

Local Open Scope float_scope.

(** One detection [r] of the recognizer: [r[1]] and [r[2]] (the bounding box
    [r[0]] is never read). *)
Record detection := {
  det_text : str;
  det_conf : float
}.

(** The builtin [sum] on floats, accumulating from the left, from 0. *)
Definition sum_left (xs : list float) : float :=
  fold_left PrimFloat.add xs 0.

(** The builtin [sum] on floats as CPython 3.12 and later compute it:
    Neumaier's compensated summation. *)
Definition neumaier_step (st : float * float) (x : float) : float * float :=
  let (f, c) := st in
  let t := f + x in
  if PrimFloat.leb (abs x) (abs f) then (t, c + ((f - t) + x))
  else (t, c + ((x - t) + f)).

Definition is_finite (c : float) : bool :=
  negb (is_nan c) && negb (is_infinity c).

Definition sum_neumaier (xs : list float) : float :=
  let (f, c) := fold_left neumaier_step xs (0, 0) in
  if negb (PrimFloat.eqb c 0) && is_finite c then f + c else f.

(** [float(n)] of a length. *)
Definition float_of_nat (n : nat) : float :=
  PrimFloat.of_uint63 (Uint63.of_Z (Z.of_nat n)).

Section RunEasyocr.

(** A decoded image handed to the recognizer. *)
Variable image : Type.
(** [Image.open], [preprocess_image_pil], [pil_to_cv], [preprocess_image_cv];
    [None] when one of them raises. *)
Variable preprocess : str -> option image.
(** [reader.readtext(..., detail=1)] on a path or on a decoded image; [None]
    when it raises. *)
Variable readtext : str + image -> option (list detection).
(** The interpreter's [sum]. *)
Variable py_sum : list float -> float.

Definition run_easyocr (image_path : str) (enhance : bool) : option (str * float) :=
  if negb enhance then
    match readtext (inl image_path) with
    | None => None
    | Some results =>
        match results with
        | [] => Some ([], 0)
        | _ :: _ =>
            let text := strip (join [0x0A%N] (map det_text results)) in
            let conf := py_sum (map det_conf results)
                        / float_of_nat (Nat.max (length results) 1) in
            Some (text, conf)
        end
    end
  else
    match preprocess image_path with
    | None => None
    | Some cv_img =>
        match readtext (inr cv_img) with
        | None => None
        | Some results =>
            match results with
            | [] => Some ([], 0)
            | _ :: _ =>
                let text := strip (join [0x0A%N] (map det_text results)) in
                let conf := py_sum (map det_conf results)
                            / float_of_nat (Nat.max (length results) 1) in
                Some (text, conf)
            end
        end
    end.

End RunEasyocr.

End OcrEngine.
Import OcrEngine.

(** ** [main.py]: the upload page

    The run of [page_upload] after the form is read.  Besides the database
    it returns the calls made on the store and the exporters, in order. *)

Module Main.

(** One entry of [saved_images]. *)
Record saved_image := {
  s_filename : str;
  s_stored_path : path;
  s_ocr_text : str
}.

Inductive event :=
| EvInsertImage (document_id filename stored_path : str)
| EvUpdateImageOcr (document_id stored_path text : str)
| EvExportWord
| EvExportExcel
| EvUpsertDocument (doc : doc_dict).

Inductive outcome :=
| NotSubmitted
| NoFiles
| WriteRaised
| Completed.

Section PageUpload.

Variable lower_cp : N -> list N.
Variable image : Type.
Variable preprocess : str -> option image.
Variable readtext : str + image -> option (list detection).
Variable py_sum : list float -> float.

Variable UPLOADS_DIR EXPORTS_DIR : path.
(** [out_path.write_bytes(...)]: [false] when it raises. *)
Variable write_bytes : path -> bool.
(** The exporters: [false] when the call raises. *)
Variable export_to_word :
  path -> str -> str -> str -> str -> list saved_image -> bool.
Variable export_to_excel :
  path -> str -> str -> str -> list saved_image -> bool.

(** [for f in files]: save, register. *)
Fixpoint save_images (c : conn) (upload_dir : path) (doc_id : str)
  (files : list str) : conn * list saved_image * list event * bool :=
  match files with
  | [] => (c, [], [], true)
  | name :: rest =>
      let fn := safe_filename name in
      let out_path := joinpath upload_dir fn in
      if write_bytes out_path then
        let c := insert_image c doc_id fn (path_str out_path) None in
        let '(c', saved, evs, ok) := save_images c upload_dir doc_id rest in
        (c',
         {| s_filename := fn; s_stored_path := out_path; s_ocr_text := [] |} :: saved,
         EvInsertImage doc_id fn (path_str out_path) :: evs,
         ok)
      else (c, [], [], false)
  end.

(** [for i, img in enumerate(saved_images, start=1)]: recognize, store the
    text in the entry and in the store, extend [combined_text]. *)
Fixpoint ocr_images (c : conn) (doc_id : str) (enhance : bool)
  (imgs : list saved_image) (combined_text : str)
  : conn * list saved_image * str * list event :=
  match imgs with
  | [] => (c, [], combined_text, [])
  | img :: rest =>
      let text :=
        match run_easyocr image preprocess readtext py_sum
                (path_str (s_stored_path img)) enhance with
        | Some (text, _) => text
        | None => []
        end in
      let img := {| s_filename := s_filename img;
                    s_stored_path := s_stored_path img;
                    s_ocr_text := text |} in
      let c := update_image_ocr c doc_id (path_str (s_stored_path img)) text in
      let combined_text :=
        match text with
        | [] => combined_text
        | _ :: _ =>
            combined_text ++ [0x0A; 0x0A] ++ u "--- " ++ s_filename img
              ++ u " ---" ++ [0x0A] ++ text
        end in
      let '(c', imgs', combined', evs) := ocr_images c doc_id enhance rest combined_text in
      (c', img :: imgs', combined',
       EvUpdateImageOcr doc_id (path_str (s_stored_path img)) text :: evs)
  end.

(** [title or f"Document {doc_id}"] *)
Definition title_or_default (title doc_id : str) : str :=
  match title with
  | [] => u "Document " ++ doc_id
  | _ :: _ => title
  end.

Definition page_upload (c : conn) (submitted : bool) (title : str)
  (enhance run_now : bool) (files : list str) (doc_id created_at : str)
  : conn * list event * outcome :=
  if negb submitted then (c, [], NotSubmitted)
  else
    match files with
    | [] => (c, [], NoFiles)
    | _ :: _ =>
        let upload_dir := doc_upload_dir UPLOADS_DIR doc_id in
        let export_dir := doc_export_dir EXPORTS_DIR doc_id in
        (* Save images first *)
        let '(c, saved_images, evs_save, ok) := save_images c upload_dir doc_id files in
        if negb ok then (c, evs_save, WriteRaised)
        else
          (* OCR *)
          let '(c, saved_images, combined_text, evs_ocr) :=
            if run_now then ocr_images c doc_id enhance saved_images []
            else (c, saved_images, [], []) in
          (* Classify *)
          let doc_type := classify_document lower_cp (Some combined_text) in
          (* Export *)
          let word_path := joinpath export_dir (doc_id ++ u ".docx") in
          let excel_path := joinpath export_dir (doc_id ++ u ".xlsx") in
          let word_ok :=
            export_to_word word_path (title_or_default title doc_id) doc_id
              doc_type created_at saved_images in
          let excel_ok :=
            word_ok && export_to_excel excel_path doc_id doc_type created_at saved_images in
          let evs_export := if word_ok then [EvExportWord; EvExportExcel] else [EvExportWord] in
          let '(word_path, excel_path) :=
            if excel_ok then (Some word_path, Some excel_path) else (None, None) in
          (* Save doc in DB *)
          let doc :=
            {| k_id := doc_id;
               k_title := PyStr (title_or_default title doc_id);
               k_created_at := PyStr created_at;
               k_doc_type := PyStr doc_type;
               k_ocr_text := PyStr combined_text;
               k_word_path :=
                 match word_path with Some p => PyStr (path_str p) | None => PyNone end;
               k_excel_path :=
                 match excel_path with Some p => PyStr (path_str p) | None => PyNone end |} in
          let c := upsert_document c doc in
          (c, evs_save ++ evs_ocr ++ evs_export ++ [EvUpsertDocument doc], Completed)
    end.

End PageUpload.

End Main.
Import Main.

(* ================================================================== *)
(** * Part I, continued. The vocabulary of the statements *)
(* ================================================================== *)

(** ** Whitespace *)

Definition nonspace (c : N) : bool := negb (isspace c).

(** Every whitespace character is U+0020 and is followed by a character
    that is not whitespace, if by any. *)
Fixpoint single_spaced (s : str) : Prop :=
  match s with
  | [] => True
  | a :: s' =>
      (isspace a = true ->
       a = 0x20 /\ match s' with [] => True | b :: _ => isspace b = false end)
      /\ single_spaced s'
  end.

Definition head_nonspace (s : str) : Prop :=
  match s with [] => True | b :: _ => isspace b = false end.

(** The shape of a normalized text: single-spaced, with no leading and no
    trailing whitespace. *)
Definition normal_form (s : str) : Prop :=
  single_spaced s /\ lstrip s = s /\ rstrip s = s.

(** ** The language of a regular expression *)

Inductive matches : regex -> str -> Prop :=
| MEps : matches Eps []
| MCls p c : p c = true -> matches (Cls p) [c]
| MSeq a b s t : matches a s -> matches b t -> matches (Seq a b) (s ++ t)
| MAltL a b s : matches a s -> matches (Alt a b) s
| MAltR a b s : matches b s -> matches (Alt a b) s
| MStarNil a : matches (Star a) []
| MStarApp a s t : matches a s -> matches (Star a) t -> matches (Star a) (s ++ t).

(** ** The money-like pattern, in the specification's words

    A digit run, or one to three digits followed by one or more groups of a
    separator ([.] or [,]) and three digits; then optional whitespace; then
    a currency marker. *)

Definition all_digits (s : str) : Prop := Forall (fun c => isdigit c = true) s.

Definition digit_run (s : str) : Prop := s <> [] /\ all_digits s.

Definition is_group_sep (c : N) : Prop := c = 0x2E \/ c = 0x2C.

Definition sep_cls : N -> bool := fun c => (c =? 0x2E) || (c =? 0x2C).

Inductive thousand_groups : str -> Prop :=
| TG_one sep d1 d2 d3 :
    is_group_sep sep -> all_digits [d1; d2; d3] ->
    thousand_groups [sep; d1; d2; d3]
| TG_more sep d1 d2 d3 g :
    is_group_sep sep -> all_digits [d1; d2; d3] -> thousand_groups g ->
    thousand_groups (sep :: d1 :: d2 :: d3 :: g).

Definition grouped_number (s : str) : Prop :=
  exists h g, s = h ++ g /\ digit_run h /\ (length h <= 3)%nat /\ thousand_groups g.

Definition money_like_string (m : str) : Prop :=
  exists num ws cur,
    m = num ++ ws ++ cur
    /\ (grouped_number num \/ digit_run num)
    /\ Forall (fun c => isspace c = true) ws
    /\ In cur currency_markers.

Definition contains_money_like (t : str) : Prop :=
  exists pre m post, t = pre ++ m ++ post /\ money_like_string m.

(** ** File names *)

Definition filename_chars (s : str) : Prop :=
  Forall (fun c => is_filename_char c = true) s.

(** ** Runs of the upload page *)

(** The calls that register an image or store its text. *)
Definition image_event (e : event) : Prop :=
  match e with
  | EvInsertImage _ _ _ | EvUpdateImageOcr _ _ _ => True
  | _ => False
  end.

Section UploadOutcome.

Variable lower_cp : N -> list N.
Variable EXPORTS_DIR : path.
Variable export_to_word :
  path -> str -> str -> str -> str -> list saved_image -> bool.
Variable export_to_excel :
  path -> str -> str -> str -> list saved_image -> bool.

(** What a completed run leaves: the store calls for the images, then the
    export attempt (the Excel exporter runs only when the Word exporter
    returned), then one upsert of the Document, whose export paths are set
    when both exporters returned and are [None] when one of them raised;
    and the Document is in the store with these paths. *)
Definition exported_then_persisted (title doc_id created_at : str)
  (c' : conn) (trace : list event) : Prop :=
  exists (evs : list event) (saved_images : list saved_image) (combined_text : str),
    let doc_type := classify_document lower_cp (Some combined_text) in
    let export_dir := doc_export_dir EXPORTS_DIR doc_id in
    let word_path := joinpath export_dir (doc_id ++ u ".docx") in
    let excel_path := joinpath export_dir (doc_id ++ u ".xlsx") in
    let word_ok :=
      export_to_word word_path (title_or_default title doc_id) doc_id doc_type
        created_at saved_images in
    let excel_ok :=
      export_to_excel excel_path doc_id doc_type created_at saved_images in
    let exported := word_ok && excel_ok in
    let doc :=
      {| k_id := doc_id;
         k_title := PyStr (title_or_default title doc_id);
         k_created_at := PyStr created_at;
         k_doc_type := PyStr doc_type;
         k_ocr_text := PyStr combined_text;
         k_word_path := if exported then PyStr (path_str word_path) else PyNone;
         k_excel_path := if exported then PyStr (path_str excel_path) else PyNone |} in
    Forall image_event evs
    /\ trace = evs ++ (if word_ok then [EvExportWord; EvExportExcel] else [EvExportWord])
                   ++ [EvUpsertDocument doc]
    /\ option_map (fun d => (d_word_path d, d_excel_path d)) (get_document c' doc_id)
       = Some (if exported then (Some (path_str word_path), Some (path_str excel_path))
               else (None, None)).

End UploadOutcome.

(** ** Example data *)

(** A store with one Document, its image and its index entry. *)
Definition example_store : conn :=
  {| documents :=
       [ {| d_id := u "a1b2c3d4e5f6";
            d_title := Some (u "Document a1b2c3d4e5f6");
            d_created_at := Some (u "2024-01-01T00:00:00");
            d_doc_type := Some (u "Invoice");
            d_ocr_text := Some (u "hóa đơn 500000 vnd");
            d_word_path := None;
            d_excel_path := None |} ];
     images :=
       [ {| i_id := 1; i_document_id := u "a1b2c3d4e5f6";
            i_filename := u "scan.png";
            i_stored_path := u "/data/uploads/a1b2c3d4e5f6/scan.png";
            i_ocr_text := None |} ];
     images_seq := 1;
     documents_fts :=
       Some [ {| f_document_id := u "a1b2c3d4e5f6";
                 f_title := Some (u "Document a1b2c3d4e5f6");
                 f_doc_type := Some (u "Invoice");
                 f_ocr_text := Some (u "hóa đơn 500000 vnd") |} ] |}.

Definition example_payload (id created_at : string) : doc_dict :=
  {| k_id := u id;
     k_title := PyStr (u "Document");
     k_created_at := PyStr (u created_at);
     k_doc_type := PyStr (u "Normal");
     k_ocr_text := PyStr [];
     k_word_path := PyNone;
     k_excel_path := PyNone |}.

(** A stand-in for FTS5's [MATCH] in the examples: the query occurs in the
    normalized text column of the index row. *)
Definition substring_match (q : str) : option (fts_row -> bool) :=
  Some (fun f =>
          match f_ocr_text f with
          | Some t => str_in q (normalize_text vi_lower_cp (Some t))
          | None => false
          end).

(** The double nearest to 0.9: Python's [0.9]. *)
Definition conf_0_9 : float := 0x1.ccccccccccccdp-1%float.

(** A recognizer that returns the same detections for every input. *)
Definition scripted_reader (results : list detection) :
  str + unit -> option (list detection) :=
  fun _ => Some results.

(** Four detections, in two orders. *)
Definition spans_in_order : list detection :=
  [ {| det_text := u "a"; det_conf := 1%float |};
    {| det_text := u "b"; det_conf := 0x1p-53%float |};
    {| det_text := u "c"; det_conf := 0x1.8p-107%float |};
    {| det_text := u "d"; det_conf := 0x1.8p-107%float |} ].

Definition spans_permuted : list detection :=
  [ {| det_text := u "c"; det_conf := 0x1.8p-107%float |};
    {| det_text := u "d"; det_conf := 0x1.8p-107%float |};
    {| det_text := u "b"; det_conf := 0x1p-53%float |};
    {| det_text := u "a"; det_conf := 1%float |} ].

(** The confidence [run_easyocr] returns on the raw image when the
    recognizer returns [results] and the interpreter sums with [py_sum]. *)
Definition confidence_of (py_sum : list float -> float) (results : list detection)
  : option float :=
  option_map snd
    (run_easyocr unit (fun _ => Some tt) (scripted_reader results) py_sum
       (u "/data/uploads/a1b2c3d4e5f6/scan.png") false).

Definition empty_store : conn :=
  {| documents := []; images := []; images_seq := 0; documents_fts := Some [] |}.

(** A run of the upload page on one image, recognized as "ABC"; the
    exporters return, or raise. *)
Definition example_upload (exporters_return : bool) : conn * list event * outcome :=
  page_upload vi_lower_cp unit (fun _ => Some tt)
    (scripted_reader [ {| det_text := u "ABC"; det_conf := conf_0_9 |} ])
    sum_left
    [u "data"; u "uploads"] [u "data"; u "exports"]
    (fun _ => true)
    (fun _ _ _ _ _ _ => exporters_return)
    (fun _ _ _ _ _ => exporters_return)
    empty_store true [] true true [u "scan 1.png"]
    (u "a1b2c3d4e5f6") (u "2024-01-01T00:00:00").

Definition example_document (paths_set : bool) : doc_dict :=
  {| k_id := u "a1b2c3d4e5f6";
     k_title := PyStr (u "Document a1b2c3d4e5f6");
     k_created_at := PyStr (u "2024-01-01T00:00:00");
     k_doc_type := PyStr (u "Normal");
     k_ocr_text := PyStr ([0x0A; 0x0A] ++ u "--- scan_1.png ---" ++ [0x0A] ++ u "ABC");
     k_word_path :=
       if paths_set then PyStr (u "/data/exports/a1b2c3d4e5f6/a1b2c3d4e5f6.docx")
       else PyNone;
     k_excel_path :=
       if paths_set then PyStr (u "/data/exports/a1b2c3d4e5f6/a1b2c3d4e5f6.xlsx")
       else PyNone |}.

Definition example_image_events : list event :=
  [ EvInsertImage (u "a1b2c3d4e5f6") (u "scan_1.png")
      (u "/data/uploads/a1b2c3d4e5f6/scan_1.png");
    EvUpdateImageOcr (u "a1b2c3d4e5f6")
      (u "/data/uploads/a1b2c3d4e5f6/scan_1.png") (u "ABC") ].

(** ** Tactics *)

Ltac bool_prop_in H :=
  first [ rewrite andb_true_iff in H | rewrite orb_true_iff in H
        | rewrite andb_false_iff in H | rewrite orb_false_iff in H
        | rewrite negb_true_iff in H | rewrite negb_false_iff in H
        | rewrite N.leb_le in H | rewrite N.leb_gt in H
        | rewrite N.eqb_eq in H | rewrite N.eqb_neq in H ].

Ltac bool_prop_goal :=
  first [ rewrite andb_true_iff | rewrite orb_true_iff
        | rewrite andb_false_iff | rewrite orb_false_iff
        | rewrite negb_true_iff | rewrite negb_false_iff
        | rewrite N.leb_le | rewrite N.leb_gt
        | rewrite N.eqb_eq | rewrite N.eqb_neq ].

(** Comparisons on code points, read as arithmetic. *)
Ltac bool_arith :=
  repeat match goal with H : _ |- _ => bool_prop_in H end;
  repeat bool_prop_goal;
  try lia.

(* ================================================================== *)
(** * Part I, continued. More of the code *)
(* ================================================================== *)

(** ** [core/storage.py]: [new_doc_id]

    [uuid.uuid4().hex[:12]], from the 32 hexadecimal digits of the UUID. *)

Definition new_doc_id (uuid_hex : str) : str := firstn 12 uuid_hex.

(** ** [core/db.py]: [search_images], [stats_count_by_type] *)

Fixpoint insert_by_id_desc (r : image_row) (sorted : list image_row)
  : list image_row :=
  match sorted with
  | [] => [r]
  | x :: xs =>
      if i_id x <=? i_id r then r :: x :: xs
      else x :: insert_by_id_desc r xs
  end.

(** [ORDER BY id DESC] *)
Definition order_by_id_desc (rows : list image_row) : list image_row :=
  fold_right insert_by_id_desc [] rows.

Definition search_images (c : conn) (query : str) (limit : Z) : list image_row :=
  let q := strip query in
  let like := u "%" ++ q ++ u "%" in
  sql_limit limit
    (order_by_id_desc
       (filter (fun r => sql_like like (i_filename r) || col_like (i_ocr_text r) like)
               (images c))).

Definition value_eqb (a b : value) : bool :=
  match a, b with
  | None, None => true
  | Some x, Some y => str_eqb x y
  | _, _ => false
  end.

(** One more row in the group of its [doc_type]. *)
Fixpoint count_in_group (v : value) (groups : list (value * nat))
  : list (value * nat) :=
  match groups with
  | [] => [(v, 1%nat)]
  | (w, n) :: gs =>
      if value_eqb w v then (w, S n) :: gs
      else (w, n) :: count_in_group v gs
  end.

(** [COUNT( * ) ... GROUP BY doc_type]: NULL is a group of its own. *)
Definition group_by_doc_type (docs : list document_row) : list (value * nat) :=
  fold_left (fun groups d => count_in_group (d_doc_type d) groups) docs [].

Fixpoint insert_by_count_desc (g : value * nat) (sorted : list (value * nat))
  : list (value * nat) :=
  match sorted with
  | [] => [g]
  | x :: xs =>
      if (snd x <=? snd g)%nat then g :: x :: xs
      else x :: insert_by_count_desc g xs
  end.

(** [ORDER BY cnt DESC]; groups with equal counts keep their order. *)
Definition order_by_count_desc (groups : list (value * nat)) : list (value * nat) :=
  fold_right insert_by_count_desc [] groups.

(** [COALESCE(doc_type, 'Unknown')] *)
Definition coalesce_unknown (v : value) : str :=
  match v with
  | Some t => t
  | None => u "Unknown"
  end.

Definition stats_count_by_type (c : conn) : list (str * nat) :=
  map (fun g => (coalesce_unknown (fst g), snd g))
      (order_by_count_desc (group_by_doc_type (documents c))).

(** ** [main.py]: the library, search and statistics pages *)

(** [f"{v}"] of a column value: NULL reads [None]. *)
Definition format_value (v : value) : str :=
  match v with
  | Some s => s
  | None => u "None"
  end.

(** The picker's option for a document:
    [f"{d['id']} | {d['doc_type']} | {d['title']}"]. *)
Definition picker_option (d : document_row) : str :=
  d_id d ++ u " | " ++ format_value (d_doc_type d) ++ u " | "
    ++ format_value (d_title d).

(** [s.split("|")[0]] *)
Fixpoint before_bar (s : str) : str :=
  match s with
  | [] => []
  | c :: s' => if c =? 0x7C then [] else c :: before_bar s'
  end.

(** [page_library], from the picked option on: the id is read back off the
    option and looked up; [None] is the "Document not found." error. *)
Definition page_library_lookup (c : conn) (pick : str) : option document_row :=
  let doc_id := strip (before_bar pick) in
  get_document c doc_id.

(** The options the picker shows: [get_documents(conn, doc_type, limit=200)]. *)
Definition page_library_options (c : conn) (doc_type : str) : list str :=
  map picker_option (get_documents c (Some doc_type) 200 0).

(** [page_stats]: [None] when there is nothing to show ("No data yet."),
    else the total, [sum(cnt for _, cnt in stats)]. *)
Definition page_stats_total (c : conn) : option nat :=
  match stats_count_by_type c with
  | [] => None
  | stats => Some (list_sum (map snd stats))
  end.

Section PageSearch.

Variable fts5_match : str -> option (fts_row -> bool).

(** The "Search Documents" button: a blank query is refused with a warning
    ([None]); otherwise the stripped query is searched, 100 rows at most. *)
Definition page_search_documents (c : conn) (q doc_type : str)
  : option (list document_row) :=
  match strip q with
  | [] => None
  | _ :: _ => Some (search_documents fts5_match c (strip q) (Some doc_type) 100)
  end.

End PageSearch.

(** The "Search Images" button. *)
Definition page_search_images (c : conn) (q2 : str) : option (list image_row) :=
  match strip q2 with
  | [] => None
  | _ :: _ => Some (search_images c (strip q2) 200)
  end.

(** ** The vocabulary of the further properties *)

Definition is_hex_digit (c : N) : bool :=
  ((0x30 <=? c) && (c <=? 0x39)) || ((0x61 <=? c) && (c <=? 0x66)).

(** The three labels of the classifier. *)
Definition doc_type_labels : list str :=
  [u "Invoice"; u "Government Telegram"; u "Normal"].

(** Case folding of ASCII letters, on a whole text. *)
Definition ascii_fold_str (s : str) : str := map ascii_fold s.

(** The stored images are in increasing [id], and no [id] is above the
    AUTOINCREMENT counter. *)
Definition image_ids_ok (c : conn) : Prop :=
  StronglySorted N.lt (map i_id (images c))
  /\ Forall (fun r => i_id r <= images_seq c) (images c).

(** [UPDATE images SET ocr_text = ?] on one row. *)
Definition set_ocr_text (r : image_row) (text : str) : image_row :=
  {| i_id := i_id r; i_document_id := i_document_id r;
     i_filename := i_filename r; i_stored_path := i_stored_path r;
     i_ocr_text := Some text |}.

(** The row is one that [WHERE document_id = ? AND stored_path = ?]
    selects. *)
Definition image_key_is (document_id stored_path : str) (r : image_row) : bool :=
  str_eqb (i_document_id r) document_id && str_eqb (i_stored_path r) stored_path.

(** Every Document id is stored once, and the index, when there is one,
    holds exactly one entry for each Document. *)
Definition index_mirrors_documents (c : conn) : Prop :=
  NoDup (map d_id (documents c))
  /\ forall index,
       documents_fts c = Some index ->
       NoDup (map f_document_id index)
       /\ forall id, In id (map f_document_id index) <-> In id (map d_id (documents c)).

(** The store calls of a run, by kind. *)
Definition is_insert_event (e : event) : bool :=
  match e with EvInsertImage _ _ _ => true | _ => false end.

Definition is_update_event (e : event) : bool :=
  match e with EvUpdateImageOcr _ _ _ => true | _ => false end.

(** ** Insertion into a list kept in descending order

    The shape of the three [ORDER BY ... DESC] above: [r] goes before the
    first row that is not above it. *)

Section InsertDesc.

Variable A : Type.
Variable leb : A -> A -> bool.

Fixpoint insert_before (r : A) (sorted : list A) : list A :=
  match sorted with
  | [] => [r]
  | x :: xs => if leb x r then r :: x :: xs else x :: insert_before r xs
  end.

(** Every row is followed only by rows that are not above it. *)
Definition descending (l : list A) : Prop :=
  StronglySorted (fun a b => leb b a = true) l.

End InsertDesc.

Arguments insert_before {A}.
Arguments descending {A}.

Definition created_at_leb (x r : document_row) : bool :=
  value_leb (d_created_at x) (d_created_at r).

Definition image_id_leb (x r : image_row) : bool := i_id x <=? i_id r.

Definition count_leb (x g : value * nat) : bool := (snd x <=? snd g)%nat.

(** The rows of one [doc_type] (NULL or a text). *)
Definition rows_of_type (v : value) (docs : list document_row) : list document_row :=
  filter (fun d => value_eqb (d_doc_type d) v) docs.

(** The count the groups hold for one [doc_type]; 0 when it has no group. *)
Definition count_of (v : value) (groups : list (value * nat)) : nat :=
  match find (fun g => value_eqb (fst g) v) groups with
  | Some g => snd g
  | None => 0%nat
  end.

(** ** The vocabulary of the upload page's properties *)

(** The rows [insert_image] adds for the uploads [names], in order, from
    the counter [seq] on. *)
Fixpoint image_rows (seq : N) (doc_id : str) (upload_dir : path)
  (names : list str) : list image_row :=
  match names with
  | [] => []
  | name :: rest =>
      {| i_id := seq + 1; i_document_id := doc_id;
         i_filename := safe_filename name;
         i_stored_path := path_str (joinpath upload_dir (safe_filename name));
         i_ocr_text := None |}
      :: image_rows (seq + 1) doc_id upload_dir rest
  end.

(** The uploads before the first one whose file cannot be written. *)
Fixpoint written_prefix (write_bytes : path -> bool) (upload_dir : path)
  (names : list str) : list str :=
  match names with
  | [] => []
  | name :: rest =>
      if write_bytes (joinpath upload_dir (safe_filename name))
      then name :: written_prefix write_bytes upload_dir rest
      else []
  end.

(** An image row without its text. *)
Definition image_location (r : image_row) : N * str * str * str :=
  (i_id r, i_document_id r, i_filename r, i_stored_path r).

(** What an image adds to the Document's text. *)
Definition text_section (img : saved_image) : str :=
  match s_ocr_text img with
  | [] => []
  | _ :: _ =>
      [0x0A; 0x0A] ++ u "--- " ++ s_filename img ++ u " ---" ++ [0x0A]
        ++ s_ocr_text img
  end.

Ltac split_conj := repeat match goal with |- _ /\ _ => split end.

(* ================================================================== *)
(** * Part II. Properties *)
(* ================================================================== *)

(** ** Strings *)

Lemma str_eqb_eq (a b : str) : str_eqb a b = true <-> a = b.
Proof.
  unfold str_eqb. destruct (list_eq_dec N.eq_dec a b); split; congruence.
Qed.

Lemma str_eqb_refl (a : str) : str_eqb a a = true.
Proof. now apply str_eqb_eq. Qed.

Lemma str_eqb_neq (a b : str) : str_eqb a b = false <-> a <> b.
Proof.
  unfold str_eqb. destruct (list_eq_dec N.eq_dec a b); split; congruence.
Qed.

Lemma startswith_iff (s k : str) :
  startswith s k = true <-> exists post, s = k ++ post.
Proof.
  revert s. induction k as [|a k IH]; intros s; simpl.
  - split; eauto.
  - destruct s as [|b s].
    + split; [discriminate | intros [post H]; discriminate].
    + rewrite andb_true_iff, N.eqb_eq, IH. split.
      * intros [-> [post ->]]. now exists post.
      * intros [post H]. injection H as -> ->. eauto.
Qed.

Lemma str_in_iff (k s : str) :
  str_in k s = true <-> exists pre post, s = pre ++ k ++ post.
Proof.
  induction s as [|c s IH]; simpl.
  - rewrite orb_false_r, startswith_iff. split.
    + intros [post H]. now exists [], post.
    + intros [pre [post H]]. destruct pre; simpl in H.
      * eauto.
      * discriminate.
  - rewrite orb_true_iff, startswith_iff, IH. split.
    + intros [[post H] | [pre [post H]]].
      * now exists [], post.
      * exists (c :: pre), post. simpl. now rewrite H.
    + intros [pre [post H]]. destruct pre as [|c' pre]; simpl in H.
      * left. eauto.
      * right. injection H as _ ->. eauto.
Qed.

Lemma lstrip_head (s : str) :
  lstrip s = [] \/ exists h r, lstrip s = h :: r /\ isspace h = false.
Proof.
  induction s as [|c s IH]; simpl; auto.
  destruct (isspace c) eqn:E; auto. right. eauto.
Qed.

Lemma lstrip_fixed (h : N) (r : str) :
  isspace h = false -> lstrip (h :: r) = h :: r.
Proof. intros H. simpl. now rewrite H. Qed.

Lemma rstrip_cons_nonspace (h : N) (s : str) :
  isspace h = false -> rstrip (h :: s) = h :: rstrip s.
Proof. intros H. simpl. rewrite H. now destruct (rstrip s). Qed.

Lemma rstrip_cons_nonempty (h : N) (s : str) :
  rstrip s <> [] -> rstrip (h :: s) = h :: rstrip s.
Proof. intros H. simpl. destruct (rstrip s); congruence. Qed.

Lemma rstrip_app_nonspace (w t : str) :
  forallb (fun d => negb (isspace d)) w = true -> rstrip (w ++ t) = w ++ rstrip t.
Proof.
  induction w as [|a w IH]; intros H; [reflexivity|].
  simpl in H. apply andb_true_iff in H as [Ha Hw]. apply negb_true_iff in Ha.
  change ((a :: w) ++ t) with (a :: (w ++ t)).
  rewrite rstrip_cons_nonspace by assumption. now rewrite IH.
Qed.

Lemma rstrip_idem (s : str) : rstrip (rstrip s) = rstrip s.
Proof.
  induction s as [|c s IH]; [reflexivity|].
  destruct (rstrip s) as [|a r] eqn:E.
  - simpl. rewrite E. destruct (isspace c) eqn:Ec; [reflexivity|].
    simpl. now rewrite Ec.
  - rewrite rstrip_cons_nonempty by congruence. rewrite E.
    rewrite rstrip_cons_nonempty by (rewrite IH; congruence). now rewrite IH.
Qed.

Lemma sub_runs_single_spaced (b : bool) (s : str) :
  single_spaced (sub_runs_from isspace (u " ") b s)
  /\ (b = true -> head_nonspace (sub_runs_from isspace (u " ") b s)).
Proof.
  revert b. induction s as [|c s IH]; intros b; simpl; [auto|].
  destruct (isspace c) eqn:Ec.
  - destruct b.
    + apply IH.
    + destruct (IH true) as [H1 H2]. split; [|discriminate].
      change (u " " ++ sub_runs_from isspace (u " ") true s)
        with (0x20 :: sub_runs_from isspace (u " ") true s).
      simpl. split; [|exact H1]. intros _. split; [reflexivity|].
      now apply H2.
  - destruct (IH false) as [H1 _]. simpl. rewrite Ec. split.
    + split; [discriminate | exact H1].
    + reflexivity.
Qed.

Lemma sub_runs_fixed (b : bool) (s : str) :
  single_spaced s -> (b = true -> head_nonspace s) ->
  sub_runs_from isspace (u " ") b s = s.
Proof.
  revert b. induction s as [|c s IH]; intros b Hs Hb; [reflexivity|].
  simpl in *. destruct Hs as [Hc Hs]. destruct (isspace c) eqn:Ec.
  - destruct b; [specialize (Hb eq_refl); congruence|].
    destruct (Hc eq_refl) as [-> Hn].
    change (u " " ++ sub_runs_from isspace (u " ") true s)
      with (0x20 :: sub_runs_from isspace (u " ") true s).
    f_equal. apply IH; [exact Hs | intros _; exact Hn].
  - f_equal. apply IH; [exact Hs | discriminate].
Qed.

Lemma single_spaced_lstrip (s : str) : single_spaced s -> single_spaced (lstrip s).
Proof.
  induction s as [|c s IH]; intros H; [exact I|].
  simpl. destruct (isspace c); [apply IH, H | exact H].
Qed.

Lemma rstrip_head (b a : N) (s r : str) : rstrip (b :: s) = a :: r -> a = b.
Proof.
  simpl. destruct (rstrip s); [destruct (isspace b)|]; congruence.
Qed.

Lemma single_spaced_rstrip (s : str) : single_spaced s -> single_spaced (rstrip s).
Proof.
  induction s as [|c s IH]; intros H; [exact I|].
  destruct H as [Hc Hs]. specialize (IH Hs).
  destruct (rstrip s) as [|a r] eqn:E.
  - simpl. rewrite E. destruct (isspace c) eqn:Ec; [exact I|].
    simpl. split; [congruence | exact I].
  - rewrite rstrip_cons_nonempty by congruence. rewrite E.
    simpl. split; [|exact IH]. intros Ec. destruct (Hc Ec) as [-> Hn].
    split; [reflexivity|]. destruct s as [|b s']; [discriminate|].
    now rewrite (rstrip_head _ _ _ _ E).
Qed.

Lemma strip_collapse_normal_form (s : str) :
  normal_form (strip (re_sub_runs isspace (u " ") s)).
Proof.
  unfold strip, re_sub_runs.
  set (t := sub_runs_from isspace (u " ") false s).
  assert (Ht : single_spaced t) by apply sub_runs_single_spaced.
  repeat split.
  - now apply single_spaced_rstrip, single_spaced_lstrip.
  - destruct (lstrip_head t) as [-> | [h [r [-> Hh]]]]; [reflexivity|].
    rewrite rstrip_cons_nonspace by exact Hh. now apply lstrip_fixed.
  - apply rstrip_idem.
Qed.

Lemma normal_form_fixed (s : str) :
  normal_form s -> strip (re_sub_runs isspace (u " ") s) = s.
Proof.
  intros [H1 [H2 H3]]. unfold strip, re_sub_runs.
  rewrite sub_runs_fixed by (auto; discriminate). now rewrite H2.
Qed.

Lemma nonspace_of_space (c : N) : isspace c = true -> nonspace c = false.
Proof. unfold nonspace. now intros ->. Qed.

Lemma nonspace_of_nonspace (c : N) : isspace c = false -> nonspace c = true.
Proof. unfold nonspace. now intros ->. Qed.

(** ** Words *)

Lemma words_space (c : N) (s : str) : isspace c = true -> words (c :: s) = words s.
Proof. intros H. simpl. now rewrite H. Qed.

Lemma words_nonspace_space (c c' : N) (s : str) :
  isspace c = false -> isspace c' = true ->
  words (c :: c' :: s) = [c] :: words (c' :: s).
Proof. intros H H'. cbn [words]. now rewrite H, H'. Qed.

Lemma words_nonspace_nonspace (c c' : N) (s : str) :
  isspace c = false -> isspace c' = false ->
  words (c :: c' :: s)
  = match words (c' :: s) with
    | w :: ws => (c :: w) :: ws
    | [] => [[c]]
    end.
Proof. intros H H'. cbn [words]. now rewrite H, H'. Qed.

Lemma words_lstrip (s : str) : words (lstrip s) = words s.
Proof.
  induction s as [|c s IH]; [reflexivity|].
  simpl lstrip. destruct (isspace c) eqn:Ec; [|reflexivity].
  now rewrite words_space.
Qed.

Lemma rstrip_nil_head (c : N) (s : str) : rstrip (c :: s) = [] -> isspace c = true.
Proof.
  simpl. destruct (rstrip s); [|discriminate]. now destruct (isspace c).
Qed.

Lemma words_rstrip (s : str) : words (rstrip s) = words s.
Proof.
  induction s as [|c s IH]; [reflexivity|].
  destruct (rstrip s) as [|a r] eqn:E.
  - simpl rstrip. rewrite E. destruct (isspace c) eqn:Ec.
    + rewrite words_space by exact Ec. exact IH.
    + destruct s as [|c' s']; [reflexivity|].
      assert (Hc' : isspace c' = true) by (now apply (rstrip_nil_head c' s')).
      rewrite words_nonspace_space by assumption. rewrite <- IH.
      simpl. now rewrite Ec.
  - rewrite rstrip_cons_nonempty by congruence. rewrite E.
    destruct (isspace c) eqn:Ec.
    + rewrite (words_space c (a :: r)), (words_space c s) by exact Ec. exact IH.
    + destruct s as [|c' s']; [discriminate|].
      pose proof (rstrip_head _ _ _ _ E) as ->.
      destruct (isspace c') eqn:Ec'.
      * rewrite !words_nonspace_space by assumption. now rewrite IH.
      * rewrite !words_nonspace_nonspace by assumption. now rewrite IH.
Qed.

Lemma words_sub_runs (b : bool) (s : str) :
  words (sub_runs_from isspace (u " ") b s) = words s.
Proof.
  revert b. induction s as [|c s IH]; intros b; [reflexivity|].
  simpl sub_runs_from. destruct (isspace c) eqn:Ec.
  - rewrite (words_space c) by exact Ec. destruct b; [apply IH|].
    change (u " " ++ ?x) with (0x20 :: x). rewrite words_space by reflexivity. apply IH.
  - destruct s as [|c' s']; [reflexivity|].
    specialize (IH false). simpl sub_runs_from in *. destruct (isspace c') eqn:Ec'.
    + change (u " " ++ ?x) with (0x20 :: x) in *.
      rewrite !words_nonspace_space by (auto; reflexivity). now rewrite IH.
    + rewrite !words_nonspace_nonspace by assumption. now rewrite IH.
Qed.

Lemma join_cons_head (c : N) (w : str) (ws : list str) :
  join (u " ") ((c :: w) :: ws) = c :: join (u " ") (w :: ws).
Proof. destruct ws; reflexivity. Qed.

Lemma rstrip_fixed_tail (c : N) (s : str) : rstrip (c :: s) = c :: s -> rstrip s = s.
Proof.
  simpl. destruct (rstrip s) as [|a r] eqn:E.
  - destruct (isspace c); [discriminate|]. now intros [= <-].
  - now intros [= <-].
Qed.

Lemma words_nonempty (c : N) (s : str) : isspace c = false -> words (c :: s) <> [].
Proof.
  intros H. destruct s as [|c' s]; [simpl; now rewrite H|].
  destruct (isspace c') eqn:E.
  - now rewrite words_nonspace_space.
  - rewrite words_nonspace_nonspace by assumption. now destruct (words (c' :: s)).
Qed.

(** A single-spaced text with no trailing whitespace is, after its leading
    space if any, its words joined by single spaces. *)
Lemma single_spaced_join_words (r : str) :
  single_spaced r -> rstrip r = r -> join (u " ") (words r) = lstrip r.
Proof.
  induction r as [|c r IH]; intros Hs Hr; [reflexivity|].
  destruct Hs as [Hc Hs]. pose proof (rstrip_fixed_tail c r Hr) as Hr'.
  specialize (IH Hs Hr'). destruct (isspace c) eqn:Ec.
  - rewrite words_space by exact Ec. simpl lstrip. now rewrite Ec.
  - rewrite lstrip_fixed by exact Ec.
    destruct r as [|c' r']; [simpl; now rewrite Ec|].
    destruct (isspace c') eqn:Ec'.
    + rewrite words_nonspace_space by assumption.
      destruct Hs as [Hc' Hs']. destruct (Hc' Ec') as [-> Hn].
      destruct r' as [|c'' r''].
      { simpl in Hr'. discriminate. }
      simpl in Hn. rewrite words_space in * by reflexivity.
      simpl lstrip in IH. rewrite Hn in IH.
      pose proof (words_nonempty c'' r'' Hn) as Hne.
      destruct (words (c'' :: r'')) as [|w ws]; [congruence|].
      change (join (u " ") ([c] :: w :: ws))
        with (c :: 0x20 :: join (u " ") (w :: ws)).
      now rewrite IH.
    + rewrite words_nonspace_nonspace by assumption.
      pose proof (words_nonempty c' r' Ec') as Hne.
      rewrite lstrip_fixed in IH by exact Ec'.
      destruct (words (c' :: r')) as [|w ws]; [congruence|].
      now rewrite join_cons_head, IH.
Qed.

(** [strip(re.sub(r"\s+", " ", s))] is [" ".join(s.split())]. *)
Lemma strip_collapse_join_words (s : str) :
  strip (re_sub_runs isspace (u " ") s) = join (u " ") (words s).
Proof.
  destruct (strip_collapse_normal_form s) as [H1 [H2 H3]].
  rewrite <- H2 at 1. rewrite <- (single_spaced_join_words _ H1 H3).
  unfold strip, re_sub_runs. now rewrite words_rstrip, words_lstrip, words_sub_runs.
Qed.

(** ** [normalize_text] *)

Section NormalizerProps.

Variable lower_cp : N -> list N.

(** What the proofs use of the interpreter's lower-case mapping: lowering
    a lowered character changes nothing; whitespace is left alone; a
    character that is not whitespace maps to one or more characters that
    are not whitespace. *)
Hypothesis lower_cp_idem : forall c, lower lower_cp (lower_cp c) = lower_cp c.
Hypothesis lower_cp_space : forall c, isspace c = true -> lower_cp c = [c].
Hypothesis lower_cp_nonspace :
  forall c, isspace c = false ->
            lower_cp c <> [] /\ forallb nonspace (lower_cp c) = true.

Lemma lower_app (a b : str) :
  lower lower_cp (a ++ b) = lower lower_cp a ++ lower lower_cp b.
Proof. apply flat_map_app. Qed.

Lemma lower_idem (s : str) : lower lower_cp (lower lower_cp s) = lower lower_cp s.
Proof.
  induction s as [|c s IH]; [reflexivity|].
  change (lower lower_cp (c :: s)) with (lower_cp c ++ lower lower_cp s).
  now rewrite lower_app, lower_cp_idem, IH.
Qed.

Lemma lower_nil_inv (s : str) : lower lower_cp s = [] -> s = [].
Proof.
  destruct s as [|c s]; [reflexivity|].
  change (lower lower_cp (c :: s)) with (lower_cp c ++ lower lower_cp s).
  intros H. apply app_eq_nil in H as [H _].
  destruct (isspace c) eqn:Ec.
  - rewrite lower_cp_space in H by assumption. discriminate.
  - now destruct (lower_cp_nonspace c Ec).
Qed.

Lemma sub_runs_app_nonspace (b : bool) (w t : str) :
  w <> [] -> forallb nonspace w = true ->
  sub_runs_from isspace (u " ") b (w ++ t)
  = w ++ sub_runs_from isspace (u " ") false t.
Proof.
  revert b. induction w as [|a w IH]; intros b Hne Hw; [congruence|].
  simpl in Hw. apply andb_true_iff in Hw as [Ha Hw].
  apply negb_true_iff in Ha. simpl. rewrite Ha. f_equal.
  destruct w as [|a' w']; [reflexivity|]. now apply IH.
Qed.

Lemma lower_sub_runs (b : bool) (s : str) :
  lower lower_cp (sub_runs_from isspace (u " ") b s)
  = sub_runs_from isspace (u " ") b (lower lower_cp s).
Proof.
  revert b. induction s as [|c s IH]; intros b; [reflexivity|].
  change (lower lower_cp (c :: s)) with (lower_cp c ++ lower lower_cp s).
  simpl. destruct (isspace c) eqn:Ec.
  - rewrite (lower_cp_space c Ec). simpl. rewrite Ec. destruct b.
    + apply IH.
    + change (lower lower_cp (0x20 :: ?x)) with (lower_cp 0x20 ++ lower lower_cp x).
      rewrite (lower_cp_space 0x20) by reflexivity. simpl. f_equal. apply IH.
  - destruct (lower_cp_nonspace c Ec) as [Hne Hw].
    rewrite sub_runs_app_nonspace by assumption.
    change (lower lower_cp (c :: ?x)) with (lower_cp c ++ lower lower_cp x).
    now rewrite IH.
Qed.

Lemma lower_lstrip (s : str) :
  lower lower_cp (lstrip s) = lstrip (lower lower_cp s).
Proof.
  induction s as [|c s IH]; [reflexivity|].
  change (lower lower_cp (c :: s)) with (lower_cp c ++ lower lower_cp s).
  simpl. destruct (isspace c) eqn:Ec.
  - rewrite (lower_cp_space c Ec). simpl. now rewrite Ec.
  - destruct (lower_cp_nonspace c Ec) as [Hne Hw].
    change (lower lower_cp (c :: s)) with (lower_cp c ++ lower lower_cp s).
    destruct (lower_cp c) as [|h w]; [congruence|].
    simpl in Hw. apply andb_true_iff in Hw as [Hh _]. apply negb_true_iff in Hh.
    simpl. now rewrite Hh.
Qed.

Lemma lower_rstrip (s : str) :
  lower lower_cp (rstrip s) = rstrip (lower lower_cp s).
Proof.
  induction s as [|c s IH]; [reflexivity|].
  change (lower lower_cp (c :: s)) with (lower_cp c ++ lower lower_cp s).
  destruct (isspace c) eqn:Ec.
  - rewrite (lower_cp_space c Ec).
    change ([c] ++ lower lower_cp s) with (c :: lower lower_cp s).
    destruct (rstrip s) as [|a r] eqn:E.
    + simpl. rewrite E, <- IH, Ec. reflexivity.
    + assert (Hne : rstrip (lower lower_cp s) <> []).
      { rewrite <- IH. intros H. apply lower_nil_inv in H. discriminate. }
      rewrite !rstrip_cons_nonempty by congruence. rewrite E, <- IH.
      change (lower lower_cp (c :: ?x)) with (lower_cp c ++ lower lower_cp x).
      now rewrite (lower_cp_space c Ec).
  - destruct (lower_cp_nonspace c Ec) as [Hne Hw].
    rewrite rstrip_cons_nonspace by assumption.
    rewrite rstrip_app_nonspace by assumption.
    change (lower lower_cp (c :: ?x)) with (lower_cp c ++ lower lower_cp x).
    now rewrite IH.
Qed.

Lemma lower_strip_collapse (s : str) :
  lower lower_cp (strip (re_sub_runs isspace (u " ") s))
  = strip (re_sub_runs isspace (u " ") (lower lower_cp s)).
Proof.
  unfold strip, re_sub_runs. now rewrite lower_rstrip, lower_lstrip, lower_sub_runs.
Qed.


End NormalizerProps.

(** *** The English and Vietnamese lower-case mapping is an instance *)

Lemma vi_lower1_cases (c : N) :
  (vi_lower1 c = c
   \/ (0x41 <= c <= 0x5A /\ vi_lower1 c = c + 32)
   \/ (0xC0 <= c <= 0xDE /\ c <> 0xD7 /\ vi_lower1 c = c + 32)
   \/ (0x102 <= c <= 0x1AF /\ c <> 0x17F /\ vi_lower1 c = c + 1)
   \/ (0x1EA0 <= c <= 0x1EF9 /\ N.even c = true /\ vi_lower1 c = c + 1))
  /\ (vi_lower1 c <> c -> 0x41 <= c <= 0x1EF9).
Proof.
  unfold vi_lower1.
  destruct ((0x41 <=? c) && (c <=? 0x5A)) eqn:E1; [bool_arith|].
  destruct ((0xC0 <=? c) && (c <=? 0xDE) && negb (c =? 0xD7)) eqn:E2; [bool_arith|].
  destruct ((c =? 0x102) || (c =? 0x110) || (c =? 0x128) || (c =? 0x168)
            || (c =? 0x1A0) || (c =? 0x1AF)) eqn:E3; [bool_arith|].
  destruct ((0x1EA0 <=? c) && (c <=? 0x1EF9) && N.even c) eqn:E4.
  - apply andb_true_iff in E4 as [E4 Ev]. bool_arith.
    split; [do 4 right; repeat split; auto; lia | lia].
  - split; [now left | congruence].
Qed.

Lemma vi_lower1_fixed (v : N) :
  ~ 0x41 <= v <= 0x5A ->
  ~ (0xC0 <= v <= 0xDE /\ v <> 0xD7) ->
  ~ In v [0x102; 0x110; 0x128; 0x168; 0x1A0; 0x1AF] ->
  (~ 0x1EA0 <= v <= 0x1EF9 \/ N.even v = false) ->
  vi_lower1 v = v.
Proof.
  intros H1 H2 H3 H4. unfold vi_lower1.
  destruct ((0x41 <=? v) && (v <=? 0x5A)) eqn:E1; [bool_arith|].
  destruct ((0xC0 <=? v) && (v <=? 0xDE) && negb (v =? 0xD7)) eqn:E2; [bool_arith|].
  destruct ((v =? 0x102) || (v =? 0x110) || (v =? 0x128) || (v =? 0x168)
            || (v =? 0x1A0) || (v =? 0x1AF)) eqn:E3.
  { exfalso. apply H3. simpl. bool_arith. }
  destruct ((0x1EA0 <=? v) && (v <=? 0x1EF9) && N.even v) eqn:E4; [|reflexivity].
  apply andb_true_iff in E4 as [E4 Ev]. destruct H4 as [H4 | H4]; [bool_arith | congruence].
Qed.

Lemma isspace_false_in (c : N) :
  0x21 <= c <= 0x84 \/ 0x86 <= c <= 0x9F \/ 0xA1 <= c <= 0x167F
  \/ 0x1681 <= c <= 0x1FFF ->
  isspace c = false.
Proof. intros H. unfold isspace. bool_arith. Qed.

Lemma isspace_true_cases (c : N) :
  isspace c = true -> c <= 0x20 \/ c = 0x85 \/ c = 0xA0 \/ c = 0x1680 \/ 0x2000 <= c.
Proof. unfold isspace. intros H. bool_arith. Qed.

Lemma vi_lower_cp_idem (c : N) : lower vi_lower_cp (vi_lower_cp c) = vi_lower_cp c.
Proof.
  unfold vi_lower_cp, lower. simpl. f_equal.
  destruct (vi_lower1_cases c) as [[H | [H | [H | [H | H]]]] _].
  - now rewrite !H.
  - destruct H as [Hr ->]. apply vi_lower1_fixed; simpl; lia.
  - destruct H as [Hr [Hn ->]]. apply vi_lower1_fixed; simpl; lia.
  - destruct H as [Hr [Hn H]]. rewrite H.
    assert (In c [0x102; 0x110; 0x128; 0x168; 0x1A0; 0x1AF]).
    { revert H. unfold vi_lower1.
      destruct ((0x41 <=? c) && (c <=? 0x5A)) eqn:E1; [bool_arith|].
      destruct ((0xC0 <=? c) && (c <=? 0xDE) && negb (c =? 0xD7)) eqn:E2; [bool_arith|].
      destruct ((c =? 0x102) || (c =? 0x110) || (c =? 0x128) || (c =? 0x168)
                || (c =? 0x1A0) || (c =? 0x1AF)) eqn:E3.
      - intros _. simpl. bool_arith.
      - destruct ((0x1EA0 <=? c) && (c <=? 0x1EF9) && N.even c) eqn:E4; [bool_arith | lia]. }
    apply vi_lower1_fixed; simpl in *; lia.
  - destruct H as [Hr [Hev ->]]. apply vi_lower1_fixed; simpl; try lia.
    right. rewrite N.even_add, Hev. reflexivity.
Qed.

Lemma vi_lower_cp_space (c : N) : isspace c = true -> vi_lower_cp c = [c].
Proof.
  intros H. unfold vi_lower_cp. f_equal.
  destruct (N.eq_dec (vi_lower1 c) c) as [E | E]; [exact E|].
  exfalso. pose proof (proj2 (vi_lower1_cases c) E) as Hr.
  destruct (isspace_true_cases c H) as [Hc | [-> | [-> | [-> | Hc]]]];
    try lia; now apply E.
Qed.

Lemma vi_lower_cp_nonspace (c : N) :
  isspace c = false ->
  vi_lower_cp c <> [] /\ forallb nonspace (vi_lower_cp c) = true.
Proof.
  intros H. split; [discriminate|]. unfold vi_lower_cp. simpl.
  rewrite andb_true_r. apply nonspace_of_nonspace.
  destruct (vi_lower1_cases c) as [[E | [E | [E | [E | E]]]] _].
  - now rewrite E.
  - destruct E as [Hr ->]. apply isspace_false_in. lia.
  - destruct E as [Hr [Hn ->]]. apply isspace_false_in. lia.
  - destruct E as [Hr [Hn ->]]. apply isspace_false_in. lia.
  - destruct E as [Hr [Hn ->]]. apply isspace_false_in. lia.
Qed.


(** ** Keyword counting *)

Lemma two_distinct_members {A} (a b : A) (l : list A) :
  In a l -> In b l -> a <> b -> (2 <= length l)%nat.
Proof.
  destruct l as [|x [|y l]]; simpl; intros Ha Hb Hab.
  - contradiction.
  - destruct Ha as [-> | []]. destruct Hb as [-> | []]. congruence.
  - lia.
Qed.

Lemma hits_two (keywords : list str) (t k1 k2 : str) :
  In k1 keywords -> In k2 keywords -> k1 <> k2 ->
  str_in k1 t = true -> str_in k2 t = true ->
  (2 <= hits keywords t)%nat.
Proof.
  intros I1 I2 Hne H1 H2. unfold hits.
  apply (two_distinct_members k1 k2); [apply filter_In | apply filter_In | exact Hne]; auto.
Qed.

(** C3. A text whose normalized form contains two distinct entries of the
    government-phrase list is classified "Government Telegram", whatever
    else it contains: the invoice keywords and the money pattern are not
    consulted. *)
Theorem classify_government_short_circuit
  (lower_cp : N -> list N) (ocr_text : option str) (k1 k2 : str) :
  In k1 gov_keywords -> In k2 gov_keywords -> k1 <> k2 ->
  str_in k1 (normalize_text lower_cp ocr_text) = true ->
  str_in k2 (normalize_text lower_cp ocr_text) = true ->
  classify_document lower_cp ocr_text = u "Government Telegram".
Proof.
  intros I1 I2 Hne H1 H2. unfold classify_document. cbv zeta.
  pose proof (hits_two gov_keywords _ k1 k2 I1 I2 Hne H1 H2) as Hh.
  apply Nat.leb_le in Hh. now rewrite Hh.
Qed.

(** An upper-case telegram heading with two invoice keywords and an amount. *)
Lemma classify_government_short_circuit_witness :
  classify_document vi_lower_cp
    (Some (u "CÔNG ĐIỆN  Khẩn - invoice total 1.250.000 VND"))
  = u "Government Telegram".
Proof.
  apply (classify_government_short_circuit vi_lower_cp _ (u "công điện") (u "khẩn")).
  - vm_compute. tauto.
  - vm_compute. tauto.
  - intros H. vm_compute in H. discriminate.
  - vm_compute. reflexivity.
  - vm_compute. reflexivity.
Defined.

(** ** Regular expressions: the matcher decides the language *)

Lemma matches_void_inv (w : str) : ~ matches Void w.
Proof. intros H. inversion H. Qed.

Lemma matches_eps_inv (w : str) : matches Eps w -> w = [].
Proof. intros H. now inversion H. Qed.

Lemma matches_cls_inv (p : N -> bool) (w : str) :
  matches (Cls p) w -> exists c, w = [c] /\ p c = true.
Proof. intros H. inversion H; subst. eauto. Qed.

Lemma matches_seq_inv (a b : regex) (w : str) :
  matches (Seq a b) w -> exists s t, w = s ++ t /\ matches a s /\ matches b t.
Proof. intros H. inversion H; subst. eauto. Qed.

Lemma matches_alt_inv (a b : regex) (w : str) :
  matches (Alt a b) w -> matches a w \/ matches b w.
Proof. intros H. inversion H; subst; auto. Qed.

Lemma nullable_iff (r : regex) : nullable r = true <-> matches r [].
Proof.
  induction r as [| |p|a IHa b IHb|a IHa b IHb|a IHa]; simpl.
  - split; [discriminate | intros H; now apply matches_void_inv in H].
  - split; [constructor | reflexivity].
  - split; [discriminate|]. intros H.
    apply matches_cls_inv in H as [c [E _]]. discriminate.
  - rewrite andb_true_iff, IHa, IHb. split.
    + intros [Ha Hb]. change (@nil N) with (@nil N ++ []). now constructor.
    + intros H. apply matches_seq_inv in H as [x [y [E [Hx Hy]]]].
      symmetry in E. apply app_eq_nil in E as [-> ->]. auto.
  - rewrite orb_true_iff, IHa, IHb. split.
    + intros [H | H]; [now apply MAltL | now apply MAltR].
    + apply matches_alt_inv.
  - split; [constructor | reflexivity].
Qed.

Lemma matches_star_first (a : regex) (w : str) :
  matches (Star a) w ->
  w = [] \/ exists c x t, w = (c :: x) ++ t /\ matches a (c :: x) /\ matches (Star a) t.
Proof.
  intros H. remember (Star a) as r eqn:Er. revert Er.
  induction H as [| | | | | |a' s t Hs _ Ht IHt]; intros Er; try discriminate.
  - now left.
  - injection Er as ->. destruct s as [|c x].
    + simpl. now apply IHt.
    + right. exists c, x, t. auto.
Qed.

Lemma matches_seq_cons (a b : regex) (c : N) (s : str) :
  matches (Seq a b) (c :: s)
  <-> (exists s1 s2, s = s1 ++ s2 /\ matches a (c :: s1) /\ matches b s2)
      \/ (matches a [] /\ matches b (c :: s)).
Proof.
  split.
  - intros H. apply matches_seq_inv in H as [x [y [E [Hx Hy]]]].
    destruct x as [|c' x]; simpl in E.
    + subst y. now right.
    + injection E as <- ->. left. eauto.
  - intros [[s1 [s2 [-> [H1 H2]]]] | [H1 H2]].
    + change (c :: s1 ++ s2) with ((c :: s1) ++ s2). now constructor.
    + change (c :: s) with ([] ++ c :: s). now constructor.
Qed.

Lemma deriv_iff (c : N) (r : regex) (s : str) :
  matches (deriv c r) s <-> matches r (c :: s).
Proof.
  revert s. induction r as [| |p|a IHa b IHb|a IHa b IHb|a IHa]; intros s; simpl.
  - split; intros H; now apply matches_void_inv in H.
  - split; intros H.
    + now apply matches_void_inv in H.
    + apply matches_eps_inv in H. discriminate.
  - destruct (p c) eqn:Ep; split; intros H.
    + apply matches_eps_inv in H as ->. now constructor.
    + apply matches_cls_inv in H as [c' [E _]]. injection E as _ ->. constructor.
    + now apply matches_void_inv in H.
    + apply matches_cls_inv in H as [c' [E Hp]]. injection E as <- _. congruence.
  - rewrite matches_seq_cons. destruct (nullable a) eqn:Na.
    + split.
      * intros H. apply matches_alt_inv in H as [H | H].
        -- apply matches_seq_inv in H as [x [y [-> [Hx Hy]]]].
           left. exists x, y. rewrite <- IHa. auto.
        -- right. rewrite <- nullable_iff, <- IHb. auto.
      * intros [[s1 [s2 [-> [H1 H2]]]] | [H1 H2]].
        -- apply MAltL. constructor; [now apply IHa | exact H2].
        -- apply MAltR. now apply IHb.
    + split.
      * intros H. apply matches_seq_inv in H as [x [y [-> [Hx Hy]]]].
        left. exists x, y. rewrite <- IHa. auto.
      * intros [[s1 [s2 [-> [H1 H2]]]] | [H1 H2]].
        -- constructor; [now apply IHa | exact H2].
        -- apply nullable_iff in H1. congruence.
  - split; intros H; apply matches_alt_inv in H as [H | H].
    + apply MAltL. now apply IHa.
    + apply MAltR. now apply IHb.
    + apply MAltL. now apply IHa.
    + apply MAltR. now apply IHb.
  - split.
    + intros H. apply matches_seq_inv in H as [x [y [-> [Hx Hy]]]].
      change (c :: x ++ y) with ((c :: x) ++ y). constructor; [now apply IHa | exact Hy].
    + intros H. apply matches_star_first in H as [H | [c' [x [t [E [Hx Ht]]]]]].
      * discriminate.
      * simpl in E. injection E as <- ->. constructor; [now apply IHa | exact Ht].
Qed.

Lemma re_match_iff (r : regex) (s : str) :
  re_match r s = true <-> exists m post, s = m ++ post /\ matches r m.
Proof.
  revert r. induction s as [|c s IH]; intros r; simpl.
  - rewrite orb_false_r, nullable_iff. split.
    + intros H. now exists [], [].
    + intros [m [post [E H]]]. symmetry in E. apply app_eq_nil in E as [-> _]. exact H.
  - rewrite orb_true_iff, nullable_iff, IH. split.
    + intros [H | [m [post [-> H]]]].
      * now exists [], (c :: s).
      * exists (c :: m), post. split; [reflexivity | now apply deriv_iff].
    + intros [m [post [E H]]]. destruct m as [|c' m]; simpl in E.
      * now left.
      * injection E as <- ->. right. exists m, post. split; [reflexivity | now apply deriv_iff].
Qed.

(** [re.search] finds a match exactly when some substring is in the
    language of the pattern. *)
Lemma re_search_iff (r : regex) (s : str) :
  re_search r s = true <-> exists pre m post, s = pre ++ m ++ post /\ matches r m.
Proof.
  induction s as [|c s IH]; cbn [re_search].
  - rewrite orb_false_r, re_match_iff. split.
    + intros [m [post [E H]]]. now exists [], m, post.
    + intros [pre [m [post [E H]]]]. destruct pre; [|discriminate]. simpl in E. eauto.
  - rewrite orb_true_iff, re_match_iff, IH. split.
    + intros [[m [post [E H]]] | [pre [m [post [E H]]]]].
      * now exists [], m, post.
      * exists (c :: pre), m, post. simpl. now rewrite E.
    + intros [pre [m [post [E H]]]]. destruct pre as [|c' pre]; simpl in E.
      * left. eauto.
      * injection E as _ ->. right. eauto.
Qed.

(** ** The money pattern of the source is the pattern of the specification *)

Lemma matches_star_cls (p : N -> bool) (w : str) :
  matches (Star (Cls p)) w <-> Forall (fun c => p c = true) w.
Proof.
  split.
  - intros H. remember (Star (Cls p)) as r eqn:Er. revert Er.
    induction H as [| | | | | |a s t Hs _ Ht IHt]; intros Er; try discriminate.
    + constructor.
    + injection Er as ->. apply matches_cls_inv in Hs as [c [-> Hc]].
      constructor; auto.
  - induction 1 as [|c w Hc _ IH]; [constructor|].
    change (c :: w) with ([c] ++ w). constructor; [now constructor | exact IH].
Qed.

Lemma matches_chr (c : N) (w : str) : matches (Chr c) w <-> w = [c].
Proof.
  unfold Chr. split.
  - intros H. apply matches_cls_inv in H as [c' [-> E]].
    apply N.eqb_eq in E. now subst.
  - intros ->. constructor. apply N.eqb_refl.
Qed.

Lemma matches_lit (s w : str) : matches (Lit s) w <-> w = s.
Proof.
  revert w. induction s as [|c s IH]; intros w; simpl.
  - split; [apply matches_eps_inv | intros ->; constructor].
  - split.
    + intros H. apply matches_seq_inv in H as [x [y [-> [Hx Hy]]]].
      apply matches_chr in Hx as ->. apply IH in Hy as ->. reflexivity.
    + intros ->. change (c :: s) with ([c] ++ s).
      constructor; [now apply matches_chr | now apply IH].
Qed.

Lemma matches_digit (w : str) :
  matches (Cls isdigit) w <-> exists d, w = [d] /\ isdigit d = true.
Proof.
  split; [apply matches_cls_inv|]. intros [d [-> H]]. now constructor.
Qed.

Lemma matches_opt (r : regex) (w : str) : matches (Opt r) w <-> matches r w \/ w = [].
Proof.
  unfold Opt. split.
  - intros H. apply matches_alt_inv in H as [H | H]; auto.
    right. now apply matches_eps_inv.
  - intros [H | ->]; [now apply MAltL | apply MAltR; constructor].
Qed.

Lemma matches_seq_iff (a b : regex) (w : str) :
  matches (Seq a b) w <-> exists s t, w = s ++ t /\ matches a s /\ matches b t.
Proof.
  split; [apply matches_seq_inv|]. intros [s [t [-> [Hs Ht]]]]. now constructor.
Qed.

Lemma all_digits_cons (c : N) (s : str) :
  all_digits (c :: s) <-> isdigit c = true /\ all_digits s.
Proof. unfold all_digits. split; [intros H; now inversion H | intros []; now constructor]. Qed.

(** [\d{1,3}] *)
Lemma matches_digits_1_3 (w : str) :
  matches (Seq (Cls isdigit) (Opt (Seq (Cls isdigit) (Opt (Cls isdigit))))) w
  <-> digit_run w /\ (length w <= 3)%nat.
Proof.
  rewrite matches_seq_iff. unfold digit_run. split.
  - intros [s [t [-> [Hs Ht]]]]. apply matches_digit in Hs as [d1 [-> H1]].
    apply matches_opt in Ht as [Ht | ->].
    + apply matches_seq_inv in Ht as [x [y [-> [Hx Hy]]]].
      apply matches_digit in Hx as [d2 [-> H2]].
      apply matches_opt in Hy as [Hy | ->].
      * apply matches_digit in Hy as [d3 [-> H3]]. simpl.
        repeat split; [discriminate | | lia]. now repeat constructor.
      * simpl. repeat split; [discriminate | | lia]. now repeat constructor.
    + simpl. repeat split; [discriminate | | lia]. now repeat constructor.
  - intros [[Hne Hd] Hl]. destruct w as [|d1 w]; [congruence|].
    apply all_digits_cons in Hd as [H1 Hd]. exists [d1], w.
    split; [reflexivity|]. split; [now constructor|].
    apply matches_opt. destruct w as [|d2 w]; [now right | left].
    apply all_digits_cons in Hd as [H2 Hd].
    change (d2 :: w) with ([d2] ++ w). constructor; [now constructor|].
    apply matches_opt. destruct w as [|d3 w]; [now right | left].
    apply all_digits_cons in Hd as [H3 Hd].
    destruct w; [now constructor | simpl in Hl; lia].
Qed.

Lemma sep_cls_iff (c : N) : sep_cls c = true <-> is_group_sep c.
Proof.
  unfold sep_cls, is_group_sep. now rewrite orb_true_iff, !N.eqb_eq.
Qed.

(** [[.,]\d{3}] *)
Lemma matches_group (w : str) :
  matches (Seq (Cls sep_cls) (Seq (Cls isdigit) (Seq (Cls isdigit) (Cls isdigit)))) w
  <-> exists sep d1 d2 d3,
        w = [sep; d1; d2; d3] /\ is_group_sep sep /\ all_digits [d1; d2; d3].
Proof.
  split.
  - intros H. apply matches_seq_inv in H as [x0 [y0 [-> [Hx H]]]].
    apply matches_cls_inv in Hx as [sep [-> Hsep]].
    apply matches_seq_inv in H as [x1 [y1 [-> [Hx H]]]].
    apply matches_digit in Hx as [d1 [-> H1]].
    apply matches_seq_inv in H as [x2 [y2 [-> [Hx H]]]].
    apply matches_digit in Hx as [d2 [-> H2]].
    apply matches_digit in H as [d3 [-> H3]].
    exists sep, d1, d2, d3. split; [reflexivity|].
    split; [now apply sep_cls_iff | now repeat constructor].
  - intros [sep [d1 [d2 [d3 [-> [Hsep Hd]]]]]].
    apply all_digits_cons in Hd as [H1 Hd]. apply all_digits_cons in Hd as [H2 Hd].
    apply all_digits_cons in Hd as [H3 _]. apply sep_cls_iff in Hsep.
    change [sep; d1; d2; d3] with ([sep] ++ [d1] ++ [d2] ++ [d3]).
    repeat constructor; assumption.
Qed.

(** [([.,]\d{3})+] *)
Lemma matches_groups (w : str) :
  matches (Plus (Seq (Cls sep_cls) (Seq (Cls isdigit) (Seq (Cls isdigit) (Cls isdigit))))) w
  <-> thousand_groups w.
Proof.
  set (G := Seq (Cls sep_cls) (Seq (Cls isdigit) (Seq (Cls isdigit) (Cls isdigit)))).
  assert (Hstar : forall t, matches (Star G) t -> t = [] \/ thousand_groups t).
  { intros t H. remember (Star G) as r eqn:Er. revert Er.
    induction H as [| | | | | |a s t Hs _ Ht IHt]; intros Er; try discriminate.
    - now left.
    - injection Er as ->. right.
      apply matches_group in Hs as [sep [d1 [d2 [d3 [-> [Hsep Hd]]]]]].
      destruct (IHt eq_refl) as [-> | Hg].
      + now apply TG_one.
      + now apply TG_more. }
  unfold Plus. split.
  - intros H. apply matches_seq_inv in H as [x [t [-> [Hx Ht]]]].
    apply matches_group in Hx as [sep [d1 [d2 [d3 [-> [Hsep Hd]]]]]].
    destruct (Hstar t Ht) as [-> | Hg]; [now apply TG_one | now apply TG_more].
  - assert (Hone : forall sep d1 d2 d3, is_group_sep sep -> all_digits [d1; d2; d3] ->
                                        matches G [sep; d1; d2; d3]).
    { intros. apply matches_group. do 4 eexists. eauto. }
    induction 1 as [sep d1 d2 d3 Hsep Hd | sep d1 d2 d3 g Hsep Hd Hg IH].
    + change [sep; d1; d2; d3] with ([sep; d1; d2; d3] ++ []).
      constructor; [now apply Hone | constructor].
    + change (sep :: d1 :: d2 :: d3 :: g) with ([sep; d1; d2; d3] ++ g).
      constructor; [now apply Hone|].
      apply matches_seq_inv in IH as [x [t [-> [Hx Ht]]]]. now constructor.
Qed.

(** [\d+] *)
Lemma matches_digit_run (w : str) : matches (Plus (Cls isdigit)) w <-> digit_run w.
Proof.
  unfold Plus, digit_run. rewrite matches_seq_iff. split.
  - intros [s [t [-> [Hs Ht]]]]. apply matches_digit in Hs as [d [-> Hd]].
    split; [discriminate|]. apply all_digits_cons. split; [exact Hd|].
    now apply matches_star_cls.
  - intros [Hne Hd]. destruct w as [|d w]; [congruence|].
    apply all_digits_cons in Hd as [H1 Hd]. exists [d], w.
    split; [reflexivity|]. split; [now constructor | now apply matches_star_cls].
Qed.

(** The pattern of the source denotes the pattern of the specification. *)
Lemma money_re_spec (m : str) : matches money_re m <-> money_like_string m.
Proof.
  unfold money_re, money_like_string. cbv zeta.
  fold sep_cls. rewrite matches_seq_iff. split.
  - intros [num [rest [-> [Hnum Hrest]]]].
    apply matches_seq_inv in Hrest as [ws [cur [-> [Hws Hcur]]]].
    exists num, ws, cur. split; [reflexivity|]. split; [|split].
    + apply matches_alt_inv in Hnum as [H | H].
      * left. apply matches_seq_inv in H as [h [g [-> [Hh Hg]]]].
        apply matches_digits_1_3 in Hh as [Hh Hl]. apply matches_groups in Hg.
        exists h, g. auto.
      * right. now apply matches_digit_run.
    + now apply matches_star_cls.
    + unfold currency_markers. simpl.
      apply matches_alt_inv in Hcur as [H | H]; [apply matches_lit in H; auto|].
      apply matches_alt_inv in H as [H | H]; [apply matches_lit in H; auto|].
      apply matches_alt_inv in H as [H | H]; apply matches_lit in H; auto.
  - intros [num [ws [cur [-> [Hnum [Hws Hcur]]]]]].
    exists num, (ws ++ cur). split; [reflexivity|]. split.
    + destruct Hnum as [[h [g [-> [Hh [Hl Hg]]]]] | H].
      * apply MAltL. constructor; [now apply matches_digits_1_3 | now apply matches_groups].
      * apply MAltR. now apply matches_digit_run.
    + constructor; [now apply matches_star_cls|].
      unfold currency_markers in Hcur. simpl in Hcur.
      destruct Hcur as [<- | [<- | [<- | [<- | []]]]].
      * apply MAltL. now apply matches_lit.
      * apply MAltR, MAltL. now apply matches_lit.
      * apply MAltR, MAltR, MAltL. now apply matches_lit.
      * apply MAltR, MAltR, MAltR. now apply matches_lit.
Qed.

(** [money_like] holds exactly of the texts that contain a money-like
    substring. *)
Lemma money_like_iff (t : str) : money_like t = true <-> contains_money_like t.
Proof.
  unfold money_like, contains_money_like. rewrite re_search_iff.
  split; intros [pre [m [post [E H]]]]; exists pre, m, post;
    (split; [exact E | now apply money_re_spec]).
Qed.

(** ** Normalization keeps a money-like substring *)

Lemma sub_runs_app_cons (b : bool) (a : str) (c : N) (r : str) :
  isspace c = false ->
  sub_runs_from isspace (u " ") b (a ++ c :: r)
  = sub_runs_from isspace (u " ") b a ++ c :: sub_runs_from isspace (u " ") false r.
Proof.
  intros Hc. revert b. induction a as [|x a IH]; intros b; simpl.
  - now rewrite Hc.
  - destruct (isspace x).
    + destruct b; rewrite IH; reflexivity.
    + now rewrite IH.
Qed.

Lemma sub_runs_nonspace_prefix (w r : str) :
  forallb nonspace w = true ->
  sub_runs_from isspace (u " ") false (w ++ r)
  = w ++ sub_runs_from isspace (u " ") false r.
Proof.
  induction w as [|a w IH]; intros H; [reflexivity|].
  simpl in H. apply andb_true_iff in H as [Ha Hw]. apply negb_true_iff in Ha.
  simpl. rewrite Ha. now rewrite IH.
Qed.

Lemma sub_runs_of_spaces (b : bool) (ws : str) :
  Forall (fun c => isspace c = true) ws ->
  Forall (fun c => isspace c = true) (sub_runs_from isspace (u " ") b ws).
Proof.
  intros H. revert b. induction H as [|c ws Hc _ IH]; intros b; simpl; [constructor|].
  rewrite Hc. destruct b; [apply IH|].
  change (u " " ++ ?x) with (0x20 :: x). constructor; [reflexivity | apply IH].
Qed.

Lemma lstrip_keeps (p : str) (c : N) (r : str) :
  isspace c = false -> exists p', lstrip (p ++ c :: r) = p' ++ c :: r.
Proof.
  intros Hc. induction p as [|x p IH]; simpl.
  - rewrite Hc. now exists [].
  - destruct (isspace x); [exact IH|]. now exists (x :: p).
Qed.

Lemma rstrip_keeps (x : str) (c : N) (s : str) :
  isspace c = false -> exists s', rstrip (x ++ c :: s) = x ++ c :: s'.
Proof.
  intros Hc. induction x as [|a x [s' IH]].
  - exists (rstrip s). now apply rstrip_cons_nonspace.
  - exists s'. change ((a :: x) ++ c :: s) with (a :: (x ++ c :: s)).
    rewrite rstrip_cons_nonempty; rewrite IH; [reflexivity|].
    destruct x; discriminate.
Qed.

Lemma strip_keeps (p m s : str) (c l : N) (m1 m2 : str) :
  m = c :: m1 -> m = m2 ++ [l] -> isspace c = false -> isspace l = false ->
  exists p' s', strip (p ++ m ++ s) = p' ++ m ++ s'.
Proof.
  intros E1 E2 Hc Hl. unfold strip.
  destruct (lstrip_keeps p c (m1 ++ s) Hc) as [p' Hp].
  assert (Ep : lstrip (p ++ m ++ s) = (p' ++ m2) ++ l :: s).
  { rewrite E1. simpl. rewrite Hp. rewrite <- app_assoc.
    f_equal. change (c :: m1 ++ s) with ((c :: m1) ++ s).
    rewrite <- E1, E2, <- app_assoc. reflexivity. }
  rewrite Ep. destruct (rstrip_keeps (p' ++ m2) l s Hl) as [s' Hs].
  exists p', s'. rewrite Hs, E2, <- !app_assoc. reflexivity.
Qed.

Lemma isdigit_nonspace (c : N) : isdigit c = true -> isspace c = false.
Proof. unfold isdigit. intros H. apply isspace_false_in. bool_arith. Qed.

Lemma all_digits_nonspace (s : str) : all_digits s -> forallb nonspace s = true.
Proof.
  induction 1 as [|c s Hc _ IH]; [reflexivity|].
  simpl. rewrite IH, (nonspace_of_nonspace c (isdigit_nonspace c Hc)). reflexivity.
Qed.

Lemma is_group_sep_nonspace (c : N) : is_group_sep c -> isspace c = false.
Proof. intros [-> | ->]; reflexivity. Qed.

Lemma thousand_groups_nonspace (g : str) :
  thousand_groups g -> forallb nonspace g = true.
Proof.
  induction 1 as [sep d1 d2 d3 Hsep Hd | sep d1 d2 d3 g Hsep Hd Hg IH].
  - change [sep; d1; d2; d3] with (sep :: [d1; d2; d3]). simpl forallb at 1.
    cbn [forallb]. apply all_digits_nonspace in Hd. cbn [forallb] in Hd.
    rewrite (nonspace_of_nonspace sep (is_group_sep_nonspace sep Hsep)). exact Hd.
  - change (sep :: d1 :: d2 :: d3 :: g) with ((sep :: [d1; d2; d3]) ++ g).
    rewrite forallb_app, IH, andb_true_r. cbn [forallb].
    apply all_digits_nonspace in Hd. cbn [forallb] in Hd.
    rewrite (nonspace_of_nonspace sep (is_group_sep_nonspace sep Hsep)). exact Hd.
Qed.

(** A number of the pattern starts with a digit and has no whitespace. *)
Lemma number_shape (num : str) :
  grouped_number num \/ digit_run num ->
  forallb nonspace num = true /\ exists d num', num = d :: num'.
Proof.
  intros [[h [g [-> [[Hne Hd] [_ Hg]]]]] | [Hne Hd]].
  - split.
    + rewrite forallb_app, (all_digits_nonspace h Hd), (thousand_groups_nonspace g Hg).
      reflexivity.
    + destruct h as [|d h]; [congruence|]. now exists d, (h ++ g).
  - split; [now apply all_digits_nonspace|].
    destruct num as [|d num]; [congruence|]. eauto.
Qed.

Lemma currency_marker_shape (cur : str) :
  In cur currency_markers ->
  forallb nonspace cur = true /\ exists init l, cur = init ++ [l].
Proof.
  unfold currency_markers. simpl.
  intros [<- | [<- | [<- | [<- | []]]]]; (split; [reflexivity|]).
  - now exists (u "vn"), 0x64.
  - now exists [], 0x111.
  - now exists (u "us"), 0x64.
  - now exists [], 0x24.
Qed.

Lemma forallb_nonspace_last (s init : str) (l : N) :
  forallb nonspace s = true -> s = init ++ [l] -> isspace l = false.
Proof.
  intros H ->. rewrite forallb_app in H. apply andb_true_iff in H as [_ H].
  simpl in H. rewrite andb_true_r in H. now apply negb_true_iff in H.
Qed.

Lemma forallb_nonspace_head (c : N) (s : str) :
  forallb nonspace (c :: s) = true -> isspace c = false.
Proof.
  simpl. intros H. apply andb_true_iff in H as [H _]. now apply negb_true_iff in H.
Qed.

(** Collapsing and stripping whitespace around and inside a money-like
    substring leaves a money-like substring. *)
Lemma strip_collapse_keeps_money (p m s : str) :
  money_like_string m ->
  contains_money_like (strip (re_sub_runs isspace (u " ") (p ++ m ++ s))).
Proof.
  intros [num [ws [cur [-> [Hnum [Hws Hcur]]]]]].
  destruct (number_shape num Hnum) as [Hn [d [num' En]]].
  destruct (currency_marker_shape cur Hcur) as [Hc [init [l El]]].
  assert (Hd : isspace d = false) by (subst num; now apply forallb_nonspace_head in Hn).
  assert (Hl : isspace l = false) by now apply (forallb_nonspace_last cur init).
  destruct cur as [|k cur']; [destruct init; discriminate|].
  assert (Hk : isspace k = false) by now apply forallb_nonspace_head in Hc.
  set (ws' := sub_runs_from isspace (u " ") false ws).
  assert (Hcollapse :
    re_sub_runs isspace (u " ") (p ++ (num ++ ws ++ k :: cur') ++ s)
    = sub_runs_from isspace (u " ") false p ++ (num ++ ws' ++ k :: cur')
      ++ sub_runs_from isspace (u " ") false s).
  { unfold re_sub_runs. subst num. rewrite <- !app_assoc. simpl.
    rewrite sub_runs_app_cons by exact Hd. f_equal. f_equal.
    assert (Hn' : forallb nonspace num' = true).
    { simpl in Hn. now apply andb_true_iff in Hn as [_ Hn]. }
    rewrite sub_runs_nonspace_prefix by exact Hn'. f_equal.
    rewrite sub_runs_app_cons by exact Hk. fold ws'. f_equal. f_equal.
    simpl in Hc. apply andb_true_iff in Hc as [_ Hc].
    now apply sub_runs_nonspace_prefix. }
  rewrite Hcollapse.
  assert (Em : exists m2, num ++ ws' ++ k :: cur' = m2 ++ [l]).
  { exists (num ++ ws' ++ init). now rewrite El, <- !app_assoc. }
  destruct Em as [m2 Em].
  destruct (strip_keeps (sub_runs_from isspace (u " ") false p)
              (num ++ ws' ++ k :: cur')
              (sub_runs_from isspace (u " ") false s)
              d l (num' ++ ws' ++ k :: cur') m2) as [p' [s' E]]; auto.
  { now subst num. }
  exists p', (num ++ ws' ++ k :: cur'), s'. split; [exact E|].
  exists num, ws', (k :: cur'). repeat split; auto.
  now apply sub_runs_of_spaces.
Qed.

Lemma thousand_groups_chars (g : str) :
  thousand_groups g -> Forall (fun c => isdigit c = true \/ is_group_sep c) g.
Proof.
  induction 1 as [sep d1 d2 d3 Hsep Hd | sep d1 d2 d3 g Hsep Hd Hg IH];
    (constructor; [now right|]);
    apply all_digits_cons in Hd as [H1 Hd]; apply all_digits_cons in Hd as [H2 Hd];
    apply all_digits_cons in Hd as [H3 _]; repeat (constructor; [now left|]);
    [constructor | exact IH].
Qed.

Lemma number_chars (num : str) :
  grouped_number num \/ digit_run num ->
  Forall (fun c => isdigit c = true \/ is_group_sep c) num.
Proof.
  assert (Hd : forall s, all_digits s ->
                         Forall (fun c => isdigit c = true \/ is_group_sep c) s).
  { intros s H. eapply Forall_impl; [|exact H]. now left. }
  intros [[h [g [-> [[_ Hh] [_ Hg]]]]] | [_ H]]; [|now apply Hd].
  apply Forall_app. split; [now apply Hd | now apply thousand_groups_chars].
Qed.

(** ** [classify_document]: the invoice test *)

Section ClassifierInvoice.

Variable lower_cp : N -> list N.

(** What the proof uses of the lower-case mapping: it leaves whitespace,
    digits, the group separators and the characters of the currency
    markers alone. *)
Hypothesis lower_cp_space : forall c, isspace c = true -> lower_cp c = [c].
Hypothesis lower_cp_money :
  forall c,
    isdigit c = true \/ is_group_sep c
    \/ (exists cur, In cur currency_markers /\ In c cur) ->
    lower_cp c = [c].

Lemma lower_fixed (s : str) :
  Forall (fun c => lower_cp c = [c]) s -> lower lower_cp s = s.
Proof.
  induction 1 as [|c s Hc _ IH]; [reflexivity|].
  unfold lower in *. simpl. now rewrite Hc, IH.
Qed.

Lemma lower_money_like_string (m : str) :
  money_like_string m -> lower lower_cp m = m.
Proof.
  intros [num [ws [cur [-> [Hnum [Hws Hcur]]]]]]. apply lower_fixed.
  apply Forall_app. split; [|apply Forall_app; split].
  - eapply Forall_impl; [|exact (number_chars num Hnum)].
    intros c [H | H]; apply lower_cp_money; auto.
  - eapply Forall_impl; [|exact Hws]. intros c H. now apply lower_cp_space.
  - apply Forall_forall. intros c Hc. apply lower_cp_money. right. right. eauto.
Qed.

(** A money-like substring of the text shows in its normalized form. *)
Lemma normalize_keeps_money (pre m post : str) :
  money_like_string m ->
  contains_money_like (normalize_text lower_cp (Some (pre ++ m ++ post))).
Proof.
  intros Hm. unfold normalize_text. cbv zeta. simpl or_empty.
  unfold lower. rewrite !flat_map_app. fold (lower lower_cp m).
  rewrite (lower_money_like_string m Hm).
  now apply strip_collapse_keeps_money.
Qed.


End ClassifierInvoice.

Lemma vi_lower_cp_money (c : N) :
  isdigit c = true \/ is_group_sep c
  \/ (exists cur, In cur currency_markers /\ In c cur) ->
  vi_lower_cp c = [c].
Proof.
  intros H. unfold vi_lower_cp. f_equal.
  assert (Hc : 0x24 <= c <= 0x39 \/ 0x61 <= c <= 0x7A \/ c = 0x111).
  { destruct H as [H | [[-> | ->] | [cur [Hcur Hc]]]].
    - unfold isdigit in H. bool_arith.
    - lia.
    - lia.
    - unfold currency_markers in Hcur. simpl in Hcur.
      destruct Hcur as [<- | [<- | [<- | [<- | []]]]]; simpl in Hc;
        repeat (destruct Hc as [<- | Hc]; [lia|]); contradiction. }
  apply vi_lower1_fixed; simpl; lia.
Qed.

Lemma money_like_string_example : money_like_string (u "1.250.000 vnd").
Proof.
  exists (u "1.250.000"), (u " "), (u "vnd"). split; [reflexivity|].
  split; [|split].
  - left. exists (u "1"), (u ".250.000"). split; [reflexivity|].
    split; [split; [discriminate | now repeat constructor]|].
    split; [simpl; lia|].
    apply (TG_more 0x2E 0x32 0x35 0x30); [now left | now repeat constructor|].
    apply (TG_one 0x2E 0x30 0x30 0x30); [now left | now repeat constructor].
  - now repeat constructor.
  - vm_compute. tauto.
Qed.



(** ** [safe_filename] *)

Lemma is_filename_char_range (c : N) :
  is_filename_char c = true -> 0x2D <= c <= 0x7A /\ c <> 0x2F /\ c <> 0x5C.
Proof. unfold is_filename_char. intros H. bool_arith. Qed.

Lemma sub_runs_filename_chars (b : bool) (s : str) :
  filename_chars (sub_runs_from (fun c => negb (is_filename_char c)) (u "_") b s).
Proof.
  revert b. induction s as [|c s IH]; intros b; simpl; [constructor|].
  destruct (is_filename_char c) eqn:Ec; simpl.
  - constructor; [exact Ec | apply IH].
  - destruct b; [apply IH|].
    change (u "_" ++ ?x) with (0x5F :: x). constructor; [reflexivity | apply IH].
Qed.

Lemma sub_runs_no_match (cls : N -> bool) (rep : str) (b : bool) (s : str) :
  Forall (fun c => cls c = false) s -> sub_runs_from cls rep b s = s.
Proof.
  intros H. revert b. induction H as [|c s Hc _ IH]; intros b; [reflexivity|].
  simpl. now rewrite Hc, IH.
Qed.

Lemma filename_chars_firstn (n : nat) (s : str) :
  filename_chars s -> filename_chars (firstn n s).
Proof.
  intros H. revert n. induction H as [|c s Hc _ IH]; intros [|n]; simpl;
    try constructor; auto. apply IH.
Qed.

Lemma safe_filename_shape (name : str) :
  filename_chars (safe_filename name) /\ (length (safe_filename name) <= 180)%nat.
Proof.
  unfold safe_filename. cbv zeta.
  set (s := re_sub_runs _ _ _).
  assert (Hs : filename_chars s) by apply sub_runs_filename_chars.
  destruct (180 <? length s)%nat eqn:E.
  - split; [now apply filename_chars_firstn|]. rewrite length_firstn. lia.
  - apply Nat.ltb_ge in E. auto.
Qed.

Lemma filename_chars_fixed (r : str) :
  filename_chars r -> (length r <= 180)%nat -> safe_filename r = r.
Proof.
  intros Hr Hl. unfold safe_filename. cbv zeta.
  assert (Hns : forallb nonspace r = true).
  { apply forallb_forall. intros c Hc.
    apply (proj1 (Forall_forall _ _) Hr), is_filename_char_range in Hc.
    apply nonspace_of_nonspace, isspace_false_in. lia. }
  assert (Hstrip : strip r = r).
  { unfold strip. destruct r as [|c r]; [reflexivity|].
    rewrite lstrip_fixed by now apply forallb_nonspace_head in Hns.
    rewrite <- (app_nil_r (c :: r)) at 1.
    rewrite rstrip_app_nonspace by exact Hns. apply app_nil_r. }
  assert (Hrepl : forall a b, a = 0x2F \/ a = 0x5C -> replace_char a b r = r).
  { intros a b Ha. unfold replace_char. rewrite <- (map_id r) at 2.
    apply map_ext_in. intros c Hc.
    apply (proj1 (Forall_forall _ _) Hr), is_filename_char_range in Hc.
    destruct (N.eqb_spec c a); [lia | reflexivity]. }
  rewrite Hstrip, !Hrepl by auto. unfold re_sub_runs.
  rewrite sub_runs_no_match.
  - apply Nat.ltb_ge in Hl. now rewrite Hl.
  - eapply Forall_impl; [|exact Hr]. intros c Hc. cbv beta. now rewrite Hc.
Qed.

(** [safe_filename] is idempotent. *)
Lemma safe_filename_idempotent (name : str) :
  safe_filename (safe_filename name) = safe_filename name.
Proof.
  destruct (safe_filename_shape name). now apply filename_chars_fixed.
Qed.

(** The result has no path separator. *)
Lemma safe_filename_no_separator (name : str) :
  ~ In 0x2F (safe_filename name) /\ ~ In 0x5C (safe_filename name).
Proof.
  destruct (safe_filename_shape name) as [H _].
  split; intros Hin; apply (proj1 (Forall_forall _ _) H), is_filename_char_range in Hin; lia.
Qed.

Lemma split_slash_no_slash (cur s : str) :
  ~ In 0x2F s -> split_slash cur s = [rev cur ++ s].
Proof.
  revert cur. induction s as [|c s IH]; intros cur H; simpl.
  - now rewrite app_nil_r.
  - destruct (N.eqb_spec c 0x2F) as [-> | Hc]; [exfalso; apply H; now left|].
    rewrite IH by (intros Hin; apply H; now right).
    simpl. now rewrite <- app_assoc.
Qed.

Lemma resolve_from_app (seen : list str) (a b : path) :
  resolve_from seen (a ++ b) = resolve_from (rev (resolve_from seen a)) b.
Proof.
  revert seen. induction a as [|c a IH]; intros seen; simpl.
  - now rewrite rev_involutive.
  - destruct (str_eqb c (u "..")); apply IH.
Qed.

Lemma is_prefix_app (a b : path) : is_prefix a (a ++ b) = true.
Proof.
  induction a as [|x a IH]; [reflexivity|]. simpl. now rewrite str_eqb_refl.
Qed.

(** Joined under a directory, a sanitized name other than [""], ["."] and
    [".."] names a direct child of that directory. *)
Lemma safe_filename_child (dir : path) (name : str) :
  let fn := safe_filename name in
  fn <> [] -> fn <> u "." -> fn <> u ".." ->
  joinpath dir fn = dir ++ [fn] /\ strictly_inside dir (joinpath dir fn) = true.
Proof.
  intros fn H0 H1 H2.
  destruct (safe_filename_no_separator name) as [Hs _]. fold fn in Hs.
  assert (Hj : joinpath dir fn = dir ++ [fn]).
  { unfold joinpath. assert (Hsw : startswith fn (u "/") = false).
    { clearbody fn. destruct fn as [|c r]; [reflexivity|].
      change (startswith (c :: r) (u "/")) with ((0x2F =? c) && true).
      destruct (N.eqb_spec 0x2F c) as [<- | _]; [exfalso; apply Hs; now left | reflexivity]. }
    rewrite Hsw. unfold parse_parts. rewrite split_slash_no_slash by exact Hs.
    simpl. apply str_eqb_neq in H0, H1. now rewrite H0, H1. }
  split; [exact Hj|]. rewrite Hj. unfold strictly_inside, resolve.
  rewrite resolve_from_app. simpl. apply str_eqb_neq in H2. rewrite H2.
  simpl. rewrite rev_involutive, is_prefix_app, length_app. simpl.
  apply Nat.ltb_lt. lia.
Qed.

(** C1 on the name [".."]: [safe_filename] returns it unchanged, and under
    the upload directory of a document it names the directory above, which
    is not inside the upload directory. *)
Lemma safe_filename_dotdot :
  let dir := doc_upload_dir [u "data"; u "uploads"] (u "a1b2c3d4e5f6") in
  safe_filename (u "..") = u ".."
  /\ joinpath dir (safe_filename (u ".."))
     = [u "data"; u "uploads"; u "a1b2c3d4e5f6"; u ".."]
  /\ resolve (joinpath dir (safe_filename (u ".."))) = [u "data"; u "uploads"]
  /\ strictly_inside dir (joinpath dir (safe_filename (u ".."))) = false.
Proof. cbv zeta. repeat split; vm_compute; reflexivity. Qed.

(** ** The store: [upsert_document] *)

Lemma insert_or_update_idem (r : document_row) (rows : list document_row) :
  insert_or_update r (insert_or_update r rows) = insert_or_update r rows.
Proof.
  induction rows as [|x rows IH]; simpl.
  - now rewrite str_eqb_refl.
  - destruct (str_eqb (d_id x) (d_id r)) eqn:E; simpl.
    + now rewrite str_eqb_refl.
    + now rewrite E, IH.
Qed.

Lemma find_insert_or_update (r : document_row) (rows : list document_row) :
  find (fun d => str_eqb (d_id d) (d_id r)) (insert_or_update r rows) = Some r.
Proof.
  induction rows as [|x rows IH]; simpl.
  - now rewrite str_eqb_refl.
  - destruct (str_eqb (d_id x) (d_id r)) eqn:E; simpl.
    + now rewrite str_eqb_refl.
    + now rewrite E.
Qed.

Lemma find_insert_or_update_other (r : document_row) (rows : list document_row)
  (id : str) :
  id <> d_id r ->
  find (fun d => str_eqb (d_id d) id) (insert_or_update r rows)
  = find (fun d => str_eqb (d_id d) id) rows.
Proof.
  intros Hne. assert (Hr : str_eqb (d_id r) id = false).
  { apply str_eqb_neq. congruence. }
  induction rows as [|x rows IH]; simpl.
  - now rewrite Hr.
  - destruct (str_eqb (d_id x) (d_id r)) eqn:E; simpl.
    + apply str_eqb_eq in E. rewrite E, Hr. reflexivity.
    + now rewrite IH.
Qed.

Lemma filter_idem {A} (f : A -> bool) (l : list A) :
  filter f (filter f l) = filter f l.
Proof.
  induction l as [|x l IH]; [reflexivity|]. simpl.
  destruct (f x) eqn:E; simpl; now rewrite ?E, IH.
Qed.

(** C6. Applying [upsert_document] twice with the same payload leaves the
    store (the document row, the index entry, everything else) exactly as
    applying it once, with or without the FTS5 table. *)
Theorem upsert_document_idempotent (c : conn) (doc : doc_dict) :
  upsert_document (upsert_document c doc) doc = upsert_document c doc.
Proof.
  unfold upsert_document. cbv zeta. simpl. f_equal.
  - apply insert_or_update_idem.
  - destruct (documents_fts c) as [rows|]; [|reflexivity].
    f_equal. rewrite filter_app, filter_idem. simpl.
    rewrite str_eqb_refl. simpl. now rewrite app_nil_r.
Qed.

(** After an upsert the row of the payload's id is the payload's row, and
    its index entry is the last entry of the index and the only one of that
    id. *)
Lemma upsert_document_stores (c : conn) (doc : doc_dict) :
  get_document (upsert_document c doc) (k_id doc)
  = Some {| d_id := k_id doc;
            d_title := dict_get (k_title doc);
            d_created_at := dict_get (k_created_at doc);
            d_doc_type := dict_get (k_doc_type doc);
            d_ocr_text := dict_get (k_ocr_text doc);
            d_word_path := dict_get (k_word_path doc);
            d_excel_path := dict_get (k_excel_path doc) |}
  /\ forall index,
       documents_fts c = Some index ->
       option_map (filter (fun f => str_eqb (f_document_id f) (k_id doc)))
                  (documents_fts (upsert_document c doc))
       = Some [ {| f_document_id := k_id doc;
                   f_title := dict_get_default (k_title doc) [];
                   f_doc_type := dict_get_default (k_doc_type doc) [];
                   f_ocr_text := dict_get_default (k_ocr_text doc) [] |} ].
Proof.
  split.
  - unfold get_document, upsert_document. cbv zeta. simpl.
    apply (find_insert_or_update
             {| d_id := k_id doc; d_title := dict_get (k_title doc);
                d_created_at := dict_get (k_created_at doc);
                d_doc_type := dict_get (k_doc_type doc);
                d_ocr_text := dict_get (k_ocr_text doc);
                d_word_path := dict_get (k_word_path doc);
                d_excel_path := dict_get (k_excel_path doc) |}).
  - intros index E. unfold upsert_document. cbv zeta. simpl. rewrite E. simpl.
    f_equal. rewrite filter_app. simpl. rewrite str_eqb_refl.
    assert (Hnil : forall l,
               filter (fun f => str_eqb (f_document_id f) (k_id doc))
                 (filter (fun f => negb (str_eqb (f_document_id f) (k_id doc))) l) = []).
    { induction l as [|x l IH]; [reflexivity|]. simpl.
      destruct (str_eqb (f_document_id x) (k_id doc)) eqn:Ex; simpl; [exact IH|].
      now rewrite Ex. }
    now rewrite Hnil.
Qed.

(** C5, as amended.  The stored [created_at] of a Document is changed by no
    store operation other than [upsert_document] on its own id:
    [insert_image], [update_image_ocr] and an upsert of another id leave it
    alone; an upsert on its id replaces it by the payload's [created_at]. *)
Theorem created_at_changed_only_by_own_upsert (c : conn) :
  (forall doc,
     option_map d_created_at (get_document (upsert_document c doc) (k_id doc))
     = Some (dict_get (k_created_at doc)))
  /\ (forall doc id,
        id <> k_id doc ->
        get_document (upsert_document c doc) id = get_document c id)
  /\ (forall document_id filename stored_path ocr_text id,
        get_document (insert_image c document_id filename stored_path ocr_text) id
        = get_document c id)
  /\ (forall document_id stored_path ocr_text id,
        get_document (update_image_ocr c document_id stored_path ocr_text) id
        = get_document c id).
Proof.
  repeat split.
  - intros doc. now rewrite (proj1 (upsert_document_stores c doc)).
  - intros doc id Hne. unfold get_document, upsert_document. cbv zeta. simpl.
    now apply find_insert_or_update_other.
Qed.

(** An upsert of another id leaves the stored timestamp alone. *)
Lemma created_at_changed_only_by_own_upsert_witness :
  get_document
    (upsert_document example_store (example_payload "ffffffffffff" "2025-06-01T12:00:00"))
    (u "a1b2c3d4e5f6")
  = get_document example_store (u "a1b2c3d4e5f6").
Proof.
  apply (proj1 (proj2 (created_at_changed_only_by_own_upsert example_store))).
  intros H. vm_compute in H. discriminate.
Defined.

(** C5, as stated, fails: an upsert on the id of a stored Document with
    another [created_at] in the payload changes the stored [created_at]. *)
Lemma created_at_immutable_counterexample :
  let doc := example_payload "a1b2c3d4e5f6" "2025-06-01T12:00:00" in
  option_map d_created_at (get_document example_store (k_id doc))
  = Some (Some (u "2024-01-01T00:00:00"))
  /\ option_map d_created_at (get_document (upsert_document example_store doc) (k_id doc))
     = Some (Some (u "2025-06-01T12:00:00"))
  /\ option_map d_created_at (get_document (upsert_document example_store doc) (k_id doc))
     <> option_map d_created_at (get_document example_store (k_id doc)).
Proof.
  cbv zeta. repeat split; try (vm_compute; reflexivity).
  intros H. vm_compute in H. discriminate.
Qed.

(** ** The store: [update_image_ocr] *)

(** C9. When no image row has the key [(document_id, stored_path)],
    [update_image_ocr] returns (it is a total function, it raises nothing)
    the store it was given: the same image rows, with the same fields, and
    the same documents and index. *)
Theorem update_image_ocr_no_match (c : conn) (document_id stored_path text : str) :
  (forall r, In r (images c) ->
             ~ (i_document_id r = document_id /\ i_stored_path r = stored_path)) ->
  update_image_ocr c document_id stored_path text = c.
Proof.
  intros H. destruct c as [docs imgs seq fts]. unfold update_image_ocr. simpl in *.
  f_equal. rewrite <- (map_id imgs) at 2. apply map_ext_in. intros r Hr.
  destruct (str_eqb (i_document_id r) document_id) eqn:E1; [|reflexivity].
  destruct (str_eqb (i_stored_path r) stored_path) eqn:E2; [|reflexivity].
  apply str_eqb_eq in E1, E2. exfalso. now apply (H r Hr).
Qed.

(** An update keyed on a path no image has. *)
Lemma update_image_ocr_no_match_witness :
  update_image_ocr example_store (u "a1b2c3d4e5f6")
    (u "/data/uploads/a1b2c3d4e5f6/other.png") (u "ABC")
  = example_store.
Proof.
  apply update_image_ocr_no_match.
  intros r [<- | []] [_ H]. vm_compute in H. discriminate.
Defined.

(** ** Search: the index path and the substring scan *)

Lemma sql_like_percent (pat text : str) :
  sql_like (0x25 :: pat) text
  = sql_like pat text
    || match text with
       | [] => false
       | _ :: t => sql_like (0x25 :: pat) t
       end.
Proof. destruct text; reflexivity. Qed.

Lemma sql_like_cons (p : N) (pat : str) (c : N) (text : str) :
  p <> 0x25 ->
  sql_like (p :: pat) (c :: text)
  = ((p =? 0x5F) || (ascii_fold p =? ascii_fold c)) && sql_like pat text.
Proof.
  intros H. apply N.eqb_neq in H. cbn [sql_like]. now rewrite H.
Qed.

Lemma sql_like_any (text : str) : sql_like [0x25] text = true.
Proof.
  induction text as [|c t IH]; rewrite sql_like_percent; [reflexivity|].
  rewrite IH. apply orb_true_r.
Qed.

(** A text that starts with [q] matches the pattern [q%], whatever
    wildcards [q] holds. *)
Lemma sql_like_startswith (q text : str) :
  startswith text q = true -> sql_like (q ++ [0x25]) text = true.
Proof.
  revert text. induction q as [|p q IH]; intros text H.
  - apply sql_like_any.
  - destruct text as [|c text]; [discriminate|].
    simpl in H. apply andb_true_iff in H as [Hp Hq]. apply N.eqb_eq in Hp. subst c.
    specialize (IH text Hq). change ((p :: q) ++ [0x25]) with (p :: (q ++ [0x25])).
    destruct (N.eq_dec p 0x25) as [-> | Hne].
    + rewrite sql_like_percent. apply orb_true_iff. right.
      rewrite sql_like_percent. now rewrite IH.
    + rewrite sql_like_cons by exact Hne.
      now rewrite N.eqb_refl, orb_true_r, IH.
Qed.

(** A text that contains [q] matches the pattern [%q%]. *)
Lemma sql_like_contains (q text : str) :
  str_in q text = true -> sql_like (u "%" ++ q ++ u "%") text = true.
Proof.
  change (u "%" ++ q ++ u "%") with (0x25 :: (q ++ [0x25])).
  induction text as [|c t IH]; intros H; rewrite sql_like_percent.
  - simpl in H. rewrite orb_false_r in H. now rewrite sql_like_startswith.
  - cbn [str_in] in H. apply orb_true_iff in H as [H | H].
    + now rewrite sql_like_startswith.
    + rewrite (IH H). apply orb_true_r.
Qed.

Lemma In_insert_desc (x r : document_row) (l : list document_row) :
  In x (insert_desc r l) <-> x = r \/ In x l.
Proof.
  induction l as [|y l IH]; simpl.
  - intuition.
  - destruct (value_leb (d_created_at y) (d_created_at r)); simpl.
    + intuition.
    + rewrite IH. intuition.
Qed.

Lemma In_order_by (x : document_row) (l : list document_row) :
  In x (order_by_created_at_desc l) <-> In x l.
Proof.
  unfold order_by_created_at_desc. induction l as [|y l IH]; simpl; [reflexivity|].
  rewrite In_insert_desc, IH. intuition.
Qed.

Lemma length_insert_desc (r : document_row) (l : list document_row) :
  length (insert_desc r l) = S (length l).
Proof.
  induction l as [|y l IH]; simpl; [reflexivity|].
  destruct (value_leb (d_created_at y) (d_created_at r)); simpl; now rewrite ?IH.
Qed.

Lemma length_order_by (l : list document_row) :
  length (order_by_created_at_desc l) = length l.
Proof.
  unfold order_by_created_at_desc. induction l as [|y l IH]; simpl; [reflexivity|].
  now rewrite length_insert_desc, IH.
Qed.

Lemma In_sql_limit {A} (limit : Z) (x : A) (l : list A) :
  In x (sql_limit limit l) -> In x l.
Proof.
  unfold sql_limit. destruct (limit <? 0)%Z; [auto|]. intros H.
  rewrite <- (firstn_skipn (Z.to_nat limit) l). apply in_or_app. now left.
Qed.

Lemma sql_limit_all {A} (limit : Z) (l : list A) :
  (limit < 0 \/ Z.of_nat (length l) <= limit)%Z -> sql_limit limit l = l.
Proof.
  unfold sql_limit. intros H. destruct (Z.ltb_spec limit 0); [reflexivity|].
  apply firstn_all2. lia.
Qed.

Lemma length_sql_limit {A} (limit : Z) (l : list A) :
  (0 <= limit)%Z -> (Z.of_nat (length (sql_limit limit l)) <= limit)%Z.
Proof.
  unfold sql_limit. intros H. destruct (Z.ltb_spec limit 0); [lia|].
  rewrite length_firstn. lia.
Qed.

Section SearchProps.

(** Any semantics of FTS5's [MATCH]. *)
Variable fts5_match : str -> option (fts_row -> bool).

Lemma search_documents_fts_rows (c : conn) (query : str) (doc_type : option str)
  (limit : Z) (rows : list document_row) (d : document_row) :
  search_documents_fts fts5_match c query doc_type limit = Some rows ->
  In d rows -> In d (documents c) /\ type_filter doc_type d = true.
Proof.
  unfold search_documents_fts. cbv zeta.
  destruct (documents_fts c) as [index|]; [|discriminate].
  destruct (fts5_match (strip query)) as [m|]; [|discriminate].
  intros E Hd. injection E as <-.
  apply In_sql_limit, In_order_by, in_flat_map in Hd as [f [_ Hd]].
  apply filter_In in Hd as [Hd Hf]. apply andb_true_iff in Hf as [_ Hf]. auto.
Qed.


End SearchProps.


(** ** The aggregator: [run_easyocr] *)

Section AggregatorProps.

Local Open Scope float_scope.

Variable image : Type.
Variable preprocess : str -> option image.
Variable readtext : str + image -> option (list detection).
Variable py_sum : list float -> float.

(** C8, as amended.  When the recognizer returns no detection the result is
    [("", 0.0)]; when it returns N >= 1 detections the text is the
    newline-join of the spans in the recognizer's order (stripped) and the
    confidence is the floating-point quotient by N of the interpreter's
    floating-point sum of the confidences taken in that order.  The
    recognizer runs on the path when [enhance] is false and on the
    preprocessed image when it is true. *)
Theorem run_easyocr_aggregates (image_path : str) (enhance : bool)
  (results : list detection) :
  (if enhance
   then exists img, preprocess image_path = Some img /\ readtext (inr img) = Some results
   else readtext (inl image_path) = Some results) ->
  run_easyocr image preprocess readtext py_sum image_path enhance
  = Some (match results with
          | [] => ([], 0)
          | _ :: _ =>
              (strip (join [0x0A%N] (map det_text results)),
               py_sum (map det_conf results) / float_of_nat (length results))
          end).
Proof.
  intros H. unfold run_easyocr. destruct enhance; simpl.
  - destruct H as [img [-> ->]]. destruct results as [|r rs]; [reflexivity|].
    cbn [length Nat.max]. now destruct (length rs).
  - rewrite H. destruct results as [|r rs]; [reflexivity|].
    cbn [length Nat.max]. now destruct (length rs).
Qed.

End AggregatorProps.

(** One detection [("ABC", 0.9)], with and without enhancement. *)
Lemma run_easyocr_aggregates_witness :
  run_easyocr unit (fun _ => Some tt)
    (scripted_reader [ {| det_text := u "ABC"; det_conf := conf_0_9 |} ])
    sum_left (u "/data/uploads/a1b2c3d4e5f6/scan.png") true
  = Some (u "ABC", conf_0_9)
  /\ run_easyocr unit (fun _ => Some tt) (scripted_reader []) sum_left
       (u "/data/uploads/a1b2c3d4e5f6/scan.png") false
     = Some ([], 0%float).
Proof.
  split.
  - rewrite (run_easyocr_aggregates unit (fun _ => Some tt)
               (scripted_reader [ {| det_text := u "ABC"; det_conf := conf_0_9 |} ])
               sum_left _ true
               [ {| det_text := u "ABC"; det_conf := conf_0_9 |} ]).
    + vm_compute. reflexivity.
    + exists tt. split; reflexivity.
  - rewrite (run_easyocr_aggregates unit (fun _ => Some tt) (scripted_reader [])
               sum_left _ false []).
    + reflexivity.
    + reflexivity.
Defined.

(** C8, as stated, fails: the confidence depends on the order of the
    detections.  Four detections with confidences 1, 2^-53, 1.5 * 2^-107
    and 1.5 * 2^-107 (all within [0, 1]) give 0.25 in one order and the next
    double above 0.25 in another, under the left-to-right sum and under the
    compensated sum alike. *)
Lemma confidence_permutation_counterexample :
  Permutation spans_in_order spans_permuted
  /\ confidence_of sum_left spans_in_order = Some 0.25%float
  /\ confidence_of sum_left spans_permuted = Some 0x1.0000000000001p-2%float
  /\ confidence_of sum_neumaier spans_in_order = Some 0.25%float
  /\ confidence_of sum_neumaier spans_permuted = Some 0x1.0000000000001p-2%float
  /\ confidence_of sum_left spans_in_order <> confidence_of sum_left spans_permuted
  /\ confidence_of sum_neumaier spans_in_order
     <> confidence_of sum_neumaier spans_permuted.
Proof.
  assert (Hne : Some 0.25%float <> Some 0x1.0000000000001p-2%float).
  { intros H.
    apply (f_equal (fun o => match o with
                             | Some x => PrimFloat.eqb x 0.25%float
                             | None => false
                             end)) in H.
    vm_compute in H. discriminate. }
  assert (H1 : confidence_of sum_left spans_in_order = Some 0.25%float)
    by (vm_compute; reflexivity).
  assert (H2 : confidence_of sum_left spans_permuted = Some 0x1.0000000000001p-2%float)
    by (vm_compute; reflexivity).
  assert (H3 : confidence_of sum_neumaier spans_in_order = Some 0.25%float)
    by (vm_compute; reflexivity).
  assert (H4 : confidence_of sum_neumaier spans_permuted
               = Some 0x1.0000000000001p-2%float)
    by (vm_compute; reflexivity).
  split; [|rewrite H1, H2, H3, H4; auto 10].
  unfold spans_in_order, spans_permuted.
  set (a := {| det_text := u "a"; det_conf := 1%float |}).
  set (b := {| det_text := u "b"; det_conf := 0x1p-53%float |}).
  set (c := {| det_text := u "c"; det_conf := 0x1.8p-107%float |}).
  set (d := {| det_text := u "d"; det_conf := 0x1.8p-107%float |}).
  change [c; d; b; a] with ([c; d; b] ++ [a]).
  apply Permutation_cons_app. simpl.
  change [c; d; b] with ([c; d] ++ [b]).
  apply Permutation_cons_app. apply Permutation_refl.
Qed.

(** ** The upload page: export, then persist *)

Section PageUploadProps.

Variable lower_cp : N -> list N.
Variable image : Type.
Variable preprocess : str -> option image.
Variable readtext : str + image -> option (list detection).
Variable py_sum : list float -> float.
Variable UPLOADS_DIR EXPORTS_DIR : path.
Variable write_bytes : path -> bool.
Variable export_to_word :
  path -> str -> str -> str -> str -> list saved_image -> bool.
Variable export_to_excel :
  path -> str -> str -> str -> list saved_image -> bool.

Lemma save_images_events (c : conn) (upload_dir : path) (doc_id : str)
  (files : list str) :
  Forall image_event
    (snd (fst (save_images write_bytes c upload_dir doc_id files))).
Proof.
  revert c. induction files as [|name rest IH]; intros c; simpl; [constructor|].
  destruct (write_bytes (joinpath upload_dir (safe_filename name))); [|constructor].
  specialize (IH (insert_image c doc_id (safe_filename name)
                    (path_str (joinpath upload_dir (safe_filename name))) None)).
  destruct (save_images write_bytes _ upload_dir doc_id rest) as [[[c' saved] evs] ok].
  simpl in *. constructor; [exact I | exact IH].
Qed.

Lemma ocr_images_events (c : conn) (doc_id : str) (enhance : bool)
  (imgs : list saved_image) (combined_text : str) :
  Forall image_event
    (snd (ocr_images image preprocess readtext py_sum c doc_id enhance imgs
            combined_text)).
Proof.
  revert c combined_text. induction imgs as [|img rest IH]; intros c combined_text;
    simpl; [constructor|].
  match goal with
  | |- context [ocr_images _ _ _ _ ?c1 _ _ rest ?t1] => specialize (IH c1 t1);
      destruct (ocr_images image preprocess readtext py_sum c1 doc_id enhance rest t1)
        as [[[c' imgs'] combined'] evs]
  end.
  simpl in *. constructor; [exact I | exact IH].
Qed.

(** C2, as amended.  In every run of the upload page that completes, the
    export is attempted first and the Document is upserted once, after it:
    with both export paths set when the export succeeded, and with both
    null when it raised (the exception is caught, the Document is persisted
    all the same).  A later [upsert_document] of that id stores the paths
    of its payload. *)
Theorem page_upload_exports_then_persists (c : conn) (submitted : bool)
  (title : str) (enhance run_now : bool) (files : list str)
  (doc_id created_at : str) (c' : conn) (trace : list event) :
  page_upload lower_cp image preprocess readtext py_sum UPLOADS_DIR EXPORTS_DIR
    write_bytes export_to_word export_to_excel
    c submitted title enhance run_now files doc_id created_at
  = (c', trace, Completed) ->
  exported_then_persisted lower_cp EXPORTS_DIR export_to_word export_to_excel
    title doc_id created_at c' trace
  /\ forall doc,
       k_id doc = doc_id ->
       option_map (fun d => (d_word_path d, d_excel_path d))
         (get_document (upsert_document c' doc) doc_id)
       = Some (dict_get (k_word_path doc), dict_get (k_excel_path doc)).
Proof.
  intros H. split.
  - revert H. unfold page_upload. destruct submitted; [|discriminate]. simpl negb.
    cbv iota. destruct files as [|f files']; [discriminate|].
    pose proof (save_images_events c (doc_upload_dir UPLOADS_DIR doc_id) doc_id
                  (f :: files')) as Hsave.
    destruct (save_images write_bytes c (doc_upload_dir UPLOADS_DIR doc_id) doc_id
                (f :: files')) as [[[c1 saved] evs_save] ok].
    simpl in Hsave. destruct ok; [|discriminate]. simpl negb. cbv iota.
    assert (Hocr : exists c2 saved2 combined evs_ocr,
               (if run_now
                then ocr_images image preprocess readtext py_sum c1 doc_id enhance saved []
                else (c1, saved, [], [])) = (c2, saved2, combined, evs_ocr)
               /\ Forall image_event evs_ocr).
    { destruct run_now.
      - pose proof (ocr_images_events c1 doc_id enhance saved []) as Ho.
        destruct (ocr_images image preprocess readtext py_sum c1 doc_id enhance saved [])
          as [[[c2 saved2] combined] evs_ocr].
        exists c2, saved2, combined, evs_ocr. auto.
      - exists c1, saved, [], []. split; [reflexivity | constructor]. }
    destruct Hocr as [c2 [saved2 [combined [evs_ocr [-> Hocr]]]]].
    cbv zeta.
    set (doc_type := classify_document lower_cp (Some combined)).
    set (word_path := joinpath (doc_export_dir EXPORTS_DIR doc_id) (doc_id ++ u ".docx")).
    set (excel_path := joinpath (doc_export_dir EXPORTS_DIR doc_id) (doc_id ++ u ".xlsx")).
    set (word_ok := export_to_word word_path (title_or_default title doc_id) doc_id
                      doc_type created_at saved2).
    set (excel_ok := export_to_excel excel_path doc_id doc_type created_at saved2).
    intros H. exists (evs_save ++ evs_ocr), saved2, combined. cbv zeta.
    fold doc_type word_path excel_path word_ok excel_ok.
    destruct (word_ok && excel_ok) eqn:Eok; injection H as <- <-;
      (split; [apply Forall_app; now split|]);
      (split; [now rewrite <- app_assoc|]);
      match goal with
      | |- context [upsert_document ?c0 ?d] =>
          pose proof (proj1 (upsert_document_stores c0 d)) as Hst;
          cbn [k_id] in Hst; rewrite Hst
      end; reflexivity.
  - intros doc <-. now rewrite (proj1 (upsert_document_stores c' doc)).
Qed.

Lemma save_images_documents (c : conn) (upload_dir : path) (doc_id : str)
  (files : list str) :
  documents (fst (fst (fst (save_images write_bytes c upload_dir doc_id files))))
  = documents c.
Proof.
  revert c. induction files as [|name rest IH]; intros c; simpl; [reflexivity|].
  destruct (write_bytes (joinpath upload_dir (safe_filename name))); [|reflexivity].
  specialize (IH (insert_image c doc_id (safe_filename name)
                    (path_str (joinpath upload_dir (safe_filename name))) None)).
  destruct (save_images write_bytes _ upload_dir doc_id rest) as [[[c' saved] evs] ok].
  exact IH.
Qed.

(** A run that does not complete (the form was not submitted, no file was
    given, or writing an image raised) neither exports nor upserts: the
    documents are as before. *)
Lemma page_upload_incomplete_run (c : conn) (submitted : bool)
  (title : str) (enhance run_now : bool) (files : list str)
  (doc_id created_at : str) (c' : conn) (trace : list event) (o : outcome) :
  page_upload lower_cp image preprocess readtext py_sum UPLOADS_DIR EXPORTS_DIR
    write_bytes export_to_word export_to_excel
    c submitted title enhance run_now files doc_id created_at
  = (c', trace, o) ->
  o <> Completed ->
  Forall image_event trace /\ documents c' = documents c.
Proof.
  unfold page_upload. destruct submitted; simpl negb; cbv iota.
  2:{ intros [= <- <- <-] _. split; [constructor | reflexivity]. }
  destruct files as [|f files'].
  { intros [= <- <- <-] _. split; [constructor | reflexivity]. }
  pose proof (save_images_events c (doc_upload_dir UPLOADS_DIR doc_id) doc_id
                (f :: files')) as Hev.
  pose proof (save_images_documents c (doc_upload_dir UPLOADS_DIR doc_id) doc_id
                (f :: files')) as Hdoc.
  destruct (save_images write_bytes c (doc_upload_dir UPLOADS_DIR doc_id) doc_id
              (f :: files')) as [[[c1 saved] evs_save] ok].
  simpl in Hev, Hdoc. destruct ok; simpl negb; cbv iota.
  - destruct (if run_now
              then ocr_images image preprocess readtext py_sum c1 doc_id enhance saved []
              else (c1, saved, [], [])) as [[[c2 saved2] combined] evs_ocr].
    cbv zeta.
    match goal with
    | |- context [if ?b then (Some _, Some _) else (None, None)] => destruct b
    end; intros [= <- <- <-] Ho; congruence.
  - intros [= <- <- <-] _. auto.
Qed.

End PageUploadProps.

(** *** Two runs of the upload page

    One image, recognized as "ABC"; the exporters return in the first run,
    the Word exporter raises in the second. *)

Lemma example_upload_trace (exporters_return : bool) :
  snd (example_upload exporters_return) = Completed
  /\ snd (fst (example_upload exporters_return))
     = example_image_events
       ++ (if exporters_return then [EvExportWord; EvExportExcel] else [EvExportWord])
       ++ [EvUpsertDocument (example_document exporters_return)].
Proof. destruct exporters_return; split; vm_compute; reflexivity. Qed.

(** The run in which the Word exporter raises: the Document is persisted,
    with null paths. *)
Lemma page_upload_exports_then_persists_witness :
  exported_then_persisted vi_lower_cp [u "data"; u "exports"]
    (fun _ _ _ _ _ _ => false) (fun _ _ _ _ _ => false)
    [] (u "a1b2c3d4e5f6") (u "2024-01-01T00:00:00")
    (fst (fst (example_upload false))) (snd (fst (example_upload false))).
Proof.
  refine (proj1 (page_upload_exports_then_persists vi_lower_cp unit (fun _ => Some tt)
                   (scripted_reader [ {| det_text := u "ABC"; det_conf := conf_0_9 |} ])
                   sum_left [u "data"; u "uploads"] [u "data"; u "exports"]
                   (fun _ => true) (fun _ _ _ _ _ _ => false) (fun _ _ _ _ _ => false)
                   empty_store true [] true true [u "scan 1.png"]
                   (u "a1b2c3d4e5f6") (u "2024-01-01T00:00:00") _ _ _)).
  vm_compute. reflexivity.
Defined.

(** C2, as stated, fails: the run in which the exporters return attempts
    the export before any upsert, and its only upsert carries the export
    paths; no upsert with unset paths precedes the export. *)
Lemma upsert_before_export_counterexample :
  snd (example_upload true) = Completed
  /\ snd (fst (example_upload true))
     = example_image_events
       ++ [EvExportWord; EvExportExcel; EvUpsertDocument (example_document true)]
  /\ k_word_path (example_document true)
     = PyStr (u "/data/exports/a1b2c3d4e5f6/a1b2c3d4e5f6.docx")
  /\ ~ (exists before doc after,
          snd (fst (example_upload true)) = before ++ EvUpsertDocument doc :: after
          /\ ~ In EvExportWord before
          /\ k_word_path doc = PyNone /\ k_excel_path doc = PyNone).
Proof.
  destruct (example_upload_trace true) as [H1 H2].
  split; [exact H1|]. split; [exact H2|]. split; [reflexivity|].
  intros [before [doc [after [E [Hb [Hw _]]]]]]. rewrite H2 in E.
  unfold example_image_events in E. cbn [app] in E.
  destruct before as [|e0 before]; [discriminate|].
  destruct before as [|e1 before]; [discriminate|].
  destruct before as [|e2 before]; [discriminate|].
  injection E as _ _ E2 E. subst e2. apply Hb. right. right. now left.
Qed.

(* ================================================================== *)
(** * Part III. Further properties of the code *)
(* ================================================================== *)

(** ** Whitespace does not matter to the normalizer *)

Lemma words_of_spaces (ws s : str) :
  Forall (fun c => isspace c = true) ws -> words (ws ++ s) = words s.
Proof.
  induction 1 as [|c ws Hc _ IH]; [reflexivity|].
  change ((c :: ws) ++ s) with (c :: (ws ++ s)). now rewrite words_space.
Qed.

Lemma words_app_space (a : str) (c : N) (b : str) :
  isspace c = true -> words (a ++ c :: b) = words a ++ words b.
Proof.
  intros Hc. induction a as [|x a IH].
  - simpl app. now rewrite words_space.
  - change ((x :: a) ++ c :: b) with (x :: (a ++ c :: b)).
    destruct (isspace x) eqn:Ex.
    + now rewrite !(words_space x) by exact Ex.
    + destruct a as [|y a'].
      * simpl app in *. rewrite words_nonspace_space by assumption.
        rewrite IH. simpl. now rewrite Ex.
      * change ((y :: a') ++ c :: b) with (y :: (a' ++ c :: b)) in *.
        destruct (isspace y) eqn:Ey.
        -- rewrite !words_nonspace_space by assumption. now rewrite IH.
        -- rewrite !words_nonspace_nonspace by assumption. rewrite IH.
           pose proof (words_nonempty y a' Ey) as Hne.
           now destruct (words (y :: a')).
Qed.

Lemma words_app_spaces (a ws b : str) :
  ws <> [] -> Forall (fun c => isspace c = true) ws ->
  words (a ++ ws ++ b) = words a ++ words b.
Proof.
  intros Hne Hws. destruct ws as [|c ws]; [congruence|].
  apply Forall_cons_iff in Hws as [Hc Hws].
  change (a ++ (c :: ws) ++ b) with (a ++ c :: (ws ++ b)).
  rewrite words_app_space by exact Hc. now rewrite words_of_spaces.
Qed.

Lemma words_spaces_end (s ws : str) :
  Forall (fun c => isspace c = true) ws -> words (s ++ ws) = words s.
Proof.
  intros Hws. destruct ws as [|c ws]; [now rewrite app_nil_r|].
  rewrite <- (app_nil_r (c :: ws)). rewrite words_app_spaces; auto; [|discriminate].
  apply app_nil_r.
Qed.

Section WhitespaceProps.

Variable lower_cp : N -> list N.
Hypothesis lower_cp_space : forall c, isspace c = true -> lower_cp c = [c].

Lemma lower_spaces (ws : str) :
  Forall (fun c => isspace c = true) ws -> lower lower_cp ws = ws.
Proof.
  induction 1 as [|c ws Hc _ IH]; [reflexivity|].
  unfold lower in *. simpl. now rewrite (lower_cp_space c Hc), IH.
Qed.

Lemma normalize_text_join_words (x : option str) :
  normalize_text lower_cp x = join (u " ") (words (lower lower_cp (or_empty x))).
Proof. unfold normalize_text. cbv zeta. apply strip_collapse_join_words. Qed.


(** X2. A text that is [None], empty or only whitespace is classified
    "Normal". *)
Theorem classify_blank_is_normal (ocr_text : option str) :
  Forall (fun c => isspace c = true) (or_empty ocr_text) ->
  normalize_text lower_cp ocr_text = []
  /\ classify_document lower_cp ocr_text = u "Normal".
Proof.
  intros H.
  assert (E : normalize_text lower_cp ocr_text = []).
  { rewrite normalize_text_join_words, lower_spaces by exact H.
    rewrite <- (app_nil_r (or_empty ocr_text)). now rewrite words_of_spaces. }
  split; [exact E|]. unfold classify_document. cbv zeta. rewrite E. reflexivity.
Qed.

End WhitespaceProps.


(** A text of a space, a tab and a newline. *)
Lemma classify_blank_is_normal_witness :
  classify_document vi_lower_cp (Some [0x20; 0x09; 0x0A]) = u "Normal".
Proof.
  apply (classify_blank_is_normal vi_lower_cp vi_lower_cp_space (Some [0x20; 0x09; 0x0A])).
  repeat constructor.
Defined.

(** ** The classifier's decision *)

Lemma labels_distinct :
  u "Government Telegram" <> u "Invoice"
  /\ u "Government Telegram" <> u "Normal"
  /\ u "Invoice" <> u "Normal".
Proof. repeat split; intros H; vm_compute in H; discriminate. Qed.


(** ** The money pattern, simplified *)

Lemma thousand_groups_last (g : str) :
  thousand_groups g -> exists init d, g = init ++ [d] /\ isdigit d = true.
Proof.
  induction 1 as [sep d1 d2 d3 Hsep Hd | sep d1 d2 d3 g Hsep Hd Hg IH].
  - exists [sep; d1; d2], d3. split; [reflexivity|].
    apply all_digits_cons in Hd as [_ Hd]. apply all_digits_cons in Hd as [_ Hd].
    now apply all_digits_cons in Hd as [Hd _].
  - destruct IH as [init [d [-> H]]].
    exists (sep :: d1 :: d2 :: d3 :: init), d. split; [reflexivity | exact H].
Qed.

Lemma digit_run_last (s : str) :
  digit_run s -> exists init d, s = init ++ [d] /\ isdigit d = true.
Proof.
  intros [Hne Hd]. destruct (exists_last Hne) as [init [d ->]].
  exists init, d. split; [reflexivity|].
  apply Forall_app in Hd as [_ Hd]. now apply all_digits_cons in Hd as [Hd _].
Qed.


(** ** [safe_filename], further *)

Lemma length_lstrip (s : str) : (length (lstrip s) <= length s)%nat.
Proof.
  induction s as [|c s IH]; simpl; [lia|]. destruct (isspace c); simpl; lia.
Qed.

Lemma length_rstrip (s : str) : (length (rstrip s) <= length s)%nat.
Proof.
  induction s as [|c s IH]; simpl; [lia|].
  destruct (rstrip s); [destruct (isspace c)|]; simpl in *; lia.
Qed.

Lemma length_strip (s : str) : (length (strip s) <= length s)%nat.
Proof.
  unfold strip. pose proof (length_rstrip (lstrip s)). pose proof (length_lstrip s). lia.
Qed.

Lemma length_sub_runs (cls : N -> bool) (r : N) (b : bool) (s : str) :
  (length (sub_runs_from cls [r] b s) <= length s)%nat.
Proof.
  revert b. induction s as [|c s IH]; intros b; simpl; [lia|].
  destruct (cls c); [destruct b|]; simpl; [specialize (IH true) | specialize (IH true)
                                          | specialize (IH false)]; lia.
Qed.

Lemma lstrip_strip (s : str) : lstrip (strip s) = strip s.
Proof.
  unfold strip. destruct (lstrip_head s) as [-> | [h [r [-> Hh]]]]; [reflexivity|].
  rewrite rstrip_cons_nonspace by exact Hh. now apply lstrip_fixed.
Qed.

Lemma strip_idem (s : str) : strip (strip s) = strip s.
Proof.
  unfold strip at 1. rewrite lstrip_strip. unfold strip. apply rstrip_idem.
Qed.

Lemma filename_chars_nonspace (s : str) :
  filename_chars s -> forallb nonspace s = true.
Proof.
  intros H. apply forallb_forall. intros c Hc.
  apply (proj1 (Forall_forall _ _) H), is_filename_char_range in Hc.
  apply nonspace_of_nonspace, isspace_false_in. lia.
Qed.

(** X5. Whatever the name, the result of [safe_filename] is made of the
    characters [A-Z a-z 0-9 . _ -] only, so it holds no path separator and
    no whitespace; it has at most 180 characters and is never longer than
    the name. *)
Theorem safe_filename_result_safe (name : str) :
  let fn := safe_filename name in
  Forall (fun c => is_filename_char c = true) fn
  /\ (length fn <= 180)%nat
  /\ (length fn <= length name)%nat
  /\ ~ In 0x2F fn /\ ~ In 0x5C fn
  /\ Forall (fun c => isspace c = false) fn.
Proof.
  intros fn. destruct (safe_filename_shape name) as [Hc Hl]. fold fn in Hc, Hl.
  split; [exact Hc|]. split; [exact Hl|]. split; [|split; [|split]].
  - subst fn. unfold safe_filename. cbv zeta.
    set (s := re_sub_runs _ _ _).
    assert (Hs : (length s <= length name)%nat).
    { subst s. unfold re_sub_runs. change (u "_") with [0x5F].
      etransitivity; [apply length_sub_runs|].
      unfold replace_char. rewrite !length_map. apply length_strip. }
    destruct (180 <? length s)%nat; [rewrite length_firstn|]; lia.
  - intros Hin. apply (proj1 (Forall_forall _ _) Hc), is_filename_char_range in Hin. lia.
  - intros Hin. apply (proj1 (Forall_forall _ _) Hc), is_filename_char_range in Hin. lia.
  - eapply Forall_impl; [|exact Hc]. intros c H. apply is_filename_char_range in H.
    apply isspace_false_in. lia.
Qed.

Lemma safe_filename_strip (name : str) :
  safe_filename (strip name) = safe_filename name.
Proof. unfold safe_filename. now rewrite strip_idem. Qed.

(** X6. [safe_filename] changes only what it must.  The names it returns
    unchanged are exactly the names made of [A-Z a-z 0-9 . _ -] with at most
    180 characters; a name that is such a name once its surrounding
    whitespace is stripped is returned stripped; and sanitizing a sanitized
    name changes nothing. *)
Theorem safe_filename_fixed_points (name : str) :
  (safe_filename name = name
   <-> filename_chars name /\ (length name <= 180)%nat)
  /\ (filename_chars (strip name) -> (length (strip name) <= 180)%nat ->
      safe_filename name = strip name)
  /\ safe_filename (safe_filename name) = safe_filename name.
Proof.
  split; [|split].
  - split.
    + intros E. rewrite <- E. apply safe_filename_shape.
    + intros [Hc Hl]. now apply filename_chars_fixed.
  - intros Hc Hl. rewrite <- safe_filename_strip. now apply filename_chars_fixed.
  - destruct (safe_filename_shape name). now apply filename_chars_fixed.
Qed.

Lemma sub_runs_no_rep (cls : N -> bool) (r : N) (s : str) :
  ~ In r (sub_runs_from cls [r] false s) ->
  sub_runs_from cls [r] false s = s.
Proof.
  induction s as [|c s IH]; intros H; [reflexivity|].
  simpl in *. destruct (cls c).
  - exfalso. apply H. now left.
  - f_equal. apply IH. intros Hin. apply H. now right.
Qed.

Lemma replace_char_no_target (a b : N) (s : str) :
  ~ In b (replace_char a b s) -> replace_char a b s = s.
Proof.
  induction s as [|c s IH]; intros H; [reflexivity|].
  unfold replace_char in *. simpl in *. destruct (N.eqb_spec c a).
  - exfalso. apply H. now left.
  - f_equal. apply IH. intros Hin. apply H. now right.
Qed.

(** A short result without an underscore is the stripped name itself. *)
Lemma safe_filename_untouched (name : str) :
  ~ In 0x5F (safe_filename name) -> (length (safe_filename name) < 180)%nat ->
  safe_filename name = strip name.
Proof.
  unfold safe_filename. cbv zeta. set (s := re_sub_runs _ _ _).
  destruct (Nat.ltb_spec 180 (length s)) as [Hlt | Hle].
  - rewrite length_firstn. lia.
  - intros Hno _. subst s. unfold re_sub_runs in *. change (u "_") with [0x5F] in *.
    rewrite sub_runs_no_rep in * by exact Hno.
    rewrite replace_char_no_target in * by exact Hno.
    now apply replace_char_no_target.
Qed.

Lemma safe_filename_short_target (name target : str) :
  filename_chars target -> ~ In 0x5F target -> (length target < 180)%nat ->
  (safe_filename name = target <-> strip name = target).
Proof.
  intros Hc Hno Hl. split.
  - intros E. rewrite <- E. symmetry. apply safe_filename_untouched; rewrite E; assumption.
  - intros E. rewrite <- safe_filename_strip, E. apply filename_chars_fixed; [exact Hc | lia].
Qed.

Lemma dot_names_short :
  forall target, In target [[]; u "."; u ".."] ->
                 filename_chars target /\ ~ In 0x5F target /\ (length target < 180)%nat.
Proof.
  intros target [<- | [<- | [<- | []]]]; repeat split;
    try (now repeat constructor); try (simpl; lia);
    intros Hin; simpl in Hin; intuition discriminate.
Qed.

(** X7. The only names [safe_filename] turns into the empty name, into
    ["."] or into [".."] are these names themselves, up to whitespace
    around them. *)
Theorem safe_filename_dot_names (name target : str) :
  In target [[]; u "."; u ".."] ->
  (safe_filename name = target <-> strip name = target).
Proof.
  intros H. destruct (dot_names_short target H) as [Hc [Hno Hl]].
  now apply safe_filename_short_target.
Qed.

(** The name " .. " is sanitized to "..". *)
Lemma safe_filename_dot_names_witness :
  safe_filename (u " .. ") = u "..".
Proof.
  apply (safe_filename_dot_names (u " .. ") (u "..")).
  - right. right. now left.
  - reflexivity.
Defined.

(** X8. A name whose stripped form is not empty, ["."] or [".."] is stored
    directly below the upload directory of its document: the path
    [upload_dir / safe_filename(name)] is [upload_dir] with one more
    component, and it resolves to a place strictly inside [upload_dir]. *)
Theorem safe_filename_stays_inside (upload_dir : path) (name : str) :
  strip name <> [] -> strip name <> u "." -> strip name <> u ".." ->
  joinpath upload_dir (safe_filename name) = upload_dir ++ [safe_filename name]
  /\ strictly_inside upload_dir (joinpath upload_dir (safe_filename name)) = true.
Proof.
  intros H0 H1 H2.
  assert (N : forall target, In target [[]; u "."; u ".."] -> strip name <> target ->
                             safe_filename name <> target).
  { intros target Hin Hs E. apply Hs.
    destruct (dot_names_short target Hin) as [Hc [Hno Hl]].
    now apply (safe_filename_short_target name target). }
  apply safe_filename_child; apply N; auto; simpl; auto.
Qed.

(** An upload named "scan 1.png". *)
Lemma safe_filename_stays_inside_witness :
  joinpath [u "data"; u "uploads"; u "a1b2c3d4e5f6"] (safe_filename (u " scan 1.png"))
  = [u "data"; u "uploads"; u "a1b2c3d4e5f6"; u "scan_1.png"].
Proof.
  refine (proj1 (safe_filename_stays_inside
                   [u "data"; u "uploads"; u "a1b2c3d4e5f6"] (u " scan 1.png") _ _ _));
    intros H; vm_compute in H; discriminate.
Defined.

(** ** The store: how writes compose *)

Lemma insert_or_update_twice (r1 r2 : document_row) (rows : list document_row) :
  d_id r1 = d_id r2 ->
  insert_or_update r2 (insert_or_update r1 rows) = insert_or_update r2 rows.
Proof.
  intros E. induction rows as [|x rows IH]; simpl.
  - now rewrite E, str_eqb_refl.
  - rewrite E. destruct (str_eqb (d_id x) (d_id r2)) eqn:Ex; simpl.
    + now rewrite E, str_eqb_refl.
    + now rewrite Ex, IH.
Qed.

Lemma filter_not_id_twice (id : str) (index : list fts_row) (f : fts_row) :
  f_document_id f = id ->
  filter (fun g => negb (str_eqb (f_document_id g) id))
    (filter (fun g => negb (str_eqb (f_document_id g) id)) index ++ [f])
  = filter (fun g => negb (str_eqb (f_document_id g) id)) index.
Proof.
  intros E. rewrite filter_app, filter_idem. simpl.
  rewrite E, str_eqb_refl. simpl. apply app_nil_r.
Qed.

(** X9. The last upsert of an id wins: upserting two payloads of the same
    id one after the other leaves the store as upserting the second alone,
    for the document row and for the index entry. *)
Theorem upsert_document_last_wins (c : conn) (doc1 doc2 : doc_dict) :
  k_id doc1 = k_id doc2 ->
  upsert_document (upsert_document c doc1) doc2 = upsert_document c doc2.
Proof.
  intros E. unfold upsert_document. cbv zeta. simpl. f_equal.
  - now apply insert_or_update_twice.
  - destruct (documents_fts c) as [index|]; [|reflexivity].
    f_equal. f_equal. rewrite <- E. now apply filter_not_id_twice.
Qed.

(** A second upsert that fills in the export paths. *)
Lemma upsert_document_last_wins_witness :
  upsert_document (upsert_document example_store (example_document false))
    (example_document true)
  = upsert_document example_store (example_document true).
Proof. apply upsert_document_last_wins. reflexivity. Defined.

Lemma insert_or_update_ids (r : document_row) (rows : list document_row) :
  NoDup (map d_id rows) ->
  NoDup (map d_id (insert_or_update r rows))
  /\ forall id, In id (map d_id (insert_or_update r rows))
                <-> id = d_id r \/ In id (map d_id rows).
Proof.
  induction rows as [|x rows IH]; intros Hnd; simpl.
  - split; [repeat constructor; auto | intros id; simpl; intuition].
  - apply NoDup_cons_iff in Hnd as [Hx Hnd]. destruct (IH Hnd) as [IH1 IH2].
    destruct (str_eqb (d_id x) (d_id r)) eqn:E; simpl.
    + apply str_eqb_eq in E. rewrite <- E. split.
      * now constructor.
      * intros id. intuition.
    + apply str_eqb_neq in E. split.
      * constructor; [|exact IH1]. rewrite IH2. intuition.
      * intros id. rewrite IH2. intuition.
Qed.

Lemma length_insert_or_update (r : document_row) (rows : list document_row) :
  length (insert_or_update r rows)
  = if existsb (fun d => str_eqb (d_id d) (d_id r)) rows
    then length rows else S (length rows).
Proof.
  induction rows as [|x rows IH]; simpl; [reflexivity|].
  destruct (str_eqb (d_id x) (d_id r)); simpl; [reflexivity|].
  rewrite IH. now destruct (existsb _ rows).
Qed.

Lemma filter_not_id_ids (id : str) (index : list fts_row) (f : fts_row) :
  f_document_id f = id ->
  NoDup (map f_document_id index) ->
  NoDup (map f_document_id
           (filter (fun g => negb (str_eqb (f_document_id g) id)) index ++ [f]))
  /\ forall id', In id' (map f_document_id
                         (filter (fun g => negb (str_eqb (f_document_id g) id)) index
                          ++ [f]))
                 <-> id' = id \/ In id' (map f_document_id index).
Proof.
  intros E Hnd.
  assert (Hin : forall id', In id' (map f_document_id
                 (filter (fun g => negb (str_eqb (f_document_id g) id)) index))
                            <-> id' <> id /\ In id' (map f_document_id index)).
  { intros id'. rewrite !in_map_iff. split.
    - intros [g [<- Hg]]. apply filter_In in Hg as [Hg Hne].
      apply negb_true_iff, str_eqb_neq in Hne. split; [exact Hne | eauto].
    - intros [Hne [g [<- Hg]]]. exists g. split; [reflexivity|].
      apply filter_In. split; [exact Hg|]. now apply negb_true_iff, str_eqb_neq. }
  split.
  - rewrite map_app. simpl.
    assert (Hf : NoDup (map f_document_id
                   (filter (fun g => negb (str_eqb (f_document_id g) id)) index))).
    { clear Hin. induction index as [|g index IH]; simpl; [constructor|].
      apply NoDup_cons_iff in Hnd as [Hg Hnd].
      destruct (negb (str_eqb (f_document_id g) id)); simpl; [|now apply IH].
      constructor; [|now apply IH]. intros Hin. apply Hg.
      apply in_map_iff in Hin as [h [Eh Hh]]. apply filter_In in Hh as [Hh _].
      apply in_map_iff. eauto. }
    rewrite E. apply NoDup_app; [exact Hf | repeat constructor; auto |].
    intros a Ha [<-|[]]. apply Hin in Ha. intuition.
  - intros id'. rewrite map_app, in_app_iff, Hin. simpl. rewrite E.
    destruct (list_eq_dec N.eq_dec id' id); intuition.
Qed.

(** X10. The store keeps its index in step with its documents: if every
    Document id is stored once and the index holds exactly one entry per
    Document, the same is true after [upsert_document] (which adds a row
    only when the id is new), after [insert_image] and after
    [update_image_ocr]. *)
Theorem index_mirrors_documents_kept (c : conn) :
  index_mirrors_documents c ->
  (forall doc,
     index_mirrors_documents (upsert_document c doc)
     /\ length (documents (upsert_document c doc))
        = if existsb (fun d => str_eqb (d_id d) (k_id doc)) (documents c)
          then length (documents c) else S (length (documents c)))
  /\ (forall document_id filename stored_path ocr_text,
        index_mirrors_documents
          (insert_image c document_id filename stored_path ocr_text))
  /\ (forall document_id stored_path text,
        index_mirrors_documents (update_image_ocr c document_id stored_path text)).
Proof.
  intros [Hd Hi]. split; [|split; intros; split; assumption].
  intros doc. split; [|apply length_insert_or_update].
  unfold index_mirrors_documents, upsert_document. cbv zeta. simpl.
  match goal with
  | |- context [insert_or_update ?r _] =>
      destruct (insert_or_update_ids r (documents c) Hd) as [N1 N2]
  end.
  split; [exact N1|]. intros index' E.
  destruct (documents_fts c) as [index|]; [|discriminate].
  destruct (Hi index eq_refl) as [Hn Hm]. injection E as <-.
  match goal with
  | |- context [filter _ index ++ [?f]] =>
      destruct (filter_not_id_ids (k_id doc) index f eq_refl Hn) as [F1 F2]
  end.
  split; [exact F1|]. intros id. rewrite F2, N2, Hm. simpl. reflexivity.
Qed.

(** From the empty store, one upsert. *)
Lemma index_mirrors_documents_kept_witness :
  index_mirrors_documents (upsert_document empty_store (example_document false)).
Proof.
  refine (proj1 (proj1 (index_mirrors_documents_kept empty_store _)
                   (example_document false))).
  split; [constructor|]. intros index [= <-]. split; [constructor|]. reflexivity.
Defined.

(** ** The images table *)

Lemma sorted_app_last (l : list N) (x : N) :
  StronglySorted N.lt l -> Forall (fun y => y < x) l ->
  StronglySorted N.lt (l ++ [x]).
Proof.
  induction l as [|a l IH]; intros Hs Hf; simpl.
  - repeat constructor.
  - apply StronglySorted_inv in Hs as [Hs Ha].
    apply Forall_cons_iff in Hf as [Hax Hf].
    constructor; [now apply IH|].
    apply Forall_app. split; [exact Ha | now repeat constructor].
Qed.

Lemma sorted_filter_ids (f : image_row -> bool) (rows : list image_row) :
  StronglySorted N.lt (map i_id rows) ->
  StronglySorted N.lt (map i_id (filter f rows)).
Proof.
  induction rows as [|r rows IH]; simpl; intros Hs; [constructor|].
  apply StronglySorted_inv in Hs as [Hs Hr].
  destruct (f r); simpl; [|now apply IH].
  constructor; [now apply IH|].
  rewrite Forall_forall in *. intros y Hy. apply Hr.
  apply in_map_iff in Hy as [z [<- Hz]]. apply filter_In in Hz as [Hz _].
  apply in_map_iff. eauto.
Qed.

Lemma sorted_lt_NoDup (l : list N) : StronglySorted N.lt l -> NoDup l.
Proof.
  induction 1 as [|a l Hs IH Ha]; constructor; [|exact IH].
  intros Hin. rewrite Forall_forall in Ha. specialize (Ha a Hin). lia.
Qed.

Lemma update_image_ocr_ids (c : conn) (document_id stored_path text : str) :
  map i_id (images (update_image_ocr c document_id stored_path text))
  = map i_id (images c).
Proof.
  unfold update_image_ocr. simpl. rewrite map_map. apply map_ext.
  intros r. now destruct (_ && _).
Qed.

(** X11. Image ids: in a store whose images are in increasing id below the
    AUTOINCREMENT counter, [insert_image] gives the new row an id no stored
    image has, keeps the table in that state, appends the row to the images
    [get_images_by_doc] returns for its Document and changes that result for
    no other Document; [update_image_ocr] and [upsert_document] keep the
    state too, and [get_images_by_doc] returns rows in increasing id. *)
Theorem insert_image_fresh_id (c : conn) (document_id filename stored_path : str)
  (ocr_text : value) :
  image_ids_ok c ->
  let c' := insert_image c document_id filename stored_path ocr_text in
  let row := {| i_id := images_seq c + 1; i_document_id := document_id;
                i_filename := filename; i_stored_path := stored_path;
                i_ocr_text := ocr_text |} in
  image_ids_ok c'
  /\ ~ In (i_id row) (map i_id (images c))
  /\ get_images_by_doc c' document_id = get_images_by_doc c document_id ++ [row]
  /\ (forall other, other <> document_id ->
        get_images_by_doc c' other = get_images_by_doc c other)
  /\ (forall d s t, image_ids_ok (update_image_ocr c d s t))
  /\ (forall doc, image_ids_ok (upsert_document c doc))
  /\ (forall doc_id, StronglySorted N.lt (map i_id (get_images_by_doc c doc_id))).
Proof.
  intros [Hs Hb]. cbv zeta.
  assert (Hlt : Forall (fun y => y < images_seq c + 1) (map i_id (images c))).
  { rewrite Forall_forall in *. intros y Hy.
    apply in_map_iff in Hy as [r [<- Hr]]. specialize (Hb r Hr). lia. }
  repeat apply conj.
  - unfold insert_image. simpl. rewrite map_app. simpl.
    now apply sorted_app_last.
  - unfold insert_image. simpl. apply Forall_app. split.
    + rewrite Forall_forall in *. intros r Hr. specialize (Hb r Hr). lia.
    + repeat constructor. simpl. lia.
  - simpl. intros Hin. rewrite Forall_forall in Hlt. specialize (Hlt _ Hin). lia.
  - unfold get_images_by_doc, insert_image. simpl. rewrite filter_app. simpl.
    now rewrite str_eqb_refl.
  - intros other Hne. unfold get_images_by_doc, insert_image. simpl.
    rewrite filter_app. simpl.
    destruct (str_eqb document_id other) eqn:E.
    + apply str_eqb_eq in E. congruence.
    + apply app_nil_r.
  - intros d s t. split.
    + now rewrite update_image_ocr_ids.
    + unfold update_image_ocr. simpl. rewrite Forall_map.
      rewrite Forall_forall in *. intros r Hr. specialize (Hb r Hr).
      now destruct (_ && _).
  - intros doc. split; assumption.
  - intros doc_id. now apply sorted_filter_ids.
Qed.

(** A second image of the stored Document. *)
Lemma insert_image_fresh_id_witness :
  image_ids_ok
    (insert_image example_store (u "a1b2c3d4e5f6") (u "p2.png")
       (u "/data/uploads/a1b2c3d4e5f6/p2.png") None).
Proof.
  refine (proj1 (insert_image_fresh_id example_store (u "a1b2c3d4e5f6") (u "p2.png")
                   (u "/data/uploads/a1b2c3d4e5f6/p2.png") None _)).
  split.
  - vm_compute. repeat constructor.
  - vm_compute. repeat constructor; discriminate.
Defined.

(** X12. What [update_image_ocr] changes: the documents, the index and the
    id counter are kept; each image is kept as it is unless it belongs to the
    given Document and is stored at the given path, and then only its text
    is replaced; every Document keeps the images [get_images_by_doc] lists
    for it; a later update with the same key overrides an earlier one, and
    updates with different keys can be made in either order. *)
Theorem update_image_ocr_effect (c : conn) (document_id stored_path text : str) :
  let c' := update_image_ocr c document_id stored_path text in
  documents c' = documents c
  /\ documents_fts c' = documents_fts c
  /\ images_seq c' = images_seq c
  /\ Forall2 (fun old new =>
                new = if image_key_is document_id stored_path old
                      then set_ocr_text old text else old)
       (images c) (images c')
  /\ (forall doc_id,
        map i_id (get_images_by_doc c' doc_id) = map i_id (get_images_by_doc c doc_id))
  /\ (forall text2,
        update_image_ocr c' document_id stored_path text2
        = update_image_ocr c document_id stored_path text2)
  /\ (forall document_id2 stored_path2 text2,
        document_id2 <> document_id \/ stored_path2 <> stored_path ->
        update_image_ocr c' document_id2 stored_path2 text2
        = update_image_ocr (update_image_ocr c document_id2 stored_path2 text2)
            document_id stored_path text).
Proof.
  cbv zeta. repeat apply conj; try reflexivity.
  - unfold update_image_ocr. simpl.
    induction (images c) as [|r rows IH]; simpl; constructor; [reflexivity | exact IH].
  - intros doc_id. unfold get_images_by_doc, update_image_ocr. simpl.
    induction (images c) as [|r rows IH]; simpl; [reflexivity|].
    destruct (str_eqb (i_document_id r) document_id
              && str_eqb (i_stored_path r) stored_path); simpl;
      destruct (str_eqb (i_document_id r) doc_id); simpl; now rewrite ?IH.
  - intros text2. unfold update_image_ocr. simpl. f_equal.
    rewrite map_map. apply map_ext. intros r.
    destruct (str_eqb (i_document_id r) document_id
              && str_eqb (i_stored_path r) stored_path) eqn:E; simpl.
    + now rewrite E.
    + now rewrite E.
  - intros d2 p2 text2 Hne. unfold update_image_ocr. simpl. f_equal.
    rewrite !map_map. apply map_ext. intros r.
    destruct (str_eqb (i_document_id r) document_id) eqn:E1;
      destruct (str_eqb (i_stored_path r) stored_path) eqn:E2;
      destruct (str_eqb (i_document_id r) d2) eqn:E3;
      destruct (str_eqb (i_stored_path r) p2) eqn:E4;
      simpl; rewrite ?E1, ?E2, ?E3, ?E4; simpl; try reflexivity.
    apply str_eqb_eq in E1, E2, E3, E4. destruct Hne; congruence.
Qed.

(** ** Ordered results *)

Section InsertDescProps.

Variable A : Type.
Variable leb : A -> A -> bool.
Hypothesis leb_total : forall a b, leb a b = false -> leb b a = true.
Hypothesis leb_trans : forall a b c, leb a b = true -> leb b c = true -> leb a c = true.

Lemma In_insert_before (x r : A) (l : list A) :
  In x (insert_before leb r l) <-> x = r \/ In x l.
Proof.
  induction l as [|y l IH]; simpl.
  - intuition.
  - destruct (leb y r); simpl; [intuition | rewrite IH; intuition].
Qed.

Lemma insert_before_descending (r : A) (l : list A) :
  descending leb l -> descending leb (insert_before leb r l).
Proof.
  unfold descending. induction l as [|y l IH]; intros Hs; simpl.
  - repeat constructor.
  - apply StronglySorted_inv in Hs as [Hs Hy].
    destruct (leb y r) eqn:E.
    + constructor; [now constructor|]. constructor; [exact E|].
      rewrite Forall_forall in *. intros z Hz. eauto.
    + constructor; [now apply IH|].
      rewrite Forall_forall in *. intros z Hz.
      apply In_insert_before in Hz as [-> | Hz]; auto.
Qed.

Lemma insert_before_perm (r : A) (l : list A) :
  Permutation (r :: l) (insert_before leb r l).
Proof.
  induction l as [|y l IH]; simpl; [reflexivity|].
  destruct (leb y r); [reflexivity|].
  rewrite perm_swap. now constructor.
Qed.

Lemma fold_insert_before_descending (l : list A) :
  descending leb (fold_right (insert_before leb) [] l).
Proof.
  induction l as [|x l IH]; simpl; [constructor|].
  now apply insert_before_descending.
Qed.

Lemma fold_insert_before_perm (l : list A) :
  Permutation l (fold_right (insert_before leb) [] l).
Proof.
  induction l as [|x l IH]; simpl; [reflexivity|].
  rewrite <- insert_before_perm. now constructor.
Qed.

End InsertDescProps.

Lemma descending_firstn {A} (leb : A -> A -> bool) (n : nat) (l : list A) :
  descending leb l -> descending leb (firstn n l).
Proof.
  unfold descending. revert n. induction l as [|x l IH]; intros n Hs.
  - now destruct n.
  - destruct n; simpl; [constructor|].
    apply StronglySorted_inv in Hs as [Hs Hx].
    constructor; [now apply IH|].
    rewrite Forall_forall in *. intros z Hz. apply Hx.
    rewrite <- (firstn_skipn n l). apply in_or_app. now left.
Qed.

Lemma descending_skipn {A} (leb : A -> A -> bool) (n : nat) (l : list A) :
  descending leb l -> descending leb (skipn n l).
Proof.
  unfold descending. revert n. induction l as [|x l IH]; intros n Hs.
  - now destruct n.
  - destruct n; simpl; [exact Hs|].
    apply StronglySorted_inv in Hs as [Hs _]. now apply IH.
Qed.

Lemma descending_sql_limit {A} (leb : A -> A -> bool) (limit : Z) (l : list A) :
  descending leb l -> descending leb (sql_limit limit l).
Proof.
  intros H. unfold sql_limit. destruct (limit <? 0)%Z; [exact H|].
  now apply descending_firstn.
Qed.

Lemma descending_sql_offset {A} (leb : A -> A -> bool) (offset : Z) (l : list A) :
  descending leb l -> descending leb (sql_offset offset l).
Proof.
  intros H. unfold sql_offset. destruct (offset <? 0)%Z; [exact H|].
  now apply descending_skipn.
Qed.

Lemma In_sql_offset {A} (offset : Z) (x : A) (l : list A) :
  In x (sql_offset offset l) -> In x l.
Proof.
  unfold sql_offset. destruct (offset <? 0)%Z; [auto|].
  intros H. rewrite <- (firstn_skipn (Z.to_nat offset) l).
  apply in_or_app. now right.
Qed.

Lemma str_leb_total (a b : str) : str_leb a b = false -> str_leb b a = true.
Proof.
  revert b. induction a as [|x a IH]; intros [|y b]; simpl; try easy.
  intros H. apply orb_false_iff in H as [H1 H2].
  apply N.ltb_ge in H1. apply andb_false_iff in H2.
  destruct (N.eq_dec x y) as [-> | Hne].
  - destruct H2 as [H2 | H2]; [now rewrite N.eqb_refl in H2|].
    rewrite N.eqb_refl, (IH b H2). apply orb_true_r.
  - apply orb_true_iff. left. apply N.ltb_lt. lia.
Qed.

Lemma str_leb_trans (a b c : str) :
  str_leb a b = true -> str_leb b c = true -> str_leb a c = true.
Proof.
  revert b c. induction a as [|x a IH]; intros [|y b] [|z c]; simpl; try easy.
  rewrite !orb_true_iff, !andb_true_iff, !N.ltb_lt, !N.eqb_eq.
  intros [H1 | [-> H1]] [H2 | [-> H2]].
  - left. lia.
  - now left.
  - now left.
  - right. split; [reflexivity | eauto].
Qed.

Lemma created_at_leb_total (a b : document_row) :
  created_at_leb a b = false -> created_at_leb b a = true.
Proof.
  unfold created_at_leb.
  destruct (d_created_at a), (d_created_at b); simpl; try easy.
  apply str_leb_total.
Qed.

Lemma created_at_leb_trans (a b c : document_row) :
  created_at_leb a b = true -> created_at_leb b c = true ->
  created_at_leb a c = true.
Proof.
  unfold created_at_leb.
  destruct (d_created_at a), (d_created_at b), (d_created_at c); simpl; try easy.
  apply str_leb_trans.
Qed.

Lemma order_by_created_at_desc_fold (rows : list document_row) :
  order_by_created_at_desc rows
  = fold_right (insert_before created_at_leb) [] rows.
Proof.
  unfold order_by_created_at_desc.
  induction rows as [|r rows IH]; simpl; [reflexivity|]. rewrite IH.
  generalize (fold_right (insert_before created_at_leb) [] rows).
  intros l. induction l as [|x l IHl]; simpl; [reflexivity|].
  unfold created_at_leb at 1. now rewrite IHl.
Qed.

Lemma order_by_created_at_desc_descending (rows : list document_row) :
  descending created_at_leb (order_by_created_at_desc rows).
Proof.
  rewrite order_by_created_at_desc_fold.
  apply fold_insert_before_descending;
    [apply created_at_leb_total | apply created_at_leb_trans].
Qed.

Lemma order_by_created_at_desc_perm (rows : list document_row) :
  Permutation rows (order_by_created_at_desc rows).
Proof.
  rewrite order_by_created_at_desc_fold. apply fold_insert_before_perm.
Qed.

Lemma type_filter_label (t : str) (d : document_row) :
  t <> [] -> t <> u "All" ->
  type_filter (Some t) d = true <-> d_doc_type d = Some t.
Proof.
  intros H1 H2. unfold type_filter.
  apply str_eqb_neq in H1, H2. rewrite H1, H2. simpl.
  unfold sql_eq. destruct (d_doc_type d) as [x|].
  - rewrite str_eqb_eq. split; congruence.
  - split; discriminate.
Qed.

(** X13. [get_documents] lists stored Documents only, newest [created_at]
    first (a Document without one last); with a type other than ["All"]
    and the empty string it lists Documents of that type only, and with
    ["All"], the empty string or no type it leaves none out; it returns at
    most [limit] rows, and with a negative limit and no offset every
    Document that passes the type filter, as often as it is stored. *)
Theorem get_documents_ordered (c : conn) (doc_type : option str) (limit offset : Z) :
  descending created_at_leb (get_documents c doc_type limit offset)
  /\ (forall d, In d (get_documents c doc_type limit offset) ->
        In d (documents c)
        /\ forall t, doc_type = Some t -> t <> [] -> t <> u "All" ->
                     d_doc_type d = Some t)
  /\ ((0 <= limit)%Z ->
      (Z.of_nat (length (get_documents c doc_type limit offset)) <= limit)%Z)
  /\ ((limit < 0)%Z -> (offset <= 0)%Z ->
      Permutation (filter (type_filter doc_type) (documents c))
        (get_documents c doc_type limit offset))
  /\ (doc_type = None \/ doc_type = Some [] \/ doc_type = Some (u "All") ->
      filter (type_filter doc_type) (documents c) = documents c).
Proof.
  unfold get_documents. repeat apply conj.
  - apply descending_sql_limit, descending_sql_offset,
      order_by_created_at_desc_descending.
  - intros d Hd. apply In_sql_limit, In_sql_offset in Hd.
    apply (proj1 (In_order_by _ _)) in Hd.
    apply filter_In in Hd as [Hd Hf]. split; [exact Hd|].
    intros t -> H1 H2. now apply type_filter_label in Hf.
  - apply length_sql_limit.
  - intros Hl Ho. rewrite sql_limit_all by now left.
    unfold sql_offset. destruct (offset <? 0)%Z eqn:E.
    + apply order_by_created_at_desc_perm.
    + apply Z.ltb_ge in E. replace offset with 0%Z by lia. simpl.
      apply order_by_created_at_desc_perm.
  - intros H. assert (E : forall d, type_filter doc_type d = true).
    { intros d. destruct H as [-> | [-> | ->]]; reflexivity. }
    induction (documents c) as [|d l IH]; simpl; [reflexivity|].
    now rewrite E, IH.
Qed.

Section SearchProps.

Variable fts5_match : str -> option (fts_row -> bool).

Lemma search_documents_result_length (c : conn) (query : str)
  (doc_type : option str) (limit : Z) :
  (0 <= limit)%Z ->
  (Z.of_nat (length (search_documents fts5_match c query doc_type limit))
   <= limit)%Z.
Proof.
  unfold search_documents, search_documents_fts, search_documents_like. cbv zeta.
  destruct (documents_fts c) as [index|];
    [destruct (fts5_match (strip query)) as [matches|]|];
    apply length_sql_limit.
Qed.

(** X14. Whichever path answers, [search_documents] returns stored
    Documents only, each passing the type filter, newest [created_at]
    first, and at most [limit] of them. *)
Theorem search_documents_result (c : conn) (query : str) (doc_type : option str)
  (limit : Z) :
  descending created_at_leb (search_documents fts5_match c query doc_type limit)
  /\ (forall d, In d (search_documents fts5_match c query doc_type limit) ->
        In d (documents c) /\ type_filter doc_type d = true)
  /\ ((0 <= limit)%Z ->
      (Z.of_nat (length (search_documents fts5_match c query doc_type limit))
       <= limit)%Z).
Proof.
  unfold search_documents, search_documents_fts, search_documents_like. cbv zeta.
  destruct (documents_fts c) as [index|];
    [destruct (fts5_match (strip query)) as [matches|]|].
  - repeat apply conj.
    + apply descending_sql_limit, order_by_created_at_desc_descending.
    + intros d Hd. apply In_sql_limit in Hd.
      apply (proj1 (In_order_by _ _)) in Hd.
      apply in_flat_map in Hd as [f [_ Hd]]. apply filter_In in Hd as [Hd Hf].
      apply andb_true_iff in Hf as [_ Hf]. now split.
    + apply length_sql_limit.
  - repeat apply conj.
    + apply descending_sql_limit, order_by_created_at_desc_descending.
    + intros d Hd. apply In_sql_limit in Hd.
      apply (proj1 (In_order_by _ _)) in Hd.
      unfold like_candidates in Hd. apply filter_In in Hd as [Hd Hf].
      apply andb_true_iff in Hf as [Hf _]. now split.
    + apply length_sql_limit.
  - repeat apply conj.
    + apply descending_sql_limit, order_by_created_at_desc_descending.
    + intros d Hd. apply In_sql_limit in Hd.
      apply (proj1 (In_order_by _ _)) in Hd.
      unfold like_candidates in Hd. apply filter_In in Hd as [Hd Hf].
      apply andb_true_iff in Hf as [Hf _]. now split.
    + apply length_sql_limit.
Qed.

End SearchProps.

(** ** The substring scan *)

(** A text that starts with [q] up to the case of ASCII letters matches
    the pattern [q%]. *)
Lemma sql_like_startswith_fold (q text : str) :
  startswith (ascii_fold_str text) (ascii_fold_str q) = true ->
  sql_like (q ++ [0x25]) text = true.
Proof.
  revert text. induction q as [|p q IH]; intros text H.
  - apply sql_like_any.
  - destruct text as [|c text]; [discriminate|].
    simpl in H. apply andb_true_iff in H as [Hp Hq].
    specialize (IH text Hq). change ((p :: q) ++ [0x25]) with (p :: (q ++ [0x25])).
    destruct (N.eq_dec p 0x25) as [-> | Hne].
    + rewrite sql_like_percent. apply orb_true_iff. right.
      rewrite sql_like_percent. now rewrite IH.
    + rewrite sql_like_cons by exact Hne.
      now rewrite Hp, orb_true_r, IH.
Qed.

Lemma sql_like_contains_fold (q text : str) :
  str_in (ascii_fold_str q) (ascii_fold_str text) = true ->
  sql_like (u "%" ++ q ++ u "%") text = true.
Proof.
  change (u "%" ++ q ++ u "%") with (0x25 :: (q ++ [0x25])).
  induction text as [|c t IH]; intros H; rewrite sql_like_percent.
  - simpl in H. rewrite orb_false_r in H.
    now rewrite (sql_like_startswith_fold q []).
  - cbn [ascii_fold_str map str_in] in H. apply orb_true_iff in H as [H | H].
    + now rewrite (sql_like_startswith_fold q (c :: t)).
    + rewrite (IH H). apply orb_true_r.
Qed.

Lemma sql_like_blank (text : str) : sql_like (u "%" ++ [] ++ u "%") text = true.
Proof.
  change (u "%" ++ [] ++ u "%") with (0x25 :: [0x25]).
  rewrite sql_like_percent, sql_like_any. reflexivity.
Qed.

Lemma filter_all {A} (f : A -> bool) (l : list A) :
  (forall x, In x l -> f x = true) -> filter f l = l.
Proof.
  induction l as [|x l IH]; simpl; intros H; [reflexivity|].
  rewrite (H x) by now left. f_equal. apply IH. auto.
Qed.

Lemma order_by_id_desc_fold (rows : list image_row) :
  order_by_id_desc rows = fold_right (insert_before image_id_leb) [] rows.
Proof.
  unfold order_by_id_desc.
  induction rows as [|r rows IH]; simpl; [reflexivity|]. rewrite IH.
  generalize (fold_right (insert_before image_id_leb) [] rows).
  intros l. induction l as [|x l IHl]; simpl; [reflexivity|].
  unfold image_id_leb at 1. now rewrite IHl.
Qed.

Lemma image_id_leb_total (a b : image_row) :
  image_id_leb a b = false -> image_id_leb b a = true.
Proof. unfold image_id_leb. intros H. apply N.leb_gt in H. apply N.leb_le. lia. Qed.

Lemma image_id_leb_trans (a b c : image_row) :
  image_id_leb a b = true -> image_id_leb b c = true -> image_id_leb a c = true.
Proof. unfold image_id_leb. rewrite !N.leb_le. lia. Qed.

Lemma In_order_by_id_desc (x : image_row) (rows : list image_row) :
  In x (order_by_id_desc rows) <-> In x rows.
Proof.
  rewrite order_by_id_desc_fold. split; intros H.
  - eapply Permutation_in; [symmetry; apply fold_insert_before_perm | exact H].
  - eapply Permutation_in; [apply fold_insert_before_perm | exact H].
Qed.

Section ScanProps.

Variable fts5_match : str -> option (fts_row -> bool).


End ScanProps.


(** X16. A query of whitespace only selects everything: the scan then
    returns what [get_documents] returns for the same type and limit, and
    [search_images] returns the images from the highest id down, cut at the
    limit. *)
Theorem blank_query_lists_everything (c : conn) (query : str) :
  strip query = [] ->
  (forall doc_type limit,
     search_documents_like c query doc_type limit = get_documents c doc_type limit 0)
  /\ (forall limit,
        search_images c query limit = sql_limit limit (order_by_id_desc (images c))).
Proof.
  intros E. split.
  - intros doc_type limit.
    unfold search_documents_like, get_documents, like_candidates. cbv zeta.
    rewrite E. unfold sql_offset. simpl skipn. cbn [Z.ltb Z.compare].
    f_equal. f_equal. apply filter_ext. intros d.
    now rewrite sql_like_blank, andb_true_r.
  - intros limit. unfold search_images. cbv zeta. rewrite E.
    f_equal. f_equal. apply filter_all. intros r _.
    now rewrite sql_like_blank.
Qed.

Lemma blank_query_lists_everything_witness :
  search_documents_like example_store (u "  ") (Some (u "Invoice")) 200
  = get_documents example_store (Some (u "Invoice")) 200 0.
Proof.
  apply (proj1 (blank_query_lists_everything example_store (u "  ") eq_refl)).
Defined.


(** ** Counting by type *)

Lemma value_eqb_eq (a b : value) : value_eqb a b = true <-> a = b.
Proof.
  destruct a as [x|], b as [y|]; simpl; try (split; [discriminate | congruence]).
  - rewrite str_eqb_eq. split; congruence.
  - split; reflexivity.
Qed.

Lemma value_eqb_refl (a : value) : value_eqb a a = true.
Proof. now apply value_eqb_eq. Qed.

Lemma value_eqb_neq (a b : value) : value_eqb a b = false <-> a <> b.
Proof.
  rewrite <- value_eqb_eq. destruct (value_eqb a b); split; congruence.
Qed.

Lemma list_sum_perm (l l' : list nat) :
  Permutation l l' -> list_sum l = list_sum l'.
Proof. induction 1; simpl; lia. Qed.

Lemma sum_count_in_group (v : value) (groups : list (value * nat)) :
  list_sum (map snd (count_in_group v groups)) = S (list_sum (map snd groups)).
Proof.
  induction groups as [|[w n] gs IH]; simpl; [reflexivity|].
  destruct (value_eqb w v); simpl; [reflexivity | rewrite IH; lia].
Qed.

Lemma count_of_count_in_group (w v : value) (groups : list (value * nat)) :
  count_of w (count_in_group v groups)
  = if value_eqb v w then S (count_of w groups) else count_of w groups.
Proof.
  unfold count_of. induction groups as [|[x n] gs IH]; simpl.
  - now destruct (value_eqb v w).
  - destruct (value_eqb x v) eqn:Exv; simpl.
    + apply value_eqb_eq in Exv. subst x.
      now destruct (value_eqb v w).
    + destruct (value_eqb x w) eqn:Exw; [|exact IH].
      apply value_eqb_eq in Exw. subst x. apply value_eqb_neq in Exv.
      assert (E : value_eqb v w = false) by (apply value_eqb_neq; congruence).
      now rewrite E.
Qed.

Lemma keys_count_in_group (w v : value) (groups : list (value * nat)) :
  In w (map fst (count_in_group v groups)) <-> w = v \/ In w (map fst groups).
Proof.
  induction groups as [|[x n] gs IH]; simpl.
  - intuition.
  - destruct (value_eqb x v) eqn:E; simpl.
    + apply value_eqb_eq in E. subst x. intuition.
    + rewrite IH. intuition.
Qed.

Lemma keys_count_in_group_NoDup (v : value) (groups : list (value * nat)) :
  NoDup (map fst groups) -> NoDup (map fst (count_in_group v groups)).
Proof.
  induction groups as [|[x n] gs IH]; simpl; intros H.
  - repeat constructor. auto.
  - apply NoDup_cons_iff in H as [Hx H].
    destruct (value_eqb x v) eqn:E; simpl.
    + now constructor.
    + constructor; [|now apply IH]. rewrite keys_count_in_group.
      apply value_eqb_neq in E. intuition.
Qed.

Lemma positive_count_in_group (v : value) (groups : list (value * nat)) :
  Forall (fun g => (1 <= snd g)%nat) groups ->
  Forall (fun g => (1 <= snd g)%nat) (count_in_group v groups).
Proof.
  induction groups as [|[x n] gs IH]; simpl; intros H.
  - repeat constructor.
  - apply Forall_cons_iff in H as [Hn H].
    destruct (value_eqb x v); constructor; simpl in *; auto; lia.
Qed.

Lemma count_of_member (w : value) (n : nat) (groups : list (value * nat)) :
  NoDup (map fst groups) -> In (w, n) groups -> count_of w groups = n.
Proof.
  unfold count_of. induction groups as [|[x m] gs IH]; simpl; intros Hnd Hin; [easy|].
  apply NoDup_cons_iff in Hnd as [Hx Hnd]. destruct Hin as [E | Hin].
  - injection E as -> ->. now rewrite value_eqb_refl.
  - destruct (value_eqb x w) eqn:E; [|now apply IH].
    apply value_eqb_eq in E. subst x. exfalso. apply Hx.
    apply in_map_iff. now exists (w, n).
Qed.

Lemma member_of_count_of (w : value) (groups : list (value * nat)) :
  (1 <= count_of w groups)%nat -> In (w, count_of w groups) groups.
Proof.
  unfold count_of. destruct (find _ groups) as [[x n]|] eqn:E; simpl; [|lia].
  intros _. apply find_some in E as [Hin Hx]. simpl in Hx.
  apply value_eqb_eq in Hx. now subst x.
Qed.

(** The groups after the rows [docs], starting from the groups [acc]. *)
Lemma group_fold_spec (docs : list document_row) (acc : list (value * nat)) :
  let groups :=
    fold_left (fun groups d => count_in_group (d_doc_type d) groups) docs acc in
  list_sum (map snd groups) = (length docs + list_sum (map snd acc))%nat
  /\ (forall w, count_of w groups
                = (length (rows_of_type w docs) + count_of w acc)%nat)
  /\ (NoDup (map fst acc) -> NoDup (map fst groups))
  /\ (Forall (fun g => (1 <= snd g)%nat) acc ->
      Forall (fun g => (1 <= snd g)%nat) groups).
Proof.
  cbv zeta. revert acc. induction docs as [|d docs IH]; intros acc; simpl.
  - repeat apply conj; auto.
  - destruct (IH (count_in_group (d_doc_type d) acc)) as [I1 [I2 [I3 I4]]].
    repeat apply conj.
    + rewrite I1, sum_count_in_group. lia.
    + intros w. rewrite I2, count_of_count_in_group.
      destruct (value_eqb (d_doc_type d) w); simpl; lia.
    + intros H. now apply I3, keys_count_in_group_NoDup.
    + intros H. now apply I4, positive_count_in_group.
Qed.

Lemma group_by_doc_type_member (docs : list document_row) (v : value) (n : nat) :
  In (v, n) (group_by_doc_type docs)
  <-> n = length (rows_of_type v docs) /\ (1 <= n)%nat.
Proof.
  unfold group_by_doc_type.
  destruct (group_fold_spec docs []) as [_ [H2 [H3 H4]]]. cbv zeta in *.
  specialize (H3 (NoDup_nil _)). specialize (H4 (Forall_nil _)).
  split.
  - intros Hin. split.
    + rewrite <- (count_of_member v n _ H3 Hin), H2. unfold count_of. simpl. lia.
    + rewrite Forall_forall in H4. apply (H4 _ Hin).
  - intros [-> Hn].
    replace (length (rows_of_type v docs))
      with (count_of v (fold_left
                          (fun groups d => count_in_group (d_doc_type d) groups)
                          docs [])) in *
      by (rewrite H2; unfold count_of; simpl; lia).
    now apply member_of_count_of.
Qed.

Lemma order_by_count_desc_fold (groups : list (value * nat)) :
  order_by_count_desc groups = fold_right (insert_before count_leb) [] groups.
Proof.
  unfold order_by_count_desc.
  induction groups as [|r rows IH]; simpl; [reflexivity|]. rewrite IH.
  generalize (fold_right (insert_before count_leb) [] rows).
  intros l. induction l as [|x l IHl]; simpl; [reflexivity|].
  unfold count_leb at 1. now rewrite IHl.
Qed.

Lemma order_by_count_desc_perm (groups : list (value * nat)) :
  Permutation groups (order_by_count_desc groups).
Proof. rewrite order_by_count_desc_fold. apply fold_insert_before_perm. Qed.

Lemma order_by_count_desc_descending (groups : list (value * nat)) :
  descending count_leb (order_by_count_desc groups).
Proof.
  rewrite order_by_count_desc_fold. apply fold_insert_before_descending.
  - unfold count_leb. intros a b H. apply Nat.leb_gt in H. apply Nat.leb_le. lia.
  - unfold count_leb. intros a b c. rewrite !Nat.leb_le. lia.
Qed.

Lemma stats_sum (c : conn) :
  list_sum (map snd (stats_count_by_type c)) = length (documents c).
Proof.
  unfold stats_count_by_type. rewrite map_map. simpl.
  rewrite <- (list_sum_perm _ _
                (Permutation_map snd (order_by_count_desc_perm _))).
  unfold group_by_doc_type.
  destruct (group_fold_spec (documents c) []) as [H _]. cbv zeta in H.
  rewrite H. simpl. lia.
Qed.

Lemma stats_member (c : conn) (t : str) (n : nat) :
  In (t, n) (stats_count_by_type c)
  <-> exists v, coalesce_unknown v = t
                /\ n = length (rows_of_type v (documents c)) /\ (1 <= n)%nat.
Proof.
  unfold stats_count_by_type. rewrite in_map_iff. split.
  - intros [[v m] [E Hin]]. simpl in E. injection E as <- <-.
    exists v. split; [reflexivity|]. apply group_by_doc_type_member.
    eapply Permutation_in; [symmetry; apply order_by_count_desc_perm | exact Hin].
  - intros [v [<- H]]. exists (v, n). split; [reflexivity|].
    eapply Permutation_in; [apply order_by_count_desc_perm|].
    now apply group_by_doc_type_member.
Qed.

(** X18. [stats_count_by_type] counts every stored Document once: the
    counts add up to the number of Documents, every listed count is at least
    1, and the list runs from the largest count down.  A type other than
    ["Unknown"] is listed, with the number of Documents of that type,
    exactly when some Document has it.  The label ["Unknown"] stands both
    for the Documents without a type and for those whose type is the text
    ["Unknown"]: each of the two groups, when it is not empty, is listed
    under that label with its own count. *)
Theorem stats_count_by_type_counts (c : conn) :
  list_sum (map snd (stats_count_by_type c)) = length (documents c)
  /\ Forall (fun e => (1 <= snd e)%nat) (stats_count_by_type c)
  /\ StronglySorted (fun a b => (snd b <= snd a)%nat) (stats_count_by_type c)
  /\ (forall t n, t <> u "Unknown" ->
        (In (t, n) (stats_count_by_type c)
         <-> n = length (rows_of_type (Some t) (documents c)) /\ (1 <= n)%nat))
  /\ (forall n,
        In (u "Unknown", n) (stats_count_by_type c)
        <-> (1 <= n)%nat
            /\ (n = length (rows_of_type None (documents c))
                \/ n = length (rows_of_type (Some (u "Unknown")) (documents c)))).
Proof.
  repeat apply conj.
  - apply stats_sum.
  - apply Forall_forall. intros [t n] H. apply stats_member in H.
    destruct H as [v [_ [_ H]]]. exact H.
  - unfold stats_count_by_type.
    pose proof (order_by_count_desc_descending (group_by_doc_type (documents c)))
      as H. unfold descending in H.
    induction H as [|g l Hs IH Hg]; simpl; constructor; [exact IH|].
    rewrite Forall_map. rewrite Forall_forall in *. intros x Hx. simpl.
    specialize (Hg x Hx). unfold count_leb in Hg. now apply Nat.leb_le.
  - intros t n Ht. rewrite stats_member. split.
    + intros [[x|] [E H]]; simpl in E; [now subst x | congruence].
    + intros H. now exists (Some t).
  - intros n. rewrite stats_member. split.
    + intros [[x|] [E [H1 H2]]]; simpl in E.
      * subst x. auto.
      * auto.
    + intros [H1 [H2 | H2]].
      * now exists None.
      * now exists (Some (u "Unknown")).
Qed.

(** X19. The Statistics page reports "No data yet." exactly when no
    Document is stored, and the total it shows otherwise is the number of
    stored Documents. *)
Theorem page_stats_total_is_document_count (c : conn) :
  (page_stats_total c = None <-> documents c = [])
  /\ (forall n, page_stats_total c = Some n -> n = length (documents c)).
Proof.
  pose proof (stats_sum c) as Hsum. unfold page_stats_total.
  destruct (stats_count_by_type c) as [|e stats] eqn:E.
  - split; [|discriminate]. simpl in Hsum.
    split; [intros _ | reflexivity].
    now destruct (documents c).
  - split.
    + split; [discriminate|]. intros Hd.
      unfold stats_count_by_type in E. rewrite Hd in E. discriminate.
    + intros n [= <-]. exact Hsum.
Qed.

(** ** Document ids and the pages that read the store *)

Lemma is_hex_digit_filename_char (c : N) :
  is_hex_digit c = true -> is_filename_char c = true /\ c <> 0x7C.
Proof.
  unfold is_hex_digit, is_filename_char. intros H. split; bool_arith.
Qed.

Lemma filename_chars_hex (s : str) :
  forallb is_hex_digit s = true -> filename_chars s /\ ~ In 0x7C s.
Proof.
  intros H. rewrite forallb_forall in H. split.
  - apply Forall_forall. intros c Hc. now apply is_hex_digit_filename_char, H.
  - intros Hc. apply H, is_hex_digit_filename_char in Hc. now destruct Hc.
Qed.

Lemma strip_nonspace (s : str) : forallb nonspace s = true -> strip s = s.
Proof.
  intros Hns. unfold strip. destruct s as [|c r]; [reflexivity|].
  rewrite lstrip_fixed by now apply forallb_nonspace_head in Hns.
  rewrite <- (app_nil_r (c :: r)) at 1.
  rewrite rstrip_app_nonspace by exact Hns. apply app_nil_r.
Qed.

(** X20. The ids [new_doc_id] makes from the 32 lower-case hex digits of a
    UUID are 12 hex digits long, contain no ['|'] and no whitespace, are
    left as they are by [safe_filename], and name a directory directly
    under the uploads and the exports directory. *)
Theorem new_doc_id_safe (uuid_hex : str) (uploads_dir exports_dir : path) :
  forallb is_hex_digit uuid_hex = true ->
  (12 <= length uuid_hex)%nat ->
  let id := new_doc_id uuid_hex in
  length id = 12%nat
  /\ forallb is_hex_digit id = true
  /\ ~ In 0x7C id
  /\ strip id = id
  /\ safe_filename id = id
  /\ doc_upload_dir uploads_dir id = uploads_dir ++ [id]
  /\ strictly_inside uploads_dir (doc_upload_dir uploads_dir id) = true
  /\ doc_export_dir exports_dir id = exports_dir ++ [id]
  /\ strictly_inside exports_dir (doc_export_dir exports_dir id) = true.
Proof.
  intros Hhex Hlen id.
  assert (Hl : length id = 12%nat).
  { unfold id, new_doc_id. rewrite length_firstn. lia. }
  assert (Hh : forallb is_hex_digit id = true).
  { apply forallb_forall. intros ch Hc. rewrite forallb_forall in Hhex.
    apply Hhex. unfold id, new_doc_id in Hc.
    rewrite <- (firstn_skipn 12 uuid_hex). apply in_or_app. now left. }
  destruct (filename_chars_hex id Hh) as [Hf Hbar].
  assert (Hs : safe_filename id = id) by (apply filename_chars_fixed; [exact Hf | lia]).
  assert (Hne : forall t, In t [[]; u "."; u ".."] -> id <> t).
  { intros t Ht E. rewrite E in Hl.
    destruct Ht as [<- | [<- | [<- | []]]]; discriminate. }
  assert (Hchild : forall dir, joinpath dir id = dir ++ [id]
                               /\ strictly_inside dir (joinpath dir id) = true).
  { intros dir. pose proof (safe_filename_child dir id) as H. cbv zeta in H.
    rewrite Hs in H. apply H; apply Hne; simpl; auto. }
  repeat apply conj; try assumption.
  - now apply strip_nonspace, filename_chars_nonspace.
  - apply Hchild.
  - apply Hchild.
  - apply Hchild.
  - apply Hchild.
Qed.

Lemma new_doc_id_safe_witness :
  safe_filename (new_doc_id (u "a1b2c3d4e5f60718293a4b5c6d7e8f90"))
  = new_doc_id (u "a1b2c3d4e5f60718293a4b5c6d7e8f90").
Proof.
  refine (proj1 (proj2 (proj2 (proj2 (proj2
            (new_doc_id_safe (u "a1b2c3d4e5f60718293a4b5c6d7e8f90")
               [u "data"; u "uploads"] [u "data"; u "exports"] _ _)))))).
  - vm_compute. reflexivity.
  - vm_compute. lia.
Defined.

Lemma before_bar_app (a b : str) :
  ~ In 0x7C a -> before_bar (a ++ 0x7C :: b) = a.
Proof.
  induction a as [|c a IH]; intros H; simpl.
  - reflexivity.
  - destruct (N.eqb_spec c 0x7C) as [-> | _]; [exfalso; apply H; now left|].
    f_equal. apply IH. intros Hin. apply H. now right.
Qed.

Lemma rstrip_app_space (s : str) : rstrip (s ++ [0x20]) = rstrip s.
Proof.
  induction s as [|c s IH]; [reflexivity|].
  change ((c :: s) ++ [0x20]) with (c :: (s ++ [0x20])). simpl. now rewrite IH.
Qed.

Lemma strip_app_space (s : str) : strip (s ++ [0x20]) = strip s.
Proof.
  unfold strip. induction s as [|c s IH]; [reflexivity|].
  change ((c :: s) ++ [0x20]) with (c :: (s ++ [0x20])). simpl.
  destruct (isspace c); [exact IH|].
  change (c :: s ++ [0x20]) with ((c :: s) ++ [0x20]). apply rstrip_app_space.
Qed.

Lemma before_bar_picker_option (d : document_row) :
  ~ In 0x7C (d_id d) -> strip (d_id d) = d_id d ->
  strip (before_bar (picker_option d)) = d_id d.
Proof.
  intros Hbar Hs. unfold picker_option.
  change (u " | ") with ([0x20] ++ 0x7C :: [0x20]).
  rewrite <- !app_assoc. rewrite (app_assoc (d_id d) [0x20]).
  change ([0x7C; 0x20] ++ format_value (d_doc_type d) ++ [0x20] ++ [0x7C; 0x20]
            ++ format_value (d_title d))
    with (0x7C :: ([0x20] ++ format_value (d_doc_type d) ++ [0x20] ++ [0x7C; 0x20]
                     ++ format_value (d_title d))).
  rewrite before_bar_app.
  - now rewrite strip_app_space.
  - intros H. apply in_app_or in H as [H | [H | []]]; [now apply Hbar | discriminate].
Qed.

Lemma get_document_stored (c : conn) (d : document_row) :
  NoDup (map d_id (documents c)) -> In d (documents c) ->
  get_document c (d_id d) = Some d.
Proof.
  unfold get_document. induction (documents c) as [|x l IH]; simpl; intros Hnd Hin.
  - easy.
  - apply NoDup_cons_iff in Hnd as [Hx Hnd]. destruct Hin as [-> | Hin].
    + now rewrite str_eqb_refl.
    + destruct (str_eqb (d_id x) (d_id d)) eqn:E; [|now apply IH].
      apply str_eqb_eq in E. exfalso. apply Hx. rewrite E.
      apply in_map_iff. eauto.
Qed.

(** X21. Every option the Library page offers leads back to its Document:
    when the ids of the stored Documents are distinct and hold neither a
    ['|'] nor leading or trailing whitespace, the id the page reads back off
    an option of the picker is the id of a stored Document that passes the
    page's type filter, whose option it is, whatever its title and type
    contain. *)
Theorem page_library_lookup_finds_pick (c : conn) (doc_type pick : str) :
  NoDup (map d_id (documents c)) ->
  Forall (fun d => ~ In 0x7C (d_id d) /\ strip (d_id d) = d_id d) (documents c) ->
  In pick (page_library_options c doc_type) ->
  exists d,
    page_library_lookup c pick = Some d
    /\ In d (documents c)
    /\ pick = picker_option d
    /\ type_filter (Some doc_type) d = true.
Proof.
  intros Hnd Hids Hpick. unfold page_library_options in Hpick.
  apply in_map_iff in Hpick as [d [<- Hd]].
  unfold get_documents in Hd. apply In_sql_limit, In_sql_offset in Hd.
  apply (proj1 (In_order_by _ _)) in Hd. apply filter_In in Hd as [Hd Hf].
  exists d. repeat apply conj; auto.
  unfold page_library_lookup. cbv zeta.
  rewrite Forall_forall in Hids. destruct (Hids d Hd) as [Hbar Hs].
  rewrite before_bar_picker_option by assumption.
  now apply get_document_stored.
Qed.

Lemma page_library_lookup_finds_pick_witness :
  exists d,
    page_library_lookup example_store
      (u "a1b2c3d4e5f6 | Invoice | Document a1b2c3d4e5f6") = Some d.
Proof.
  destruct (page_library_lookup_finds_pick example_store (u "All")
              (u "a1b2c3d4e5f6 | Invoice | Document a1b2c3d4e5f6"))
    as [d [H _]].
  - vm_compute. repeat constructor. auto.
  - constructor; [split|constructor].
    + vm_compute. intuition discriminate.
    + vm_compute. reflexivity.
  - vm_compute. left. reflexivity.
  - exists d. exact H.
Defined.

Section PageSearchProps.

Variable fts5_match : str -> option (fts_row -> bool).

(** X22. The Search page refuses a query of whitespace only and runs every
    other query as typed: its own stripping changes nothing, since
    [search_documents] and [search_images] strip the query again; a search
    shows at most 100 Documents or 200 images. *)
Theorem page_search_runs_query (c : conn) (q doc_type : str) :
  (page_search_documents fts5_match c q doc_type
   = if forallb isspace q then None
     else Some (search_documents fts5_match c q (Some doc_type) 100))
  /\ (page_search_images c q
      = if forallb isspace q then None else Some (search_images c q 200))
  /\ (forall res, page_search_documents fts5_match c q doc_type = Some res ->
        (length res <= 100)%nat)
  /\ (forall res, page_search_images c q = Some res -> (length res <= 200)%nat).
Proof.
  assert (Hblank : forall s, strip s = [] <-> forallb isspace s = true).
  { intros s. split.
    - unfold strip. induction s as [|ch s IH]; simpl; [reflexivity|].
      destruct (isspace ch) eqn:E; [exact IH|].
      intros H. apply rstrip_nil_head in H. congruence.
    - unfold strip. induction s as [|ch s IH]; simpl; [reflexivity|].
      destruct (isspace ch); [exact IH | discriminate]. }
  assert (Hd : forall query,
             search_documents fts5_match c (strip query) (Some doc_type) 100
             = search_documents fts5_match c query (Some doc_type) 100).
  { intros query. unfold search_documents, search_documents_fts,
      search_documents_like, like_candidates. cbv zeta. now rewrite strip_idem. }
  assert (Hi : forall query, search_images c (strip query) 200
                             = search_images c query 200).
  { intros query. unfold search_images. cbv zeta. now rewrite strip_idem. }
  assert (H1 : page_search_documents fts5_match c q doc_type
               = if forallb isspace q then None
                 else Some (search_documents fts5_match c q (Some doc_type) 100)).
  { unfold page_search_documents. rewrite Hd.
    destruct (strip q) eqn:E.
    - apply Hblank in E. now rewrite E.
    - destruct (forallb isspace q) eqn:F; [|reflexivity].
      apply Hblank in F. congruence. }
  assert (H2 : page_search_images c q
               = if forallb isspace q then None else Some (search_images c q 200)).
  { unfold page_search_images. rewrite Hi.
    destruct (strip q) eqn:E.
    - apply Hblank in E. now rewrite E.
    - destruct (forallb isspace q) eqn:F; [|reflexivity].
      apply Hblank in F. congruence. }
  repeat apply conj; [exact H1 | exact H2 | |].
  - intros res. rewrite H1. destruct (forallb isspace q); [discriminate|].
    intros [= <-].
    pose proof (search_documents_result_length fts5_match c q (Some doc_type) 100).
    lia.
  - intros res. rewrite H2. destruct (forallb isspace q); [discriminate|].
    intros [= <-]. unfold search_images. cbv zeta.
    match goal with
    | |- (length (sql_limit 200 ?l) <= 200)%nat =>
        pose proof (length_sql_limit 200 l)
    end. lia.
Qed.

End PageSearchProps.

(** ** The recognizer *)

Section RunEasyocrProps.

Variable image : Type.
Variable preprocess : str -> option image.
Variable readtext : str + image -> option (list detection).
Variable py_sum : list float -> float.

Lemma run_easyocr_stripped (image_path : str) (enhance : bool) (text : str)
  (conf : float) :
  run_easyocr image preprocess readtext py_sum image_path enhance = Some (text, conf) ->
  strip text = text.
Proof.
  unfold run_easyocr.
  destruct enhance; simpl negb; cbv iota.
  - destruct (preprocess image_path) as [img|]; [|discriminate].
    destruct (readtext (inr img)) as [[|r rs]|]; [| |discriminate].
    + now intros [= <- _].
    + intros [= <- _]. apply strip_idem.
  - destruct (readtext (inl image_path)) as [[|r rs]|]; [| |discriminate].
    + now intros [= <- _].
    + intros [= <- _]. apply strip_idem.
Qed.

(** X23. [run_easyocr] fails exactly when the recognizer raises or, with
    enhancement on, when opening or preprocessing the image raises; an
    image without detections is no failure.  Without enhancement the image
    is never opened or preprocessed.  The text of a result has no leading
    and no trailing whitespace. *)
Theorem run_easyocr_failure (image_path : str) (enhance : bool) :
  (run_easyocr image preprocess readtext py_sum image_path enhance = None
   <-> if enhance
       then preprocess image_path = None
            \/ exists img, preprocess image_path = Some img
                           /\ readtext (inr img) = None
       else readtext (inl image_path) = None)
  /\ (forall preprocess',
        run_easyocr image preprocess' readtext py_sum image_path false
        = run_easyocr image preprocess readtext py_sum image_path false)
  /\ (forall text conf,
        run_easyocr image preprocess readtext py_sum image_path enhance
        = Some (text, conf) ->
        strip text = text).
Proof.
  split; [|split].
  - unfold run_easyocr. destruct enhance; simpl negb; cbv iota.
    + destruct (preprocess image_path) as [img|]; [|intuition].
      destruct (readtext (inr img)) as [[|r rs]|] eqn:E.
      * split; [discriminate|]. intros [H | [img' [[= <-] H]]]; congruence.
      * split; [discriminate|]. intros [H | [img' [[= <-] H]]]; congruence.
      * split; [|reflexivity]. intros _. right. eauto.
    + destruct (readtext (inl image_path)) as [[|r rs]|];
        split; congruence.
  - reflexivity.
  - apply run_easyocr_stripped.
Qed.

End RunEasyocrProps.

(** ** The upload page *)

Section UploadProps.

Variable lower_cp : N -> list N.
Variable image : Type.
Variable preprocess : str -> option image.
Variable readtext : str + image -> option (list detection).
Variable py_sum : list float -> float.
Variable UPLOADS_DIR EXPORTS_DIR : path.
Variable write_bytes : path -> bool.
Variable export_to_word : path -> str -> str -> str -> str -> list saved_image -> bool.
Variable export_to_excel : path -> str -> str -> str -> list saved_image -> bool.

Lemma save_images_spec (c : conn) (upload_dir : path) (doc_id : str)
  (files : list str) :
  let w := written_prefix write_bytes upload_dir files in
  forall c' saved evs ok,
    save_images write_bytes c upload_dir doc_id files = (c', saved, evs, ok) ->
    documents c' = documents c
    /\ documents_fts c' = documents_fts c
    /\ images c' = images c ++ image_rows (images_seq c) doc_id upload_dir w
    /\ images_seq c' = images_seq c + N.of_nat (length w)
    /\ saved = map (fun name =>
                      {| s_filename := safe_filename name;
                         s_stored_path := joinpath upload_dir (safe_filename name);
                         s_ocr_text := [] |}) w
    /\ evs = map (fun name =>
                    EvInsertImage doc_id (safe_filename name)
                      (path_str (joinpath upload_dir (safe_filename name)))) w
    /\ (ok = true <-> w = files)
    /\ (ok = false ->
        exists name rest,
          files = w ++ name :: rest
          /\ write_bytes (joinpath upload_dir (safe_filename name)) = false).
Proof.
  cbv zeta. revert c. induction files as [|name rest IH]; intros c c' saved evs ok; simpl.
  - intros [= <- <- <- <-]. rewrite app_nil_r, N.add_0_r.
    split_conj; try reflexivity; [tauto | discriminate].
  - destruct (write_bytes (joinpath upload_dir (safe_filename name))) eqn:Ew.
    + destruct (save_images write_bytes
                  (insert_image c doc_id (safe_filename name)
                     (path_str (joinpath upload_dir (safe_filename name))) None)
                  upload_dir doc_id rest) as [[[c1 saved1] evs1] ok1] eqn:Er.
      intros [= <- <- <- <-].
      destruct (IH _ _ _ _ _ Er) as [I1 [I2 [I3 [I4 [I5 [I6 [I7 I8]]]]]]].
      simpl in I1, I2, I3, I4.
      split_conj.
      * exact I1.
      * exact I2.
      * rewrite I3, <- app_assoc. reflexivity.
      * rewrite I4. simpl length. lia.
      * simpl. now rewrite I5.
      * simpl. now rewrite I6.
      * rewrite I7. split; [congruence | now intros [= ->]].
      * intros Hok. destruct (I8 Hok) as [n [r [E1 E2]]].
        exists n, r. split; [simpl; congruence | exact E2].
    + intros [= <- <- <- <-]. rewrite app_nil_r, N.add_0_r.
      split_conj; try reflexivity.
      * split; discriminate.
      * intros _. exists name, rest. now split.
Qed.

Lemma ocr_images_spec (doc_id : str) (enhance : bool) (imgs : list saved_image) :
  forall c combined_text c' imgs' combined evs,
    ocr_images image preprocess readtext py_sum c doc_id enhance imgs combined_text
    = (c', imgs', combined, evs) ->
    documents c' = documents c
    /\ documents_fts c' = documents_fts c
    /\ images_seq c' = images_seq c
    /\ map image_location (images c') = map image_location (images c)
    /\ map s_filename imgs' = map s_filename imgs
    /\ map s_stored_path imgs' = map s_stored_path imgs
    /\ Forall (fun img => strip (s_ocr_text img) = s_ocr_text img) imgs'
    /\ combined = combined_text ++ flat_map text_section imgs'
    /\ evs = map (fun img => EvUpdateImageOcr doc_id (path_str (s_stored_path img))
                               (s_ocr_text img)) imgs'.
Proof.
  induction imgs as [|img rest IH]; intros c combined_text c' imgs' combined evs; simpl.
  - intros [= <- <- <- <-]. rewrite app_nil_r. repeat apply conj; auto.
  - set (text := match run_easyocr image preprocess readtext py_sum
                         (path_str (s_stored_path img)) enhance with
                 | Some (text, _) => text
                 | None => []
                 end).
    assert (Hstrip : strip text = text).
    { unfold text.
      destruct (run_easyocr image preprocess readtext py_sum
                  (path_str (s_stored_path img)) enhance) as [[t cf]|] eqn:E;
        [|reflexivity].
      eapply run_easyocr_stripped. exact E. }
    match goal with
    | |- context [ocr_images _ _ _ _ ?c1 _ _ rest ?t1] =>
        destruct (ocr_images image preprocess readtext py_sum c1 doc_id enhance rest t1)
          as [[[c2 imgs2] combined2] evs2] eqn:Er;
        destruct (IH _ _ _ _ _ _ Er) as [I1 [I2 [I3 [I4 [I5 [I6 [I7 [I8 I9]]]]]]]]
    end.
    intros [= <- <- <- <-]. simpl in I1, I2, I3, I4.
    repeat apply conj.
    + exact I1.
    + exact I2.
    + exact I3.
    + rewrite I4, map_map. apply map_ext. intros r. now destruct (_ && _).
    + simpl. now rewrite I5.
    + simpl. now rewrite I6.
    + constructor; [exact Hstrip | exact I7].
    + rewrite I8. simpl flat_map. unfold text_section at 2. simpl s_ocr_text.
      simpl s_filename. destruct text as [|t0 text']; [reflexivity|].
      rewrite <- (app_assoc combined_text). reflexivity.
    + simpl. now rewrite I9.
Qed.

(** X24. The text of the Document is put together from the images in
    upload order: each image whose text is not empty adds two newlines, the
    line [--- filename ---] and its text, and an image whose text is empty
    adds nothing.
    The loop keeps the filenames and paths of the images, stores texts
    without leading or trailing whitespace, issues one [update_image_ocr]
    per image with that text, and leaves the documents, the index, the id
    counter and the location of every stored image as they are. *)
Theorem ocr_images_combined_text (c : conn) (doc_id : str) (enhance : bool)
  (imgs : list saved_image) (combined_text : str)
  (c' : conn) (imgs' : list saved_image) (combined : str) (evs : list event) :
  ocr_images image preprocess readtext py_sum c doc_id enhance imgs combined_text
  = (c', imgs', combined, evs) ->
  combined = combined_text ++ flat_map text_section imgs'
  /\ map s_filename imgs' = map s_filename imgs
  /\ map s_stored_path imgs' = map s_stored_path imgs
  /\ Forall (fun img => strip (s_ocr_text img) = s_ocr_text img) imgs'
  /\ evs = map (fun img => EvUpdateImageOcr doc_id (path_str (s_stored_path img))
                             (s_ocr_text img)) imgs'
  /\ documents c' = documents c
  /\ documents_fts c' = documents_fts c
  /\ images_seq c' = images_seq c
  /\ map image_location (images c') = map image_location (images c).
Proof.
  intros H. apply ocr_images_spec in H.
  destruct H as (I1 & I2 & I3 & I4 & I5 & I6 & I7 & I8 & I9).
  split_conj; assumption.
Qed.

Lemma page_upload_completed_inv (c : conn) (submitted : bool) (title : str)
  (enhance run_now : bool) (files : list str) (doc_id created_at : str)
  (c' : conn) (trace : list event) :
  page_upload lower_cp image preprocess readtext py_sum UPLOADS_DIR EXPORTS_DIR
    write_bytes export_to_word export_to_excel
    c submitted title enhance run_now files doc_id created_at
  = (c', trace, Completed) ->
  submitted = true /\ files <> []
  /\ exists c1 saved evs_save c2 saved2 combined evs_ocr doc tail,
       save_images write_bytes c (doc_upload_dir UPLOADS_DIR doc_id) doc_id files
       = (c1, saved, evs_save, true)
       /\ (if run_now
           then ocr_images image preprocess readtext py_sum c1 doc_id enhance saved []
                = (c2, saved2, combined, evs_ocr)
           else (c2, saved2, combined, evs_ocr) = (c1, saved, [], []))
       /\ c' = upsert_document c2 doc
       /\ k_id doc = doc_id
       /\ k_title doc = PyStr (title_or_default title doc_id)
       /\ k_created_at doc = PyStr created_at
       /\ k_doc_type doc = PyStr (classify_document lower_cp (Some combined))
       /\ k_ocr_text doc = PyStr combined
       /\ trace = evs_save ++ evs_ocr ++ tail
       /\ Forall (fun e => is_insert_event e = false /\ is_update_event e = false) tail.
Proof.
  unfold page_upload. destruct submitted; [|discriminate]. simpl negb. cbv iota.
  destruct files as [|f files']; [discriminate|].
  destruct (save_images write_bytes c (doc_upload_dir UPLOADS_DIR doc_id) doc_id
              (f :: files')) as [[[c1 saved] evs_save] ok] eqn:Es.
  destruct ok; [|discriminate]. simpl negb. cbv iota.
  destruct (if run_now
            then ocr_images image preprocess readtext py_sum c1 doc_id enhance saved []
            else (c1, saved, [], []))
    as [[[c2 saved2] combined] evs_ocr] eqn:Eo.
  intros H. split; [reflexivity|]. split; [discriminate|].
  exists c1, saved, evs_save, c2, saved2, combined, evs_ocr.
  destruct (export_to_word _ _ _ _ _ _) eqn:Ew in H;
    [destruct (export_to_excel _ _ _ _ _) eqn:Ex in H|];
    simpl andb in H; cbv iota beta in H;
    injection H as <- <-;
    eexists; eexists;
    (split; [reflexivity|]);
    (split; [destruct run_now; [exact Eo | now injection Eo as <- <- <- <-]|]);
    (split; [reflexivity|]);
    repeat (split; [reflexivity|]);
    repeat constructor.
Qed.

Lemma written_prefix_all (upload_dir : path) (files : list str) :
  written_prefix write_bytes upload_dir files = files
  <-> Forall (fun name => write_bytes (joinpath upload_dir (safe_filename name)) = true)
        files.
Proof.
  induction files as [|name rest IH]; simpl.
  - split; [constructor | reflexivity].
  - destruct (write_bytes (joinpath upload_dir (safe_filename name))) eqn:E.
    + rewrite Forall_cons_iff, <- IH. split; [intros [= ->]; auto | intros [_ ->]; auto].
    + split; [discriminate|]. intros H. apply Forall_cons_iff in H as [H _]. congruence.
Qed.

Lemma written_prefix_ok (upload_dir : path) (files : list str) :
  Forall (fun name => write_bytes (joinpath upload_dir (safe_filename name)) = true)
    (written_prefix write_bytes upload_dir files).
Proof.
  induction files as [|name rest IH]; simpl; [constructor|].
  destruct (write_bytes (joinpath upload_dir (safe_filename name))) eqn:E;
    constructor; assumption.
Qed.

(** X25. A run of the upload page that completes has written every file
    and registered one image per upload, in upload order: the new rows get
    the next ids, the id of the new Document, the sanitized filename and the
    path of the file under the Document's upload directory; no stored image
    is moved or renumbered.  The calls on the images table are the inserts,
    all before the first update, and with "Run OCR now" off there is no
    update and every new image has a null text. *)
Theorem page_upload_registers_images (c : conn) (submitted : bool) (title : str)
  (enhance run_now : bool) (files : list str) (doc_id created_at : str)
  (c' : conn) (trace : list event) :
  page_upload lower_cp image preprocess readtext py_sum UPLOADS_DIR EXPORTS_DIR
    write_bytes export_to_word export_to_excel
    c submitted title enhance run_now files doc_id created_at
  = (c', trace, Completed) ->
  let upload_dir := doc_upload_dir UPLOADS_DIR doc_id in
  let rows := image_rows (images_seq c) doc_id upload_dir files in
  Forall (fun name => write_bytes (joinpath upload_dir (safe_filename name)) = true)
    files
  /\ map image_location (images c') = map image_location (images c ++ rows)
  /\ images_seq c' = images_seq c + N.of_nat (length files)
  /\ (run_now = false -> images c' = images c ++ rows)
  /\ exists updates tail,
       trace = map (fun name =>
                      EvInsertImage doc_id (safe_filename name)
                        (path_str (joinpath upload_dir (safe_filename name)))) files
               ++ updates ++ tail
       /\ forallb is_update_event updates = true
       /\ length updates = (if run_now then length files else 0%nat)
       /\ Forall (fun e => is_insert_event e = false /\ is_update_event e = false) tail.
Proof.
  intros H. cbv zeta. apply page_upload_completed_inv in H.
  destruct H as (_ & _ & c1 & saved & evs_save & c2 & saved2 & combined & evs_ocr
                 & doc & tail & Hs & Ho & -> & _ & _ & _ & _ & _ & -> & Htail).
  apply save_images_spec in Hs.
  destruct Hs as [S1 [S2 [S3 [S4 [S5 [S6 [S7 _]]]]]]].
  pose proof (proj1 S7 eq_refl) as Hw. rewrite Hw in *.
  split; [now apply written_prefix_all|].
  destruct run_now.
  - apply ocr_images_spec in Ho.
    destruct Ho as [O1 [O2 [O3 [O4 [O5 [O6 [O7 [O8 O9]]]]]]]].
    split; [simpl; now rewrite O4, S3|].
    split; [simpl; now rewrite O3, S4|].
    split; [discriminate|].
    exists evs_ocr, tail. split; [now rewrite S6|]. split; [|split; [|exact Htail]].
    + rewrite O9. apply forallb_forall. intros e He.
      apply in_map_iff in He as [img [<- _]]. reflexivity.
    + rewrite O9, length_map, <- (length_map s_filename), O5, length_map, S5.
      apply length_map.
  - injection Ho as -> -> -> ->.
    split; [simpl; now rewrite S3|].
    split; [simpl; now rewrite S4|].
    split; [intros _; simpl; exact S3|].
    exists [], tail. split; [now rewrite S6|]. split; [reflexivity|].
    split; [reflexivity | exact Htail].
Qed.

(** X26. A run of the upload page in which writing a file raises stops
    there: the files before it are written and stay registered as images of
    the new Document id, but no Document is stored, nothing is exported and
    the index is not touched. *)
Theorem page_upload_write_failure (c : conn) (submitted : bool) (title : str)
  (enhance run_now : bool) (files : list str) (doc_id created_at : str)
  (c' : conn) (trace : list event) :
  page_upload lower_cp image preprocess readtext py_sum UPLOADS_DIR EXPORTS_DIR
    write_bytes export_to_word export_to_excel
    c submitted title enhance run_now files doc_id created_at
  = (c', trace, WriteRaised) ->
  let upload_dir := doc_upload_dir UPLOADS_DIR doc_id in
  exists done name rest,
    files = done ++ name :: rest
    /\ Forall (fun n => write_bytes (joinpath upload_dir (safe_filename n)) = true) done
    /\ write_bytes (joinpath upload_dir (safe_filename name)) = false
    /\ documents c' = documents c
    /\ documents_fts c' = documents_fts c
    /\ images c' = images c ++ image_rows (images_seq c) doc_id upload_dir done
    /\ get_images_by_doc c' doc_id
       = get_images_by_doc c doc_id ++ image_rows (images_seq c) doc_id upload_dir done
    /\ trace = map (fun n =>
                      EvInsertImage doc_id (safe_filename n)
                        (path_str (joinpath upload_dir (safe_filename n)))) done.
Proof.
  unfold page_upload. destruct submitted; [|discriminate]. simpl negb. cbv iota.
  destruct files as [|f files']; [discriminate|].
  destruct (save_images write_bytes c (doc_upload_dir UPLOADS_DIR doc_id) doc_id
              (f :: files')) as [[[c1 saved] evs_save] ok] eqn:Es.
  destruct ok; simpl negb; cbv iota.
  - destruct (if run_now
              then ocr_images image preprocess readtext py_sum c1 doc_id enhance saved []
              else (c1, saved, [], []))
      as [[[c2 saved2] combined] evs_ocr].
    destruct (export_to_word _ _ _ _ _ _);
      [destruct (export_to_excel _ _ _ _ _)|]; discriminate.
  - intros [= <- <-]. cbv zeta. apply save_images_spec in Es.
    destruct Es as [S1 [S2 [S3 [S4 [S5 [S6 [S7 S8]]]]]]].
    destruct (S8 eq_refl) as [name [rest [E1 E2]]].
    exists (written_prefix write_bytes (doc_upload_dir UPLOADS_DIR doc_id) (f :: files')),
      name, rest.
    split_conj; try assumption.
    + apply written_prefix_ok.
    + unfold get_images_by_doc. rewrite S3, filter_app. f_equal.
      apply filter_all. intros r Hr. clear - Hr.
      revert Hr. generalize (images_seq c). 
      induction (written_prefix write_bytes (doc_upload_dir UPLOADS_DIR doc_id)
                   (f :: files')) as [|n l IH]; intros seq Hr; [easy|].
      destruct Hr as [<- | Hr]; [apply str_eqb_refl | now apply (IH (seq + 1))].
Qed.

Lemma classify_document_label (ocr_text : option str) :
  In (classify_document lower_cp ocr_text) doc_type_labels.
Proof.
  unfold classify_document. cbv zeta.
  destruct (2 <=? _)%nat; [right; left; reflexivity|].
  destruct (_ || _); [left; reflexivity | right; right; left; reflexivity].
Qed.

Lemma ocr_images_no_text (doc_id : str) (enhance : bool) (imgs : list saved_image) :
  (forall input, readtext input = None \/ readtext input = Some []) ->
  forall c combined_text,
    snd (fst (ocr_images image preprocess readtext py_sum c doc_id enhance imgs
                combined_text))
    = combined_text.
Proof.
  intros Hr. induction imgs as [|img rest IH]; intros c combined_text; simpl;
    [reflexivity|].
  assert (E : match run_easyocr image preprocess readtext py_sum
                      (path_str (s_stored_path img)) enhance with
              | Some (text, _) => text
              | None => []
              end = []).
  { unfold run_easyocr. destruct enhance; simpl negb; cbv iota.
    - destruct (preprocess _) as [cv|]; [|reflexivity].
      destruct (Hr (inr cv)) as [-> | ->]; reflexivity.
    - destruct (Hr (inl (path_str (s_stored_path img)))) as [-> | ->]; reflexivity. }
  rewrite E.
  match goal with
  | |- context [ocr_images _ _ _ _ ?c1 _ _ rest ?t1] =>
      specialize (IH c1 t1);
      destruct (ocr_images image preprocess readtext py_sum c1 doc_id enhance rest t1)
        as [[[c2 imgs2] combined2] evs2]
  end.
  exact IH.
Qed.

(** X27. A run of the upload page that completes stores the Document under
    its id with the given title, or ["Document <id>"] when the title is
    empty, the given creation time, the combined text, and as type the
    label [classify_document] gives to that very text, one of the three
    labels.  With "Run OCR now" off, or when the recognizer raises or
    detects nothing on every image, the text is empty and the type is
    ["Normal"]. *)
Theorem page_upload_stores_classified_document (c : conn) (submitted : bool)
  (title : str) (enhance run_now : bool) (files : list str)
  (doc_id created_at : str) (c' : conn) (trace : list event) :
  page_upload lower_cp image preprocess readtext py_sum UPLOADS_DIR EXPORTS_DIR
    write_bytes export_to_word export_to_excel
    c submitted title enhance run_now files doc_id created_at
  = (c', trace, Completed) ->
  exists d text,
    get_document c' doc_id = Some d
    /\ d_id d = doc_id
    /\ d_title d = Some (title_or_default title doc_id)
    /\ d_created_at d = Some created_at
    /\ d_ocr_text d = Some text
    /\ d_doc_type d = Some (classify_document lower_cp (Some text))
    /\ In (classify_document lower_cp (Some text)) doc_type_labels
    /\ (run_now = false -> text = [])
    /\ ((forall input, readtext input = None \/ readtext input = Some []) -> text = [])
    /\ (text = [] -> d_doc_type d = Some (u "Normal")).
Proof.
  intros H. apply page_upload_completed_inv in H.
  destruct H as (_ & _ & c1 & saved & evs_save & c2 & saved2 & combined & evs_ocr
                 & doc & tail & Hs & Ho & -> & K1 & K2 & K3 & K4 & K5 & _).
  destruct (upsert_document_stores c2 doc) as [Hget _].
  rewrite K1, K2, K3, K4, K5 in Hget. simpl in Hget.
  eexists. exists combined. split; [exact Hget|]. simpl.
  split_conj; try reflexivity.
  - apply classify_document_label.
  - intros ->. now injection Ho as _ _ -> _.
  - intros Hr. destruct run_now; [|now injection Ho as _ _ -> _].
    pose proof (ocr_images_no_text doc_id enhance saved Hr c1 []) as E.
    rewrite Ho in E. exact E.
  - intros ->. reflexivity.
Qed.

End UploadProps.

(** Two images, the second without any detection. *)
Lemma ocr_images_combined_text_witness :
  exists c' imgs' evs,
    ocr_images unit (fun _ => Some tt)
      (fun input =>
         match input with
         | inl _ => Some []
         | inr _ => Some [ {| det_text := u " ABC "; det_conf := conf_0_9 |} ]
         end)
      sum_left example_store (u "a1b2c3d4e5f6") true
      [ {| s_filename := u "scan.png";
           s_stored_path := [u "data"; u "uploads"; u "a1b2c3d4e5f6"; u "scan.png"];
           s_ocr_text := [] |} ] []
    = (c', imgs', [0x0A; 0x0A] ++ u "--- scan.png ---" ++ [0x0A] ++ u "ABC", evs).
Proof.
  pose proof (ocr_images_combined_text unit (fun _ => Some tt)
                (fun input =>
                   match input with
                   | inl _ => Some []
                   | inr _ => Some [ {| det_text := u " ABC "; det_conf := conf_0_9 |} ]
                   end)
                sum_left example_store (u "a1b2c3d4e5f6") true
                [ {| s_filename := u "scan.png";
                     s_stored_path := [u "data"; u "uploads"; u "a1b2c3d4e5f6";
                                       u "scan.png"];
                     s_ocr_text := [] |} ] []) as H.
  destruct (ocr_images _ _ _ _ _ _ _ _ _) as [[[c' imgs'] combined] evs] eqn:E.
  exists c', imgs', evs. destruct (H _ _ _ _ eq_refl) as [Hc _].
  rewrite Hc. f_equal. vm_compute in E. injection E as _ <- _ _. reflexivity.
Defined.

Lemma page_upload_registers_images_witness :
  images_seq (fst (fst (example_upload true))) = 1.
Proof.
  refine (proj1 (proj2 (proj2
            (page_upload_registers_images vi_lower_cp unit (fun _ => Some tt)
               (scripted_reader [ {| det_text := u "ABC"; det_conf := conf_0_9 |} ])
               sum_left [u "data"; u "uploads"] [u "data"; u "exports"]
               (fun _ => true) (fun _ _ _ _ _ _ => true) (fun _ _ _ _ _ => true)
               empty_store true [] true true [u "scan 1.png"]
               (u "a1b2c3d4e5f6") (u "2024-01-01T00:00:00") _ _ _)))).
  vm_compute. reflexivity.
Defined.

(** The second of two files cannot be written. *)
Lemma page_upload_write_failure_witness :
  exists done name rest,
    [u "a.png"; u "b.png"] = done ++ name :: rest
    /\ name = u "b.png".
Proof.
  destruct (page_upload_write_failure vi_lower_cp unit (fun _ => Some tt)
              (scripted_reader []) sum_left
              [u "data"; u "uploads"] [u "data"; u "exports"]
              (fun p => negb (str_eqb (path_str p)
                                (u "/data/uploads/a1b2c3d4e5f6/b.png")))
              (fun _ _ _ _ _ _ => true) (fun _ _ _ _ _ => true)
              empty_store true [] true true [u "a.png"; u "b.png"]
              (u "a1b2c3d4e5f6") (u "2024-01-01T00:00:00")
              (insert_image empty_store (u "a1b2c3d4e5f6") (u "a.png")
                 (u "/data/uploads/a1b2c3d4e5f6/a.png") None)
              [EvInsertImage (u "a1b2c3d4e5f6") (u "a.png")
                 (u "/data/uploads/a1b2c3d4e5f6/a.png")])
    as (done & name & rest & E & Hd & Hn & _).
  - vm_compute. reflexivity.
  - exists done, name, rest. split; [exact E|].
    destruct done as [|x [|y done]].
    + injection E as <- _. vm_compute in Hn. discriminate.
    + now injection E as _ <- _.
    + destruct done; discriminate.
Defined.

Lemma page_upload_stores_classified_document_witness :
  exists d,
    get_document (fst (fst (example_upload true))) (u "a1b2c3d4e5f6") = Some d
    /\ d_doc_type d = Some (u "Normal").
Proof.
  destruct (page_upload_stores_classified_document vi_lower_cp unit (fun _ => Some tt)
              (scripted_reader [ {| det_text := u "ABC"; det_conf := conf_0_9 |} ])
              sum_left [u "data"; u "uploads"] [u "data"; u "exports"]
              (fun _ => true) (fun _ _ _ _ _ _ => true) (fun _ _ _ _ _ => true)
              empty_store true [] true true [u "scan 1.png"]
              (u "a1b2c3d4e5f6") (u "2024-01-01T00:00:00")
              (fst (fst (example_upload true))) (snd (fst (example_upload true))))
    as (d & text & Hg & _ & _ & _ & Ht & Hty & _).
  - vm_compute. reflexivity.
  - exists d. split; [exact Hg|].
    vm_compute in Hg. injection Hg as <-. reflexivity.
Defined.
